(** * OpenBQ assessment job: dispatch, completion tracking and finalization

    A shallow embedding of [openbq/app.py]: the coordinator [run], the
    remote task [scan_task], and the collaborators they call.  Python
    values are dynamically typed, so records returned by the scoring
    engine are embedded as a small universe of values; every effect of
    the coordinator (console output, the progress bars, the artifact
    files, calls to the worker pool) is threaded through an explicit
    state, and Python exceptions are the error branch of the monad. *)

From Stdlib Require Import ZArith List String Ascii Bool Lia Permutation.
From Stdlib Require QArith.
From stdpp Require Import base tactics option list strings gmap pretty.

Set Warnings "-register-all".
Local Open Scope string_scope.
Local Open Scope Z_scope.
Local Open Scope list_scope.

(** ** Python values *)

Inductive value : Type :=
| VNone
| VBool (b : bool)
| VInt (z : Z)
| VStr (s : string)
| VList (l : list value)
| VDict (d : list (string * value)).

(** A dict keeps its keys in insertion order; keys are unique. *)
Abbreviation dict := (list (string * value)).

Fixpoint dict_get (k : string) (d : dict) : option value :=
  match d with
  | [] => None
  | (k', v) :: d' => if String.eqb k k' then Some v else dict_get k d'
  end.

Fixpoint dict_set (k : string) (v : value) (d : dict) : dict :=
  match d with
  | [] => [(k, v)]
  | (k', v') :: d' =>
      if String.eqb k k' then (k, v) :: d' else (k', v') :: dict_set k v d'
  end.

Fixpoint dict_pop (k : string) (d : dict) : dict :=
  match d with
  | [] => []
  | (k', v') :: d' => if String.eqb k k' then d' else (k', v') :: dict_pop k d'
  end.

Definition dict_keys (d : dict) : list string := map fst d.

(** Python truthiness, as used by [if x:] and [x or y]. *)
Definition truthy (v : value) : bool :=
  match v with
  | VNone => false
  | VBool b => b
  | VInt z => negb (Z.eqb z 0)
  | VStr s => negb (String.eqb s "")
  | VList l => match l with [] => false | _ => true end
  | VDict d => match d with [] => false | _ => true end
  end.

Definition truthy_str (s : string) : bool := negb (String.eqb s "").

(** ** Exceptions *)

Inductive exn : Type :=
| Exception (msg : string)
| AttributeError (msg : string)
| TypeError (msg : string)
| ValueError (msg : string)
| JSONDecodeError (msg : string)
| FileNotFoundError (msg : string)
| UnboundLocalError (var : string)
| ZeroDivisionError
| RayTaskError (cause : exn).

(** [str(e)] *)
Fixpoint str_exn (e : exn) : string :=
  match e with
  | Exception m | AttributeError m | TypeError m | ValueError m
  | JSONDecodeError m | FileNotFoundError m => m
  | UnboundLocalError v =>
      "cannot access local variable '" +:+ v +:+
      "' where it is not associated with a value"
  | ZeroDivisionError => "float division by zero"
  | RayTaskError c => str_exn c
  end.

Inductive Res (A : Type) : Type :=
| Ok (a : A)
| Err (e : exn).
Arguments Ok {A} a.
Arguments Err {A} e.

(** ** Work units and the worker pool *)

(** The arguments of one [scan_task.remote(...)] call; the object
    reference returned by the pool is identified with them. *)
Record task : Type := Task {
  t_path : string;
  t_output_dir : string;
  t_log_dir : string;
  t_mode : string;
  t_convert : list string;
  t_target : string;
  t_engine : string;
  t_fusion : Z;
  t_prefix : string
}.

(** The keyword arguments of one call of the scoring engine [scan]. *)
Inductive scan_call : Type :=
| ScanFolder (path mode engine : string) (fusion : Z)
| ScanFile (path mode : string) (source : list string) (target engine : string).

(** ** Artifacts *)

(** [PartialFile] is a file opened with mode ["w"] whose write did not
    complete: what it held before is gone, and what it holds (nothing, or
    the beginning of a document) is not a JSON document. *)
Inductive file : Type :=
| CsvFile (rows : list value) (seamed : bool)
| LogFile (entries : list dict) (finished : bool)
| JsonFile (content : value)
| PartialFile.

(** The entries of the log at [path], the rows of the table at [path]. *)
Definition log_entries (f : gmap string file) (path : string) : list dict :=
  match f !! path with
  | Some (LogFile es _) => es
  | _ => []
  end.

Definition csv_rows (f : gmap string file) (path : string) : list value :=
  match f !! path with
  | Some (CsvFile rs _) => rs
  | _ => []
  end.

(** ** The progress display

    One [bar] per [Progress()] context with its single task:
    [bar_shown] is every value of [completed] the bar has displayed,
    oldest first. *)
Record bar : Type := Bar {
  bar_total : Z;
  bar_completed : Z;
  bar_finished : bool;
  bar_shown : list Z
}.

(** ** Observable events of the coordinator *)

Inductive meta_row : Type :=
| MMode (mode : string)
| MEngine (engine : string)
| MFusionCode (fusion : Z)
| MInputType (exts : list string)
| MTargetType (target : string)
| MInputFolder (folder : string)
| MInputCount (n : Z).

Inductive event : Type :=
| EvRayInit
| EvEcho (s : string)
| EvPrint (s : string)
| EvTaskPrint (s : string)
| EvPanel (rows : list meta_row)
| EvIterFiles (folder pattern : string) (exts : list string)
| EvSplit (folder temp : string) (exts : list string) (batch_size : Z)
          (pattern : string) (limit : Z)
| EvMkdir (path : string)
| EvRmtree (path : string)
| EvSubmit (t : task)
| EvWait (tasks : list task) (num_returns : Z) (timeout : bool)
| EvSleep (seconds : Z)
| EvGet (tasks : list task)
| EvCompleted (t : task)
| EvPrintJson (v : value).

(** ** State and the exception monad *)

Record State : Type := MkState {
  out : list event;
  fs : gmap string file;
  bars : list bar;
  tick : nat
}.

Definition M (A : Type) : Type := State → Res A * State.

Global Instance M_ret : MRet M := λ A a st, (Ok a, st).
Global Instance M_bind : MBind M := λ A B f m st,
  match m st with
  | (Ok a, st') => f a st'
  | (Err e, st') => (Err e, st')
  end.

Definition raise {A} (e : exn) : M A := λ st, (Err e, st).

(** [try: m except Exception as e: h e] -- every exception of the model
    derives from [Exception]; effects before the raise are kept. *)
Definition try_except {A} (m : M A) (h : exn → M A) : M A := λ st,
  match m st with
  | (Ok a, st') => (Ok a, st')
  | (Err e, st') => h e st'
  end.

Definition lift_res {A} (r : Res A) : M A := λ st, (r, st).

Definition emit (e : event) : M unit := λ st,
  (Ok tt, MkState (out st ++ [e]) (fs st) (bars st) (tick st)).

Definition get_fs : M (gmap string file) := λ st, (Ok (fs st), st).
Definition set_fs (f : gmap string file) : M unit := λ st,
  (Ok tt, MkState (out st) f (bars st) (tick st)).

Definition when (b : bool) (m : M unit) : M unit :=
  if b then m else mret tt.

(** [for x in xs: body x] threading the loop-carried variables [acc]. *)
Fixpoint for_each {A B} (xs : list A) (acc : B) (body : A → B → M B) : M B :=
  match xs with
  | [] => mret acc
  | x :: xs' => acc' ← body x acc; for_each xs' acc' body
  end.

(** ** Dynamic operations on values *)

(** [v.get(k)] *)
Definition py_get (v : value) (k : string) : Res value :=
  match v with
  | VDict d => Ok (default VNone (dict_get k d))
  | _ => Err (AttributeError "object has no attribute 'get'")
  end.

(** [v.pop(k)] for a key known to be present: the value and the rest. *)
Definition py_pop (v : value) (k : string) : Res (value * value) :=
  match v with
  | VDict d =>
      match dict_get k d with
      | Some x => Ok (x, VDict (dict_pop k d))
      | None => Err (Exception k)
      end
  | _ => Err (AttributeError "object has no attribute 'pop'")
  end.

Definition chars (s : string) : list value :=
  map (λ c, VStr (String c EmptyString)) (list_ascii_of_string s).

(** [for x in v] *)
Definition py_iter (v : value) : Res (list value) :=
  match v with
  | VList l => Ok l
  | VDict d => Ok (map VStr (dict_keys d))
  | VStr s => Ok (chars s)
  | _ => Err (TypeError "object is not iterable")
  end.

(** [v.update({k: x})], giving the updated dict. *)
Definition py_update (v : value) (k : string) (x : value) : Res dict :=
  match v with
  | VDict d => Ok (dict_set k x d)
  | _ => Err (AttributeError "object has no attribute 'update'")
  end.

(** ** Collaborators

    Everything the coordinator calls but does not implement: the file
    system, the helpers of [openbq.utils], the scoring engine, the clock
    and the scheduler of the worker pool. *)

Inductive fault_point : Type :=
| FSeal      (* write_log(log_dir, finish=True) *)
| FReload    (* open(log_dir, "r") / json.load *)
| FRewrite   (* json.dump(log_out, f), the log being open for writing *)
| FSeam.     (* write_csv(output_dir, seam=True) *)

Record datetime : Type := Datetime {
  dt_day : Z; dt_month : Z; dt_year : Z;
  dt_hour : Z; dt_minute : Z; dt_second : Z;
  dt_str : string
}.

Record Env : Type := MkEnv {
  version : string;
  path_exists : string → bool;
  validate_path : string → string;
  extended : list string → list string;
  iter_matching_files : string → string → list string → list string;
  split_input_folder :
    string → string → list string → Z → string → Z → list string;
  scan : scan_call → Res value;
  fix_filepath : value → value;
  reconstruct_filepath : value → string → value;
  generate_report : string → string → string → Res value;
  filter_output :
    string → string → string → string → string → string → Res value;
  today : datetime;
  clock : Z;              (* int(time.time()) when the batches are prepared *)
  elapsed_us : Z;         (* time.time() - job_timer, in microseconds *)
  fmt_rate : Z → Z → string;   (* f"{file_count / job_timer:.2f}" *)
  sched : nat → nat;      (* the pool's choices, one per question asked *)
  fault : fault_point → option string
}.

(** Modelled from the spec: [write_log] and [write_csv] of
    [openbq.utils], the append/seal contract of the two artifacts: [init]
    creates the empty artifact, a plain call appends one entry or row, and
    the seal is the one-time finalization pass. *)
Definition write_log_init (path : string) : M unit :=
  f ← get_fs; set_fs (<[path := LogFile [] false]> f).

Definition log_append (path : string) (entry : dict) (f : gmap string file)
    : gmap string file :=
  match f !! path with
  | Some (LogFile es fin) => <[path := LogFile (es ++ [entry]) fin]> f
  | _ => <[path := LogFile [entry] false]> f
  end.

Definition write_log (path : string) (entry : dict) : M unit :=
  f ← get_fs; set_fs (log_append path entry f).

Definition write_log_finish (E : Env) (path : string) : M unit :=
  match fault E FSeal with
  | Some msg => raise (Exception msg)
  | None =>
      f ← get_fs;
      match f !! path with
      | Some (LogFile es _) => set_fs (<[path := LogFile es true]> f)
      | _ => set_fs (<[path := LogFile [] true]> f)
      end
  end.

Definition write_csv_init (path : string) : M unit :=
  f ← get_fs; set_fs (<[path := CsvFile [] false]> f).

Definition csv_append (path : string) (row : value) (f : gmap string file)
    : gmap string file :=
  match f !! path with
  | Some (CsvFile rs s) => <[path := CsvFile (rs ++ [row]) s]> f
  | _ => <[path := CsvFile [row] false]> f
  end.

Definition write_csv (path : string) (row : value) : M unit :=
  f ← get_fs; set_fs (csv_append path row f).

Definition write_csv_seam (E : Env) (path : string) : M unit :=
  match fault E FSeam with
  | Some msg => raise (Exception msg)
  | None =>
      f ← get_fs;
      match f !! path with
      | Some (CsvFile rs _) => set_fs (<[path := CsvFile rs true]> f)
      | _ => set_fs (<[path := CsvFile [] true]> f)
      end
  end.

(** ** [scan_task] *)

(** [mode == "speech" or (mode == "face" and engine in ("ofiq", "fusion"))] *)
Definition batch_policy (mode engine : string) : bool :=
  String.eqb mode "speech" ||
  (String.eqb mode "face" &&
   (String.eqb engine "ofiq" || String.eqb engine "fusion")).

(** The body of the [for result in result_list] loop. *)
Definition scan_task_record (E : Env) (t : task) (result : value)
    (results : list value) : M (list value) :=
  let result := fix_filepath E result in
  let result := reconstruct_filepath E result (t_prefix t) in
  log ← lift_res (py_get result "log");
  result ←
    (if truthy log then
       '(logs, result') ← lift_res (py_pop result "log");
       write_log (t_log_dir t) [("folder", VStr (t_path t)); ("logs", logs)];;
       mret result'
     else mret result);
  write_csv (t_output_dir t) result;;
  mret (results ++ [result]).

(** The body of the [for log in logs] loop. *)
Definition scan_task_log (t : task) (log : value) (_ : unit) : M unit :=
  log' ← lift_res (py_update log "file" (VStr (t_path t)));
  write_log (t_log_dir t) log'.

Definition scan_task (E : Env) (t : task) : M value :=
  if batch_policy (t_mode t) (t_engine t) then
    r ← try_except
          (result ← lift_res
             (scan E (ScanFolder (t_path t) (t_mode t) (t_engine t) (t_fusion t)));
           result_list ← lift_res (py_get result "results");
           mret (Some result_list))
          (λ e,
           emit (EvTaskPrint (">>>> Scan task error: " +:+ str_exn e));;
           write_log (t_log_dir t)
             [("folder", VStr (t_path t)); ("task error", VStr (str_exn e))];;
           mret None);
    match r with
    | None => mret VNone
    | Some result_list =>
        rs ← lift_res (py_iter result_list);
        results ← for_each rs [] (scan_task_record E t);
        mret (VList results)
    end
  else
    r ← try_except
          (result ← lift_res
             (scan E (ScanFile (t_path t) (t_mode t) (t_convert t)
                        (t_target t) (t_engine t)));
           mret (Some result))
          (λ e,
           emit (EvTaskPrint (">>>> Scan task error: " +:+ str_exn e));;
           write_log (t_log_dir t)
             [("file", VStr (t_path t)); ("task error", VStr (str_exn e))];;
           mret None);
    match r with
    | None => mret VNone
    | Some result =>
        log ← lift_res (py_get result "log");
        result ←
          (if truthy log then
             '(logs, result') ← lift_res (py_pop result "log");
             ls ← lift_res (py_iter logs);
             for_each ls tt (scan_task_log t);;
             mret result'
           else mret result);
        let result := reconstruct_filepath E result (t_prefix t) in
        write_csv (t_output_dir t) result;;
        mret (VList [result])
    end.

(** ** The worker pool

    A task runs to completion at the moment the coordinator first
    observes it complete: its appends to the shared artifacts happen
    then, and its outcome (a value, or the exception that escaped it)
    is what the object reference resolves to.  Which of the pending
    tasks complete first is the pool's choice.  [EvCompleted] is the
    pool's own record of a completion; the coordinator never sees it. *)

Definition complete (E : Env) (t : task) : M (Res value) := λ st,
  let '(r, st') := scan_task E t st in
  (emit (EvCompleted t);; mret r) st'.

Definition next_choice (E : Env) : M nat := λ st,
  (Ok (sched E (tick st)), MkState (out st) (fs st) (bars st) (S (tick st))).

(** The first [k] of [ts] to complete, in completion order, and the
    tasks still pending. *)
Fixpoint take_ready (E : Env) (k : nat) (ts : list task)
    : M (list task * list task) :=
  match k with
  | O => mret ([], ts)
  | S k' =>
      c ← next_choice E;
      let i := (c mod length ts)%nat in
      match ts !! i with
      | None => mret ([], ts)
      | Some t =>
          complete E t;;
          '(ready, rest) ← take_ready E k' (delete i ts);
          mret (t :: ready, rest)
      end
  end.

(** [ray.wait(tasks, num_returns=n)] without a timeout. *)
Definition ray_wait (E : Env) (tasks : list task) (num_returns : Z)
    : M (list task * list task) :=
  emit (EvWait tasks num_returns false);;
  match tasks with
  | [] => mret ([], [])
  | _ =>
      if num_returns <=? 0 then
        raise (ValueError "Invalid number of objects to return")
      else if Z.of_nat (length tasks) <? num_returns then
        raise (ValueError "num_returns cannot be greater than the number of ray_waitables")
      else take_ready E (Z.to_nat num_returns) tasks
  end.

Fixpoint complete_all (E : Env) (ts : list task) : M (list (Res value)) :=
  match ts with
  | [] => mret []
  | t :: ts' => r ← complete E t; rs ← complete_all E ts'; mret (r :: rs)
  end.

Fixpoint resolve (rs : list (Res value)) : Res (list value) :=
  match rs with
  | [] => Ok []
  | Ok v :: rs' =>
      match resolve rs' with Ok vs => Ok (v :: vs) | Err e => Err e end
  | Err e :: _ => Err (RayTaskError e)
  end.

(** [ray.get(tasks)] on tasks not yet observed complete: blocks until
    every one of them is, then raises the first task-level failure. *)
Definition ray_get (E : Env) (tasks : list task) : M (list value) :=
  emit (EvGet tasks);;
  rs ← complete_all E tasks;
  lift_res (resolve rs).

(** One round of the per-batch polling loop,
    [ray.wait(tasks, timeout=0.1); await asyncio.sleep(3)]. *)
Definition poll (tasks : list task) : M unit :=
  emit (EvWait tasks 1 true);; emit (EvSleep 3).

Fixpoint poll_empty (tasks : list task) (n : nat) : M unit :=
  match n with
  | O => mret tt
  | S n' => poll tasks;; poll_empty tasks n'
  end.

(** [not_ready = True; while not_ready: ...] on the single in-flight
    task: the pool decides how many polls come back empty before the
    task is reported ready. *)
Definition poll_until_ready (E : Env) (t : task) : M (Res value) :=
  n ← next_choice E;
  poll_empty [t] n;;
  r ← complete E t;
  poll [t];;
  mret r.

(** [ray.get(ready)[0]] on the task the polling loop saw complete. *)
Definition ray_get_ready (t : task) (r : Res value) : M value :=
  emit (EvGet [t]);;
  match r with
  | Ok v => mret v
  | Err e => raise (RayTaskError e)
  end.

(** ** The progress bar ([rich.progress.Progress] with one task) *)

Definition add_task (total : Z) : M unit := λ st,
  (Ok tt, MkState (out st) (fs st) (Bar total 0 false [0] :: bars st) (tick st)).

(** A task is finished from the first update that leaves
    [completed >= total]. *)
Definition bar_show (c : Z) (b : bar) : bar :=
  Bar (bar_total b) c (bar_finished b || (bar_total b <=? c))
      (bar_shown b ++ [c]).

Definition update_bar (f : bar → bar) : M unit := λ st,
  match bars st with
  | [] => (Ok tt, st)
  | b :: bs => (Ok tt, MkState (out st) (fs st) (f b :: bs) (tick st))
  end.

(** [p.update(task_progress, advance=a)] *)
Definition p_update_advance (a : Z) : M unit :=
  update_bar (λ b, bar_show (bar_completed b + a) b).

(** [p.update(task_progress, completed=c)] *)
Definition p_update_completed (c : Z) : M unit :=
  update_bar (bar_show c).

(** [p.finished] *)
Definition finished_now (st : State) : bool :=
  match bars st with
  | [] => true
  | b :: _ => bar_finished b
  end.

Definition p_finished : M bool := λ st, (Ok (finished_now st), st).

(** ** The assessment job [run] *)

Record Job : Type := MkJob {
  j_mode : string;
  j_input_folder : string;
  j_output_folder : string;
  j_reporting : bool;
  j_limit : Z;
  j_pattern : string;
  j_type : list string;
  j_convert : list string;
  j_target : string;
  j_attributes : string;
  j_query : string;
  j_sort : string;
  j_cwd : string;
  j_prefix : string;
  j_batch : Z;
  j_fusion : Z;
  j_engine : string;
  j_debug : bool
}.

(** [TYPE = type if mode != "speech" else ["wav"]] *)
Definition TYPE (mode : string) (type : list string) : list string :=
  if negb (String.eqb mode "speech") then type else ["wav"].

(** The rows of the job-info panel (without their markup). *)
Definition metadata (j : Job) (input_folder : string) (file_total : Z)
    : list meta_row :=
  [MMode (j_mode j)] ++
  (if String.eqb (j_mode j) "face" then [MEngine (j_engine j)] else []) ++
  (if String.eqb (j_engine j) "fusion" then [MFusionCode (j_fusion j)] else []) ++
  [MInputType (TYPE (j_mode j) (j_type j))] ++
  (if String.eqb (j_mode j) "finger" && truthy_str (j_target j)
   then [MTargetType (j_target j)] else []) ++
  [MInputFolder (j_prefix j +:+ input_folder); MInputCount file_total].

(** [iter_matching_files(input_folder, pattern, extended(TYPE))] *)
Definition matching_files (E : Env) (j : Job) (input_folder : string)
    : M (list string) :=
  let exts := extended E (TYPE (j_mode j) (j_type j)) in
  emit (EvIterFiles input_folder (j_pattern j) exts);;
  mret (iter_matching_files E input_folder (j_pattern j) exts).

(** [if limit: ... if limit < file_total: file_total = limit] *)
Definition clamp_total (limit file_total : Z) : Z :=
  if negb (limit =? 0) && (limit <? file_total) then limit else file_total.

Definition timestamp (d : datetime) : string :=
  pretty (dt_day d) +:+ "-" +:+ pretty (dt_month d) +:+ "-" +:+
  pretty (dt_year d) +:+ "_" +:+ pretty (dt_hour d) +:+ "-" +:+
  pretty (dt_minute d) +:+ "-" +:+ pretty (dt_second d).

Definition artifact (E : Env) (j : Job) (output_folder kind ext : string)
    : string :=
  output_folder +:+ kind +:+ "_" +:+ j_mode j +:+ "_" +:+ j_engine j +:+ "_"
  +:+ timestamp (today E) +:+ ext.

Definition remote (j : Job) (output_dir log_dir path : string) : task :=
  Task path output_dir log_dir (j_mode j) (j_convert j) (j_target j)
       (j_engine j) (j_fusion j) (j_prefix j).

(** *** Per-batch dispatch *)

(** The variables carried around the dispatch loops. *)
Record counters : Type := Counters {
  file_count : Z;
  failed : Z;
  batch : Z
}.

(** [if ray.get(ready)[0]: ... else: failed += batch]: the counters
    after the batch, and the advance shown on the bar if there is one. *)
Definition tally (file_total : Z) (c : counters) (ok : bool)
    : counters * option Z :=
  if ok then
    let file_count1 := file_count c + batch c in
    if file_total <? file_count1 then
      let batch' := file_total - file_count1 + batch c in
      (Counters file_total (failed c) batch', Some batch')
    else
      (Counters file_count1 (failed c) (batch c), Some (batch c))
  else
    (Counters (file_count c) (failed c + batch c) (batch c), None).

(** One turn of [for folder in input_folders]. *)
Definition batch_step (E : Env) (j : Job) (output_dir log_dir : string)
    (file_total : Z) (folder : string) (c : counters) : M counters :=
  let t := remote j output_dir log_dir folder in
  emit (EvSubmit t);;
  r ← poll_until_ready E t;
  v ← ray_get_ready t r;
  let '(c', advance) := tally file_total c (truthy v) in
  match advance with
  | Some a => p_update_advance a
  | None => mret tt
  end;;
  mret c'.

Definition per_batch (E : Env) (j : Job)
    (input_folder output_dir log_dir : string) (file_total : Z) : M counters :=
  let temp_folder := "temp/" +:+ pretty (clock E) in
  let exts := extended E (TYPE (j_mode j) (j_type j)) in
  emit (EvMkdir temp_folder);;
  emit (EvSplit input_folder temp_folder exts (j_batch j) (j_pattern j)
          (j_limit j));;
  let input_folders :=
    split_input_folder E input_folder temp_folder exts (j_batch j)
      (j_pattern j) (j_limit j) in
  add_task file_total;;
  c ← for_each input_folders (Counters 0 0 (j_batch j))
        (batch_step E j output_dir log_dir file_total);
  emit (EvRmtree temp_folder);;
  mret c.

(** *** Per-file dispatch *)

(** [for path in file_globs: ...; if p.finished: break] *)
Fixpoint submit_loop (scan_task_remote : string → task)
    (file_globs : list string) (tasks : list task) (file_count : Z)
    : M (list task * Z) :=
  match file_globs with
  | [] => mret (tasks, file_count)
  | path :: rest =>
      let t := scan_task_remote path in
      emit (EvSubmit t);;
      let tasks := tasks ++ [t] in
      let file_count := file_count + 1 in
      p_update_advance 1;;
      fin ← p_finished;
      if (fin : bool) then mret (tasks, file_count)
      else submit_loop scan_task_remote rest tasks file_count
  end.

(** ETA estimation interval *)
Definition eta_step : Z := 10.

(** [while not p.finished: ...] of the completion tracker.  The loop
    is cut after [fuel] turns; [drain_loop_exit] shows that the bound
    used by [drain] is only reached with [p.finished] true, where the
    loop exits by itself. *)
Fixpoint drain_loop (E : Env) (fuel : nat) (file_total : Z)
    (not_ready : list task) : M (list task) :=
  match fuel with
  | O => mret not_ready
  | S fuel' =>
      fin ← p_finished;
      if (fin : bool) then mret not_ready
      else if Z.of_nat (length not_ready) <? eta_step then
        p_update_completed file_total;;
        drain_loop E fuel' file_total not_ready
      else
        '(ready, not_ready') ← ray_wait E not_ready eta_step;
        p_update_advance (Z.of_nat (length ready));;
        drain_loop E fuel' file_total not_ready'
  end.

Definition drain_fuel (not_ready : list task) : nat := S (length not_ready).

Definition drain (E : Env) (file_total : Z) (tasks : list task) : M unit :=
  '(ready, not_ready) ← ray_wait E tasks 1;
  add_task file_total;;
  not_ready ← drain_loop E (drain_fuel not_ready) file_total not_ready;
  ray_get E not_ready;;
  mret tt.

Definition per_file (E : Env) (j : Job) (output_dir log_dir : string)
    (file_total : Z) (file_globs : list string) : M counters :=
  add_task file_total;;
  '(tasks, file_count) ←
    submit_loop (remote j output_dir log_dir) file_globs [] 0;
  drain E file_total tasks;;
  mret (Counters file_count 0 (j_batch j)).

(** *** Finalization *)

(** [divmod] twice and [int()]: hours, minutes, seconds. *)
Definition hms (us : Z) : Z * Z * Z :=
  let mn := us / 60000000 in
  let sc := (us mod 60000000) / 1000000 in
  (mn / 60, mn mod 60, sc).

Definition process_time (E : Env) : string :=
  let '(hr, mn, sc) := hms (elapsed_us E) in
  pretty hr +:+ "h" +:+ pretty mn +:+ "m" +:+ pretty sc +:+ "s".

(** [len([item for item in logs if item.get("load image")])] *)
Definition load_image_failed (item : dict) : bool :=
  truthy (default VNone (dict_get "load image" item)).

Definition count_failed (logs : list dict) : Z :=
  Z.of_nat (length (List.filter load_image_failed logs)).

(** [with open(log_dir, "r") as f: logs = json.load(f)] *)
Definition json_load (E : Env) (path : string) : M (list dict) :=
  match fault E FReload with
  | Some msg => raise (Exception msg)
  | None =>
      f ← get_fs;
      match f !! path with
      | Some (LogFile es true) => mret es
      | Some _ => raise (JSONDecodeError "Expecting value")
      | None => raise (FileNotFoundError path)
      end
  end.

(** [with open(log_dir, "w") as f: json.dump(log_out, f)]: the file is
    truncated when it is opened, before [json.dump] can raise. *)
Definition json_dump (E : Env) (path : string) (v : value) : M unit :=
  f ← get_fs;
  set_fs (<[path := PartialFile]> f);;
  match fault E FRewrite with
  | Some msg => raise (Exception msg)
  | None => f ← get_fs; set_fs (<[path := JsonFile v]> f)
  end.

Definition log_metadata (E : Env) (j : Job) (input_folder : string)
    (file_count : Z) : dict :=
  let m :=
    [("version", VStr ("OpenBQ v" +:+ version E));
     ("datetime", VStr (dt_str (today E)));
     ("input directory", VStr input_folder);
     ("engine", VStr (j_engine j));
     ("mode", VStr (j_mode j));
     ("processed", VInt file_count);
     ("failed", VInt 0);
     ("log", VNone);
     ("process time", VStr (process_time E))] in
  if String.eqb (j_engine j) "fusion"
  then dict_set "fusion" (VInt (j_fusion j)) m else m.

(** [except Exception as e: click.echo(...)] of the first [try]. *)
Definition reload_failed {A} (a : A) (e : exn) : M A :=
  emit (EvEcho ("failed to reload metadata for log: " +:+ str_exn e));;
  mret a.

(** The first [try] of the finalizer.  The result is the binding of
    the local [failed_count]: [None] when the block was left before the
    assignment, so that the name is unbound afterwards.  The rewrite of
    the file comes after the assignment and is under the same handler. *)
Definition seal_log (E : Env) (j : Job) (input_folder log_dir : string)
    (c : counters) : M (option Z) :=
  r ← try_except
        (write_log_finish E log_dir;;
         let m := log_metadata E j input_folder (file_count c) in
         logs ← json_load E log_dir;
         let m := dict_set "log" (VInt (Z.of_nat (length logs))) m in
         let failed_count :=
           if failed c =? 0 then count_failed logs else failed c in
         let m := dict_set "failed" (VInt failed_count) m in
         mret (Some (failed_count,
                     VDict [("metadata", VDict m);
                            ("log", VList (map VDict logs))])))
        (reload_failed None);
  match r with
  | None => mret None
  | Some (failed_count, log_out) =>
      try_except (json_dump E log_dir log_out) (reload_failed tt);;
      mret (Some failed_count)
  end.

Definition opt_str (o : option string) : value :=
  match o with Some s => VStr s | None => VNone end.

Definition truthy_opt (o : option string) : bool := truthy (opt_str o).

(** [{k1: dir.get(f1), k2: dir.get(f2)} if dir else False] *)
Definition views (dir : value) (k1 f1 k2 f2 : string) : Res value :=
  if truthy dir then
    match py_get dir f1 with
    | Err e => Err e
    | Ok v1 =>
        match py_get dir f2 with
        | Err e => Err e
        | Ok v2 => Ok (VDict [(k1, v1); (k2, v2)])
        end
    end
  else Ok (VBool false).

Definition summary (E : Env) (input_folder log_dir : string) (file_count : Z)
    (output_dir : option string) (report_dir outlier_filter : value) : dict :=
  let s :=
    [("Total process time", VStr (process_time E));
     ("System throughput",
      VStr (fmt_rate E file_count (elapsed_us E) +:+ " it/s"));
     ("Assessment Task",
      VDict [("Processed", VInt file_count);
             ("Input", VStr input_folder);
             ("Output", opt_str output_dir);
             ("Report", report_dir);
             ("Log", VStr log_dir)])] in
  if truthy outlier_filter
  then dict_set "Outlier Filter" outlier_filter s else s.

(** [if file_count == failed_count: output_dir = None; report_dir = None] *)
Definition nulled (c : counters) (failed_count : Z) (output_dir : string)
    : option string :=
  if file_count c =? failed_count then None else Some output_dir.

(** [try: if output_dir: write_csv(output_dir, seam=True) except ...] *)
Definition seam_output (E : Env) (output_dir : option string) : M unit :=
  try_except
    (match output_dir with
     | Some o => when (truthy_str o) (write_csv_seam E o)
     | None => mret tt
     end)
    (λ e, emit (EvEcho ("failed to seam output: " +:+ str_exn e))).

(** The third [try]: the value left in [report_dir]. *)
Definition report_views (E : Env) (j : Job) (output_dir : option string)
    : M value :=
  try_except
    (match output_dir with
     | Some o =>
         if truthy_str o && j_reporting j then
           dir ← lift_res (generate_report E o (j_cwd j) (j_prefix j));
           lift_res (views dir "Preview Table" "table" "EDA Report" "report")
         else mret VNone
     | None => mret VNone
     end)
    (λ e,
     emit (EvEcho ("failed to generate report: " +:+ str_exn e));;
     mret VNone).

(** The fourth [try]: the value left in [outlier_filter]. *)
Definition filter_views (E : Env) (j : Job) (output_dir : option string)
    : M value :=
  try_except
    (match output_dir with
     | Some o =>
         if truthy_str o &&
            (truthy_str (j_attributes j) || truthy_str (j_query j) ||
             truthy_str (j_sort j)) then
           dir ← lift_res (filter_output E o (j_attributes j) (j_query j)
                             (j_sort j) (j_cwd j) (j_prefix j));
           lift_res (views dir "Output" "output" "Report" "report")
         else mret VNone
     | None => mret VNone
     end)
    (λ e,
     emit (EvEcho ("failed to apply filter: " +:+ str_exn e));;
     mret VNone).

(** The summary and the termination signal; the throughput divides by
    the elapsed time. *)
Definition print_summary (E : Env) (s : dict) : M unit :=
  emit (EvPrint "> Summary:");;
  (if elapsed_us E =? 0 then raise ZeroDivisionError else mret tt);;
  emit (EvPrintJson (VDict s));;
  emit (EvPrint ">> Task Finished <<").

Definition finalize (E : Env) (j : Job)
    (input_folder output_dir log_dir : string) (c : counters) : M unit :=
  failed_count ← seal_log E j input_folder log_dir c;
  failed_count ←
    match failed_count with
    | Some n => mret n
    | None => raise (UnboundLocalError "failed_count")
    end;
  let output_dir := nulled c failed_count output_dir in
  seam_output E output_dir;;
  report_dir ← report_views E j output_dir;
  outlier_filter ← filter_views E j output_dir;
  print_summary E
    (summary E input_folder log_dir (file_count c) output_dir report_dir
       outlier_filter).

(** *** The whole job *)

Definition run (E : Env) (j : Job) : M unit :=
  when (negb (j_debug j)) (emit EvRayInit);;
  if negb (path_exists E (j_input_folder j)) then
    emit (EvEcho (">>> Input directory not found (" +:+ j_input_folder j +:+
                  "). Check input path and make sure your `data/` folder mounted. Exit."))
  else
    let input_folder := validate_path E (j_input_folder j) in
    files ← matching_files E j input_folder;
    let file_total := Z.of_nat (length files) in
    emit (EvPanel (metadata j input_folder file_total));;
    when (negb (j_limit j =? 0))
      (emit (EvEcho ("Scan number limit: " +:+ pretty (j_limit j))));;
    let file_total := clamp_total (j_limit j) file_total in
    if file_total =? 0 then
      emit (EvEcho ">>> No valid input found. Exit.")
    else
      let output_folder := validate_path E (j_output_folder j) in
      let output_dir := artifact E j output_folder "output" ".csv" in
      let log_dir := artifact E j output_folder "log" ".json" in
      write_csv_init output_dir;;
      write_log_init log_dir;;
      file_globs ← matching_files E j input_folder;
      c ← (if batch_policy (j_mode j) (j_engine j)
           then per_batch E j input_folder output_dir log_dir file_total
           else per_file E j output_dir log_dir file_total file_globs);
      finalize E j input_folder output_dir log_dir c.

(** ** Vocabulary of the statements *)

(** The call of the scoring engine a work unit stands for, and the key
    its diagnostics are tagged with. *)
Definition scan_args (t : task) : scan_call :=
  if batch_policy (t_mode t) (t_engine t)
  then ScanFolder (t_path t) (t_mode t) (t_engine t) (t_fusion t)
  else ScanFile (t_path t) (t_mode t) (t_convert t) (t_target t) (t_engine t).

Definition unit_tag (t : task) : string :=
  if batch_policy (t_mode t) (t_engine t) then "folder" else "file".

Definition task_error_entry (t : task) (e : exn) : dict :=
  [(unit_tag t, VStr (t_path t)); ("task error", VStr (str_exn e))].



(** The run from [st] to [st'] emitted only events satisfying [Φ]. *)
Definition emitted (Φ : event → Prop) (st st' : State) : Prop :=
  ∃ evs, out st' = out st ++ evs ∧ Forall Φ evs.

(** The number of matching inputs the job counts, and its effective total. *)
Definition input_count (E : Env) (j : Job) : Z :=
  Z.of_nat (length (iter_matching_files E (validate_path E (j_input_folder j))
                      (j_pattern j) (extended E (TYPE (j_mode j) (j_type j))))).

Definition effective_total (E : Env) (j : Job) : Z :=
  clamp_total (j_limit j) (input_count E j).

(** What a job without usable input prints. *)
Definition no_input_trace (E : Env) (j : Job) : list event :=
  (if j_debug j then [] else [EvRayInit]) ++
  [EvIterFiles (validate_path E (j_input_folder j)) (j_pattern j)
     (extended E (TYPE (j_mode j) (j_type j)));
   EvPanel (metadata j (validate_path E (j_input_folder j)) (input_count E j))] ++
  (if j_limit j =? 0 then []
   else [EvEcho ("Scan number limit: " +:+ pretty (j_limit j))]) ++
  [EvEcho ">>> No valid input found. Exit."].

(** The units submitted, and the units the pool completed, in a trace. *)
Fixpoint submitted_tasks (evs : list event) : list task :=
  match evs with
  | [] => []
  | EvSubmit t :: evs' => t :: submitted_tasks evs'
  | _ :: evs' => submitted_tasks evs'
  end.

Fixpoint completed_tasks (evs : list event) : list task :=
  match evs with
  | [] => []
  | EvCompleted t :: evs' => t :: completed_tasks evs'
  | _ :: evs' => completed_tasks evs'
  end.

Definition not_completion (e : event) : Prop :=
  match e with EvCompleted _ => False | _ => True end.

Definition not_submission (e : event) : Prop :=
  match e with EvSubmit _ => False | _ => True end.

(** Steps of the coordinator between two completions: the artifacts
    are untouched and no completion is recorded. *)
Definition silent (st st' : State) : Prop :=
  fs st' = fs st ∧ emitted not_completion st st'.

(** Between [st] and [st'] the pool completed exactly the tasks [done],
    in that order. *)
Inductive ran (E : Env) : list task → State → State → Prop :=
| ran_nil st st' : silent st st' → ran E [] st st'
| ran_cons t done st st1 st' :
    silent st st1 →
    ran E done (complete E t st1).2 st' →
    ran E (t :: done) st st'.

(** *** Displayed progress *)

Fixpoint nondecreasing (l : list Z) : Prop :=
  match l with
  | [] => True
  | x :: l' => Forall (Z.le x) l' ∧ nondecreasing l'
  end.

(** A well-behaved bar: the values it displayed never decrease and
    never exceed its total. *)
Definition bar_ok (b : bar) : Prop :=
  nondecreasing (bar_shown b) ∧ Forall (λ x, x ≤ bar_total b) (bar_shown b).

(** The invariant that gives it: the current value is the largest one
    displayed and is within the total. *)
Definition bar_sound (b : bar) : Prop :=
  nondecreasing (bar_shown b) ∧
  Forall (λ x, x ≤ bar_completed b) (bar_shown b) ∧
  bar_completed b ≤ bar_total b.

Definition same_bars (st st' : State) : Prop := bars st' = bars st.

(** The bar being displayed was created for [total] items. *)
Definition current_total (total : Z) (st : State) : Prop :=
  match bars st with
  | [] => True
  | b :: _ => bar_total b = total
  end.

(** The completion tracker up to the exit of its loop: the priming
    wait, the new bar and the [while]. *)
Definition drain_until_exit (E : Env) (file_total : Z) (tasks : list task)
    : M (list task) :=
  '(ready, not_ready) ← ray_wait E tasks 1;
  add_task file_total;;
  drain_loop E (drain_fuel not_ready) file_total not_ready.

(** ** Sample jobs *)

(** Modelled from the spec: [split_input_folder] of [openbq.utils]
    groups the matching files into batch folders of up to [batch_size]
    files until the file budget (the limit, if set) is exhausted; the
    result is one folder per started batch. *)
Definition batch_folders (temp : string) (available batch_size limit : Z)
    : list string :=
  let budget := clamp_total limit available in
  map (λ i, temp +:+ "/" +:+ pretty (Z.of_nat i))
      (seq 0 (Z.to_nat ((budget + batch_size - 1) / batch_size))).

Definition no_fault : fault_point → option string := λ _, None.

Definition reload_fault : fault_point → option string := λ p,
  match p with
  | FReload => Some "Expecting value: line 1 column 1 (char 0)"
  | _ => None
  end.

Definition sample_env (files : list string) (scan : scan_call → Res value)
    (fault : fault_point → option string) : Env :=
  {| version := "1.5.3";
     path_exists := λ _, true;
     validate_path := λ p, p;
     extended := λ exts, exts;
     iter_matching_files := λ _ _ _, files;
     split_input_folder := λ _ temp _ batch_size _ limit,
       batch_folders temp (Z.of_nat (length files)) batch_size limit;
     scan := scan;
     fix_filepath := λ r, r;
     reconstruct_filepath := λ r _, r;
     generate_report := λ _ _ _,
       Ok (VDict [("table", VStr "table.html"); ("report", VStr "report.html")]);
     filter_output := λ _ _ _ _ _ _,
       Ok (VDict [("output", VStr "filtered.csv"); ("report", VStr "filtered.html")]);
     today := Datetime 3 11 2026 9 30 0 "2026-11-03 09:30:00";
     clock := 1793698200;
     elapsed_us := 2500000;
     fmt_rate := λ n us, pretty (n * 1000000 / us);
     sched := λ _, 0%nat;
     fault := fault |}.

Definition sample_job (mode engine : string) (limit batch : Z) : Job :=
  {| j_mode := mode; j_input_folder := "data/"; j_output_folder := "out/";
     j_reporting := false; j_limit := limit; j_pattern := "*";
     j_type := ["png"; "jpg"]; j_convert := []; j_target := "";
     j_attributes := ""; j_query := ""; j_sort := ""; j_cwd := "";
     j_prefix := ""; j_batch := batch; j_fusion := 6; j_engine := engine;
     j_debug := false |}.

(** Scoring engines: one that scores every input, one that raises on
    every input, one that reports for every file that the image could
    not be loaded. *)
Definition scan_scores : scan_call → Res value := λ c,
  match c with
  | ScanFile path _ _ _ _ =>
      Ok (VDict [("file", VStr path); ("quality", VInt 80)])
  | ScanFolder path _ _ _ =>
      Ok (VDict [("results",
                  VList [VDict [("file", VStr path); ("quality", VInt 80)]])])
  end.

Definition scan_raises : scan_call → Res value := λ _,
  Err (Exception "engine failure").

Definition scan_unloadable : scan_call → Res value := λ c,
  match c with
  | ScanFile path _ _ _ _ =>
      Ok (VDict [("file", VStr path);
                 ("log", VList [VDict [("load image", VStr "failed")]])])
  | ScanFolder path _ _ _ => Ok (VDict [("results", VList [])])
  end.

Definition start : State := MkState [] ∅ [] 0.

Definition sample_task : task :=
  remote (sample_job "iris" "obqe" 0 30) "out/output.csv" "out/log.json"
         "data/a.png".

(** The counters after a sequence of batch outcomes ([true]: the task
    resolved to a truthy result), and the number of failed batches. *)
Definition tally_all (file_total : Z) (outcomes : list bool) (c : counters)
    : counters :=
  fold_left (λ c ok, (tally file_total c ok).1) outcomes c.

Definition failures (outcomes : list bool) : Z :=
  Z.of_nat (length (List.filter negb outcomes)).

(** ** Vocabulary of the finalizer *)

Definition is_warning (e : event) : Prop :=
  match e with EvEcho _ => True | _ => False end.

(** The failure count the finalizer settles on: the log-derived one
    unless the dispatch loop tracked failures itself. *)
Definition recomputed_failed (c : counters) (logs : list dict) : Z :=
  if failed c =? 0 then count_failed logs else failed c.

(** The three lines that end a job. *)
Definition closing (s : dict) : list event :=
  [EvPrint "> Summary:"; EvPrintJson (VDict s); EvPrint ">> Task Finished <<"].

(** [v[k1][k2]] in a printed object. *)
Definition field (k : string) (v : value) : option value :=
  match v with
  | VDict d => dict_get k d
  | _ => None
  end.

(** The paths and names a dispatched job works with. *)
Definition job_input (E : Env) (j : Job) : string :=
  validate_path E (j_input_folder j).

Definition job_files (E : Env) (j : Job) : list string :=
  iter_matching_files E (job_input E j) (j_pattern j)
    (extended E (TYPE (j_mode j) (j_type j))).

Definition job_output_dir (E : Env) (j : Job) : string :=
  artifact E j (validate_path E (j_output_folder j)) "output" ".csv".

Definition job_log_dir (E : Env) (j : Job) : string :=
  artifact E j (validate_path E (j_output_folder j)) "log" ".json".

(** What a dispatched job has printed and created when dispatch starts. *)
Definition dispatch_trace (E : Env) (j : Job) : list event :=
  (if j_debug j then [] else [EvRayInit]) ++
  [EvIterFiles (job_input E j) (j_pattern j)
     (extended E (TYPE (j_mode j) (j_type j)));
   EvPanel (metadata j (job_input E j) (input_count E j))] ++
  (if j_limit j =? 0 then []
   else [EvEcho ("Scan number limit: " +:+ pretty (j_limit j))]) ++
  [EvIterFiles (job_input E j) (j_pattern j)
     (extended E (TYPE (j_mode j) (j_type j)))].

Definition dispatch_state (E : Env) (j : Job) (st : State) : State :=
  MkState (out st ++ dispatch_trace E j)
          (<[job_log_dir E j := LogFile [] false]>
             (<[job_output_dir E j := CsvFile [] false]> (fs st)))
          (bars st) (tick st).

(** Dispatch under the policy of the job, then finalization. *)
Definition dispatch (E : Env) (j : Job) : M counters :=
  if batch_policy (j_mode j) (j_engine j)
  then per_batch E j (job_input E j) (job_output_dir E j) (job_log_dir E j)
         (effective_total E j)
  else per_file E j (job_output_dir E j) (job_log_dir E j)
         (effective_total E j) (job_files E j).

(** The objects printed with [print_json] in a trace. *)
Fixpoint printed (evs : list event) : list value :=
  match evs with
  | [] => []
  | EvPrintJson v :: evs' => v :: printed evs'
  | _ :: evs' => printed evs'
  end.

Definition not_summary (e : event) : Prop :=
  match e with EvPrintJson _ => False | _ => True end.

(** [metadata[k]] of the sealed log at [path]. *)
Definition sealed_metadata (f : gmap string file) (path k : string)
    : option value :=
  match f !! path with
  | Some (JsonFile v) =>
      match field "metadata" v with
      | Some m => field k m
      | None => None
      end
  | _ => None
  end.

(** An engine that cannot load [data/a.png] and scores everything else. *)
Definition scan_mixed : scan_call → Res value := λ c,
  match c with
  | ScanFile path _ _ _ _ =>
      if String.eqb path "data/a.png" then scan_unloadable c else scan_scores c
  | _ => scan_scores c
  end.

Definition sample_log : string := "out/log_iris_obqe_3-11-2026_9-30-0.json".
Definition sample_output : string := "out/output_iris_obqe_3-11-2026_9-30-0.csv".

(** Events that neither submit a unit nor print a summary. *)
Definition quiet (e : event) : Prop := not_submission e ∧ not_summary e.

(** [summary["Assessment Task"]["Processed"]] of a printed object. *)
Definition processed_count (v : value) : option value :=
  match field "Assessment Task" v with
  | Some t => field "Processed" t
  | None => None
  end.

Definition task_field (k : string) (v : value) : option value :=
  match field "Assessment Task" v with
  | Some t => field k t
  | None => None
  end.

(** The log at [path] is still open for appending and holds [n] entries
    with the load-image marker. *)
Definition log_count (path : string) (n : nat) (f : gmap string file) : Prop :=
  ∃ es fin, f !! path = Some (LogFile es fin) ∧ count_failed es = Z.of_nat n.

(** The scoring engine reports, for the file at [path], a record whose
    log is one entry with the load-image marker. *)
Definition unloadable (E : Env) (j : Job) (path : string) : Prop :=
  ∃ d entry,
    scan E (ScanFile path (j_mode j) (j_convert j) (j_target j) (j_engine j))
      = Ok (VDict d) ∧
    dict_get "log" d = Some (VList [VDict entry]) ∧
    load_image_failed entry = true.

(** ** Frame conditions *)

(** [m] takes every state to a state related to it by [R]. *)
Definition preserves (R : State → State → Prop) {A} (m : M A) : Prop :=
  ∀ st, R st (m st).2.

(** Events whose emission is never restricted by the relations used
    in the frame conditions. *)
Definition plain (e : event) : Prop :=
  match e with
  | EvIterFiles _ _ _ | EvSplit _ _ _ _ _ _ | EvSubmit _ | EvCompleted _
  | EvPrintJson _ => False
  | _ => True
  end.

(** ** Vocabulary of the further properties *)

(** What a job prints when its input directory does not exist. *)
Definition missing_input_trace (j : Job) : list event :=
  (if j_debug j then [] else [EvRayInit]) ++
  [EvEcho (">>> Input directory not found (" +:+ j_input_folder j +:+
           "). Check input path and make sure your `data/` folder mounted. Exit.")].

(** The log after the entries [ls] of one file were appended, each
    tagged with the file. *)
Definition log_tagged (log_dir path : string) (ls : list dict)
    (f : gmap string file) : gmap string file :=
  fold_left (λ f e, log_append log_dir (dict_set "file" (VStr path) e) f) ls f.

(** A record of a batch has a truthy sub-log. *)
Definition has_log (r : value) : bool :=
  match r with
  | VDict d => truthy (default VNone (dict_get "log" d))
  | _ => false
  end.

Definition is_dict (v : value) : Prop :=
  match v with VDict _ => True | _ => False end.

(** An engine for batch folders whose records carry a sub-log. *)
Definition scan_batch_logs : scan_call → Res value := λ c,
  match c with
  | ScanFolder path _ _ _ =>
      Ok (VDict [("results",
                  VList [VDict [("file", VStr "a.wav"); ("quality", VInt 70);
                                ("log", VStr "clipped")];
                         VDict [("file", VStr "b.wav"); ("quality", VInt 90)]])])
  | ScanFile path _ _ _ _ =>
      Ok (VDict [("file", VStr path);
                 ("log", VList [VDict [("note", VStr "low contrast")]])])
  end.

Definition sample_batch_task : task :=
  remote (sample_job "speech" "obqe" 0 30) "out/output.csv" "out/log.json"
         "temp/0".

(** A record of a batch as the task handles it: normalised, and
    without its sub-log when it has one. *)
Definition batch_record (E : Env) (t : task) (r : value) : value :=
  reconstruct_filepath E (fix_filepath E r) (t_prefix t).

Definition batch_row (E : Env) (t : task) (r : value) : value :=
  match batch_record E t r with
  | VDict d =>
      if truthy (default VNone (dict_get "log" d))
      then VDict (dict_pop "log" d) else VDict d
  | v => v
  end.

(** The log entries a batch of records leaves: one per record with a
    sub-log, tagged with the folder. *)
Definition batch_logs (E : Env) (t : task) (rs : list value) : list dict :=
  flat_map (λ r,
    match batch_record E t r with
    | VDict d =>
        let log := default VNone (dict_get "log" d) in
        if truthy log then [[("folder", VStr (t_path t)); ("logs", log)]]
        else []
    | _ => []
    end) rs.

(** Engines that answer with something else than the (batch of)
    record(s) the task expects. *)
Definition scan_returns (v : value) : scan_call → Res value := λ _, Ok v.

(** What the dispatch of work units shows of itself: submissions, the
    waits, sleeps and gets on the pool, completions and what the tasks
    print on their worker. *)
Definition pool_event (e : event) : Prop :=
  match e with
  | EvSubmit _ | EvWait _ _ _ | EvSleep _ | EvGet _ | EvCompleted _
  | EvTaskPrint _ => True
  | _ => False
  end.

(** The preparation of the batch folders. *)
Definition batch_setup (E : Env) (j : Job) (input_folder : string)
    : list event :=
  let temp_folder := "temp/" +:+ pretty (clock E) in
  [EvMkdir temp_folder;
   EvSplit input_folder temp_folder (extended E (TYPE (j_mode j) (j_type j)))
     (j_batch j) (j_pattern j) (j_limit j)].

(** The removal of the batch folders, after a dispatch that ended
    normally. *)
Definition batch_cleanup {A} (E : Env) (r : Res A) : list event :=
  match r with
  | Ok _ => [EvRmtree ("temp/" +:+ pretty (clock E))]
  | Err _ => []
  end.

(** A bar that ended at its total. *)
Definition bar_done (total : Z) (b : bar) : Prop :=
  bar_total b = total ∧ bar_completed b = total ∧ bar_finished b = true ∧
  last (bar_shown b) = Some total.

(** A batch folder for which the engine returns at least one record,
    all of them dicts once normalised. *)
Definition batch_scored (E : Env) (j : Job) (output_dir log_dir : string)
    (folder : string) : Prop :=
  ∃ d r rs,
    scan E (ScanFolder folder (j_mode j) (j_engine j) (j_fusion j)) =
      Ok (VDict d) ∧
    dict_get "results" d = Some (VList (r :: rs)) ∧
    Forall (λ x, is_dict (batch_record E (remote j output_dir log_dir folder) x))
      (r :: rs).

(** The metadata block written over a sealed log with entries [es]. *)
Definition sealed_log_metadata (E : Env) (j : Job) (input_folder : string)
    (c : counters) (es : list dict) : dict :=
  dict_set "failed" (VInt (recomputed_failed c es))
    (dict_set "log" (VInt (Z.of_nat (length es)))
       (log_metadata E j input_folder (file_count c))).

(** [{k1: d.get(f1), k2: d.get(f2)}] *)
Definition view2 (d : dict) (k1 f1 k2 f2 : string) : value :=
  VDict [(k1, default VNone (dict_get f1 d)); (k2, default VNone (dict_get f2 d))].

(** One of the filter arguments was given. *)
Definition filter_asked (j : Job) : bool :=
  truthy_str (j_attributes j) || truthy_str (j_query j) || truthy_str (j_sort j).

Definition rewrite_fault (msg : string) : fault_point → option string := λ p,
  match p with FRewrite => Some msg | _ => None end.

Definition seam_fault (msg : string) : fault_point → option string := λ p,
  match p with FSeam => Some msg | _ => None end.

(** A store in which the two artifacts of the sample job exist, the log
    with one load-image entry and the table with one row. *)
Definition sample_store : gmap string file :=
  <["out/log.json" := LogFile [[("file", VStr "data/a.png");
                                ("load image", VStr "failed")]] false]>
    (<["out/output.csv" := CsvFile [VDict [("file", VStr "data/b.png")]] false]> ∅).

Definition sample_state : State := MkState [] sample_store [] 0.

(** A report generator and a filter that answer with the given value. *)
Definition sample_env_views (report filtered : Res value) : Env :=
  {| version := "1.5.3";
     path_exists := λ _, true;
     validate_path := λ p, p;
     extended := λ exts, exts;
     iter_matching_files := λ _ _ _, ["data/a.png"];
     split_input_folder := λ _ _ _ _ _ _, [];
     scan := scan_scores;
     fix_filepath := λ r, r;
     reconstruct_filepath := λ r _, r;
     generate_report := λ _ _ _, report;
     filter_output := λ _ _ _ _ _ _, filtered;
     today := Datetime 3 11 2026 9 30 0 "2026-11-03 09:30:00";
     clock := 0; elapsed_us := 2500000; fmt_rate := λ _ _, "0.80";
     sched := λ _, 0%nat; fault := no_fault |}.

Definition sample_job_views (reporting : bool) (query : string) : Job :=
  {| j_mode := "iris"; j_input_folder := "data/"; j_output_folder := "out/";
     j_reporting := reporting; j_limit := 0; j_pattern := "*";
     j_type := ["png"; "jpg"]; j_convert := []; j_target := "";
     j_attributes := ""; j_query := query; j_sort := ""; j_cwd := "";
     j_prefix := ""; j_batch := 30; j_fusion := 6; j_engine := "obqe";
     j_debug := false |}.

(** ** The stand-alone jobs [report] and [filter]

    They are named after the way [__main__] imports them
    ([report_job], [filter_job]). *)

(** [{"Table": dir.get("table"), "Output": dir.get("output"),
      "Report": dir.get("report")} if dir else False] *)
Definition filter_view (dir : value) : Res value :=
  if truthy dir then
    match py_get dir "table" with
    | Err e => Err e
    | Ok v1 =>
        match py_get dir "output" with
        | Err e => Err e
        | Ok v2 =>
            match py_get dir "report" with
            | Err e => Err e
            | Ok v3 => Ok (VDict [("Table", v1); ("Output", v2); ("Report", v3)])
            end
        end
    end
  else Ok (VBool false).

(** [if x: print("\n> Summary:"); print_json({key: x})] and the
    termination line. *)
Definition print_views (key : string) (x : value) : M unit :=
  when (truthy x)
    (emit (EvPrint "> Summary:");;
     emit (EvPrintJson (VDict [(key, x)])));;
  emit (EvPrint ">> Task Finished <<").

Definition report_job (E : Env) (input cwd prefix : string) : M value :=
  '(dir, report) ←
    try_except
      (dir ← lift_res (generate_report E input cwd prefix);
       report ← lift_res (views dir "Preview Table" "table" "EDA Report" "report");
       mret (dir, report))
      (λ e,
       emit (EvEcho ("failed to generate report: " +:+ str_exn e));;
       mret (VDict [], VBool false));
  print_views "EDA Report" report;;
  mret dir.

Definition filter_job (E : Env) (output attributes query sort cwd prefix : string)
    : M value :=
  '(dir, outlier_filter) ←
    try_except
      (dir ← lift_res (filter_output E output attributes query sort cwd prefix);
       outlier_filter ← lift_res (filter_view dir);
       mret (dir, outlier_filter))
      (λ e,
       emit (EvEcho ("failed to apply filter: " +:+ str_exn e));;
       mret (VDict [], VBool false));
  print_views "Output Filter" outlier_filter;;
  mret dir.

(** What a stand-alone job prints, for the answer [r] of its
    collaborator, a warning prefix [failed] and the summary block
    [block] of a non-empty dict. *)
Definition standalone_trace (failed key : string) (block : dict → value)
    (r : Res value) : list event :=
  match r with
  | Ok (VDict (kv :: d)) =>
      [EvPrint "> Summary:"; EvPrintJson (VDict [(key, block (kv :: d))]);
       EvPrint ">> Task Finished <<"]
  | Ok dir =>
      if truthy dir
      then [EvEcho (failed +:+ str_exn (AttributeError "object has no attribute 'get'"));
            EvPrint ">> Task Finished <<"]
      else [EvPrint ">> Task Finished <<"]
  | Err e => [EvEcho (failed +:+ str_exn e); EvPrint ">> Task Finished <<"]
  end.

(** What it returns: the collaborator's answer, or the empty dict after
    a failure. *)
Definition standalone_result (r : Res value) : value :=
  match r with
  | Ok (VDict (kv :: d)) => VDict (kv :: d)
  | Ok dir => if truthy dir then VDict [] else dir
  | Err e => VDict []
  end.

Definition view3 (d : dict) : value :=
  VDict [("Table", default VNone (dict_get "table" d));
         ("Output", default VNone (dict_get "output" d));
         ("Report", default VNone (dict_get "report" d))].

(** * The command line [main] of [openbq/__main__.py]

    [main] validates its options, prepares the arguments of the job the
    mode selects and calls it.  The module-level list [INPUT_TYPE] is
    part of the state of the process: [main] binds [input_type] to that
    very list and removes ["wsq"] from it in place. *)

Abbreviation Q := QArith_base.Q.

(** A Python float, as far as [main] looks at it. *)
Inductive pyfloat : Type :=
| FNum (q : Q)
| FInf (negative : bool)
| FNan.

(** The values of the preprocessing configuration. *)
Inductive cfg_value : Type :=
| CTypes (l : list string)
| CStr (s : string)
| CFloat (q : Q)
| CInt (z : Z)
| CTrue.

Definition configs : Type := list (string * cfg_value).

(** [configs[k] = v] *)
Fixpoint cfg_set (k : string) (v : cfg_value) (c : configs) : configs :=
  match c with
  | [] => [(k, v)]
  | (k', v') :: c' =>
      if String.eqb k k' then (k, v) :: c' else (k', v') :: cfg_set k v c'
  end.

Fixpoint cfg_get (k : string) (c : configs) : option cfg_value :=
  match c with
  | [] => None
  | (k', v) :: c' => if String.eqb k k' then Some v else cfg_get k c'
  end.

(** The options of the command, after [click] has parsed them. *)
Record Options : Type := MkOptions {
  o_input : string;
  o_output : string;
  o_report : bool;
  o_benchmark : bool;
  o_mode : string;
  o_limit : Z;
  o_filename : string;
  o_type : string;
  o_convert : string;
  o_target : string;
  o_columns : string;
  o_query : string;
  o_sort : string;
  o_cwd : string;
  o_prefix : string;
  o_batch : Z;
  o_fusion : Z;
  o_engine : string;
  o_config : string;
  o_debug : bool
}.

(** What [main] uses of the Python runtime and of the package, and the
    two jobs of [openbq.app] that are not embedded here. *)
Record Runtime : Type := MkRuntime {
  app_name : string;
  build : string;
  casefold : string → string;
  as_posix : string → string;
  timestamped : string → string;
  repr_list : list string → string;
  parse_float : string → option pyfloat;
  benchmark_job : string → Z → string → Z → Z → M unit;
  preprocess_job : string → string → bool → configs → M unit
}.

(** ** Strings and lists *)

(** [s.split(sep)] for a one-character separator. *)
Fixpoint split_on (sep : ascii) (s : string) : list string :=
  match s with
  | EmptyString => [EmptyString]
  | String c s' =>
      if Ascii.eqb c sep then EmptyString :: split_on sep s'
      else
        match split_on sep s' with
        | h :: t => String c h :: t
        | [] => [String c EmptyString]
        end
  end.

Definition comma : ascii := ascii_of_nat 44.

(** [needle in hay] on strings. *)
Fixpoint contains (needle hay : string) : bool :=
  String.prefix needle hay ||
  match hay with
  | EmptyString => false
  | String _ hay' => contains needle hay'
  end.

(** [x in l] *)
Definition mem (x : string) (l : list string) : bool :=
  existsb (String.eqb x) l.

(** [l.remove(x)]: without the first [x], or [None] when there is none. *)
Fixpoint list_remove (x : string) (l : list string) : option (list string) :=
  match l with
  | [] => None
  | y :: l' =>
      if String.eqb x y then Some l'
      else option_map (cons y) (list_remove x l')
  end.

Definition dquote : string := String (ascii_of_nat 34) EmptyString.

(** ** The state of the process *)

Record Proc : Type := MkProc {
  world : State;
  INPUT_TYPE : list string
}.

Definition CLI (A : Type) : Type := Proc → Res A * Proc.

Global Instance CLI_ret : MRet CLI := λ A a p, (Ok a, p).
Global Instance CLI_bind : MBind CLI := λ A B f m p,
  match m p with
  | (Ok a, p') => f a p'
  | (Err e, p') => (Err e, p')
  end.

(** A job of [openbq.app], run in the process. *)
Definition call {A} (m : M A) : CLI A := λ p,
  let '(r, st) := m (world p) in (r, MkProc st (INPUT_TYPE p)).

Definition echo (s : string) : CLI unit := call (emit (EvEcho s)).

(** [INPUT_TYPE.remove(x)] *)
Definition remove_input_type (x : string) : CLI unit := λ p,
  match list_remove x (INPUT_TYPE p) with
  | Some l => (Ok tt, MkProc (world p) l)
  | None => (Err (ValueError "list.remove(x): x not in list"), p)
  end.

Definition get_input_type : CLI (list string) := λ p, (Ok (INPUT_TYPE p), p).

(** The module-level constants, as a fresh process has them. *)
Definition INPUT_TYPE_0 : list string :=
  ["wsq"; "jpg"; "jpeg"; "png"; "bmp"; "jp2"].

Definition PROC_TYPE : list string :=
  ["wsq"; "jpg"; "jpeg"; "png"; "bmp"; "jp2"; "gif"; "tiff"; "tif"; "ppm";
   "pgm"; "pbm"; "pnm"; "webp"; "avif"].

Definition ENGINES : list string := ["obqe"; "ofiq"; "biqt"; "fusion"].

Definition FUSION_CODES : list Z := [7; 6; 5; 3].

Definition MODES : list string :=
  [""; "face"; "finger"; "fingerprint"; "iris"; "speech"; "filter"; "report";
   "preprocess"].

(** ** The preprocessing configuration *)

(** [float(item)] *)
Definition py_float (K : Runtime) (item : string) : Res pyfloat :=
  match parse_float K item with
  | Some x => Ok x
  | None => Err (ValueError "could not convert string to float")
  end.

(** [int(num)]: truncation towards zero; the failure for an infinity is
    an [OverflowError], which is not a [ValueError]. *)
Definition py_int (x : pyfloat) : Res Z :=
  match x with
  | FNum q => Ok (Z.quot (QArith_base.Qnum q) (Zpos (QArith_base.Qden q)))
  | FInf _ => Err (Exception "cannot convert float infinity to integer")
  | FNan => Err (ValueError "cannot convert float NaN to integer")
  end.

(** [0 < num <= 10] *)
Definition is_fraction (x : pyfloat) : bool :=
  match x with
  | FNum q =>
      negb (QArith_base.Qle_bool q (QArith_base.Qmake 0 1)) &&
      QArith_base.Qle_bool q (QArith_base.Qmake 10 1)
  | FInf _ | FNan => false
  end.

(** [try: ... except ValueError: pass] around the number of one item. *)
Definition config_number (K : Runtime) (item : string) (c : configs)
    : Res configs :=
  let r :=
    match py_float K item with
    | Err e => Err e
    | Ok num =>
        if is_fraction num then
          match num with
          | FNum q => Ok (cfg_set "frac" (CFloat q) c)
          | _ => Ok c
          end
        else
          match py_int num with
          | Err e => Err e
          | Ok w => Ok (cfg_set "width" (CInt w) c)
          end
    end in
  match r with
  | Err (ValueError _) => Ok c
  | _ => r
  end.

(** The body of [for item in config]. *)
Definition config_item (K : Runtime) (item : string) (c : configs)
    : Res configs :=
  let c := if mem item PROC_TYPE then cfg_set "target" (CStr item) c else c in
  config_number K item c.

Fixpoint config_items (K : Runtime) (config : list string) (c : configs)
    : Res configs :=
  match config with
  | [] => Ok c
  | item :: rest =>
      match config_item K item c with
      | Ok c' => config_items K rest c'
      | Err e => Err e
      end
  end.

Definition config_colour (config : list string) (c : configs) : configs :=
  if mem "grayscale" config || mem "greyscale" config
  then cfg_set "grayscale" CTrue c
  else if mem "rgb" config then cfg_set "rgb" CTrue c
  else if mem "rgba" config then cfg_set "rgba" CTrue c
  else c.

(** The [try] block of the preprocess mode: the configuration, or the
    message of the early exit. *)
Definition parse_config (K : Runtime) (config : string) : string + configs :=
  let config := map (casefold K) (split_on comma config) in
  match config_items K config [("source", CTypes PROC_TYPE)] with
  | Err e =>
      inl (">>> Failed to parse configuration '" +:+ repr_list K config +:+
           "': " +:+ str_exn e +:+ ". Exit.")
  | Ok c =>
      let c := config_colour config c in
      if (length c =? 0)%nat then
        inl (">>> Failed to parse configuration '" +:+ repr_list K config +:+
             "': no params found. Exit.")
      else inr c
  end.

(** ** [main] *)

Definition banner (E : Env) (K : Runtime) : M unit :=
  emit (EvPrint "");;
  emit (EvPrint (app_name K));;
  emit (EvPrint ("Version: " +:+ version E +:+ ", Build: " +:+ build K));;
  emit (EvPrint "").

(** [query and columns and not len([col for col in columns.split(",")
    if col in query])] *)
Definition query_mismatch (o : Options) : bool :=
  truthy_str (o_query o) && truthy_str (o_columns o) &&
  negb (existsb (λ col, contains col (o_query o))
          (split_on comma (o_columns o))).

(** The arguments of the assessment job. *)
Definition assessment (o : Options) (mode output cwd engine : string)
    (input_type convert_type : list string) : Job :=
  {| j_mode := mode; j_input_folder := o_input o; j_output_folder := output;
     j_reporting := o_report o; j_limit := o_limit o;
     j_pattern := o_filename o; j_type := input_type;
     j_convert := convert_type; j_target := o_target o;
     j_attributes := o_columns o; j_query := o_query o; j_sort := o_sort o;
     j_cwd := cwd; j_prefix := o_prefix o; j_batch := o_batch o;
     j_fusion := o_fusion o; j_engine := engine; j_debug := o_debug o |}.

Definition main (E : Env) (K : Runtime) (o : Options) : CLI unit :=
  call (banner E K);;
  if query_mismatch o then
    echo (">>> Query (" +:+ dquote +:+ o_query o +:+ dquote +:+
          ") invalid for selected columns (" +:+
          repr_list K (split_on comma (o_columns o)) +:+ "). Exit.")
  else
    let cwd := as_posix K (o_cwd o) in
    let engine := casefold K (o_engine o) in
    if negb (mem engine ENGINES) then
      echo (">>> Engine [" +:+ engine +:+ "] not recognised. Exit.")
    else if negb (existsb (Z.eqb (o_fusion o)) FUSION_CODES) then
      echo (">>> Engine fusion code [" +:+ pretty (o_fusion o) +:+
            "] not recognised (e.g. 7, 6, 5, 3). Exit.")
    else
      let mode := casefold K (o_mode o) in
      if negb (mem mode MODES) then
        echo (">>> Mode [" +:+ mode +:+ "] not supported. Exit.")
      else
        let mode := if String.eqb mode "fingerprint" then "finger" else mode in
        input_type ←
          (if truthy_str (o_type o) then mret (split_on comma (o_type o))
           else
             (if negb (String.eqb mode "finger")
              then remove_input_type "wsq" else mret tt);;
             get_input_type);
        let convert_type :=
          if truthy_str (o_convert o) then split_on comma (o_convert o)
          else [] in
        if String.eqb mode "filter" then
          call (filter_job E (o_input o) (o_columns o) (o_query o) (o_sort o)
                  cwd (o_prefix o));;
          mret tt
        else if String.eqb mode "report" then
          call (report_job E (o_input o) cwd (o_prefix o));;
          mret tt
        else if String.eqb mode "preprocess" then
          match parse_config K (o_config o) with
          | inl msg => echo msg
          | inr c =>
              call (preprocess_job K (o_input o) (o_output o) (o_debug o) c)
          end
        else
          let output :=
            if truthy_str (o_output o) then o_output o
            else timestamped K (o_input o) in
          if o_benchmark o then
            call (benchmark_job K (if truthy_str mode then mode else "face")
                    (o_limit o) engine (o_fusion o) (o_batch o))
          else if truthy_str mode then
            call (run E (assessment o mode output cwd engine input_type
                           convert_type))
          else mret tt.

(** ** Vocabulary of the properties of [main] *)

Definition banner_trace (E : Env) (K : Runtime) : list event :=
  [EvPrint ""; EvPrint (app_name K);
   EvPrint ("Version: " +:+ version E +:+ ", Build: " +:+ build K);
   EvPrint ""].

(** The process after [evs] have been printed. *)
Definition printing (evs : list event) (p : Proc) : Proc :=
  MkProc (MkState (out (world p) ++ evs) (fs (world p)) (bars (world p))
            (tick (world p)))
         (INPUT_TYPE p).

(** The options pass the four checks of [main]. *)
Definition accepted (K : Runtime) (o : Options) : bool :=
  negb (query_mismatch o) &&
  mem (casefold K (o_engine o)) ENGINES &&
  existsb (Z.eqb (o_fusion o)) FUSION_CODES &&
  mem (casefold K (o_mode o)) MODES.

(** The mode a job is selected by. *)
Definition selected_mode (K : Runtime) (o : Options) : string :=
  if String.eqb (casefold K (o_mode o)) "fingerprint" then "finger"
  else casefold K (o_mode o).

Definition with_mode (mode : string) (o : Options) : Options :=
  {| o_input := o_input o; o_output := o_output o; o_report := o_report o;
     o_benchmark := o_benchmark o; o_mode := mode; o_limit := o_limit o;
     o_filename := o_filename o; o_type := o_type o; o_convert := o_convert o;
     o_target := o_target o; o_columns := o_columns o; o_query := o_query o;
     o_sort := o_sort o; o_cwd := o_cwd o; o_prefix := o_prefix o;
     o_batch := o_batch o; o_fusion := o_fusion o; o_engine := o_engine o;
     o_config := o_config o; o_debug := o_debug o |}.

(** The job [main] starts for an assessment mode, given the list bound
    to [input_type]. *)
Definition assessment_of (K : Runtime) (o : Options) (input_type : list string)
    : Job :=
  assessment o (selected_mode K o)
    (if truthy_str (o_output o) then o_output o else timestamped K (o_input o))
    (as_posix K (o_cwd o)) (casefold K (o_engine o)) input_type
    (if truthy_str (o_convert o) then split_on comma (o_convert o) else []).

(** A runtime for ASCII lower-case options. *)
Definition sample_runtime : Runtime :=
  {| app_name := "openbq"; build := "2026";
     casefold := λ s, s; as_posix := λ s, s;
     timestamped := λ s, s +:+ "/1793698200";
     repr_list := λ l, String.concat ", " l;
     parse_float := λ s,
       if String.eqb s "0.5" then Some (FNum (QArith_base.Qmake 1 2))
       else if String.eqb s "512" then Some (FNum (QArith_base.Qmake 512 1))
       else if String.eqb s "inf" then Some (FInf false)
       else None;
     benchmark_job := λ _ _ _ _ _, mret tt;
     preprocess_job := λ _ _ _ _, mret tt |}.

Definition sample_options (mode engine type : string) : Options :=
  {| o_input := "data/"; o_output := "out/"; o_report := false;
     o_benchmark := false; o_mode := mode; o_limit := 0; o_filename := "*";
     o_type := type; o_convert := ""; o_target := ""; o_columns := "";
     o_query := ""; o_sort := ""; o_cwd := ""; o_prefix := ""; o_batch := 30;
     o_fusion := 6; o_engine := engine; o_config := ""; o_debug := false |}.

Definition fresh : Proc := MkProc start INPUT_TYPE_0.

(** A computation of the command line that leaves the module-level
    type list alone. *)
Definition keeps_input_type {A} (m : CLI A) : Prop :=
  ∀ p, INPUT_TYPE (m p).2 = INPUT_TYPE p.

(** What one item of the configuration contributes to each key. *)
Definition truncated (q : Q) : Z :=
  Z.quot (QArith_base.Qnum q) (Zpos (QArith_base.Qden q)).

Definition item_target (item : string) : option cfg_value :=
  if mem item PROC_TYPE then Some (CStr item) else None.

Definition item_frac (K : Runtime) (item : string) : option cfg_value :=
  match parse_float K item with
  | Some (FNum q) => if is_fraction (FNum q) then Some (CFloat q) else None
  | _ => None
  end.

Definition item_width (K : Runtime) (item : string) : option cfg_value :=
  match parse_float K item with
  | Some (FNum q) =>
      if is_fraction (FNum q) then None else Some (CInt (truncated q))
  | _ => None
  end.

(** The contribution of the last item that has one. *)
Definition last_some {A} (f : string → option A) (items : list string)
    (before : option A) : option A :=
  fold_left (λ acc item, match f item with Some x => Some x | None => acc end)
    items before.

Definition is_infinite (K : Runtime) (item : string) : Prop :=
  ∃ negative, parse_float K item = Some (FInf negative).

(** ** Vocabulary of the complete table *)

(** The scoring engine returns, for the file at [path], a record
    without a (truthy) log. *)
Definition scored (E : Env) (j : Job) (path : string) : Prop :=
  ∃ d,
    scan E (ScanFile path (j_mode j) (j_convert j) (j_target j) (j_engine j))
      = Ok (VDict d) ∧
    truthy (default VNone (dict_get "log" d)) = false.

(** The row such a file gets in the table. *)
Definition file_row (E : Env) (j : Job) (path : string) : value :=
  match scan E (ScanFile path (j_mode j) (j_convert j) (j_target j)
                  (j_engine j)) with
  | Ok v => reconstruct_filepath E v (j_prefix j)
  | Err _ => VNone
  end.

(** The files a per-file job submits. *)
Definition submitted_files (E : Env) (j : Job) : list string :=
  take (Nat.min (length (job_files E j)) (Z.to_nat (effective_total E j)))
       (job_files E j).

(** The scoring call raises for the file at [path]. *)
Definition raising (E : Env) (j : Job) (path : string) : Prop :=
  ∃ e,
    scan E (ScanFile path (j_mode j) (j_convert j) (j_target j) (j_engine j))
      = Err e.

(** The log is open with [n] entries, none of them with the load-image
    marker, and the table is still empty. *)
Definition errors_logged (output_dir log_dir : string) (n : nat)
    (f : gmap string file) : Prop :=
  f !! output_dir = Some (CsvFile [] false) ∧
  ∃ es, f !! log_dir = Some (LogFile es false) ∧ length es = n ∧
        count_failed es = 0.

(** ** Vocabulary of the dispatch loops *)

(** The task of the batch folder [folder] resolves, whenever the pool
    runs it, to a result whose truth value is [ok]. *)
Definition batch_outcome (E : Env) (j : Job) (output_dir log_dir : string)
    (folder : string) (ok : bool) : Prop :=
  ∀ st, ∃ v st',
    scan_task E (remote j output_dir log_dir folder) st = (Ok v, st') ∧
    truthy v = ok.

(** What the workers show of themselves: what a task prints and the
    pool's record of its completion. *)
Definition worker_event (e : event) : Prop :=
  match e with
  | EvTaskPrint _ | EvCompleted _ => True
  | _ => False
  end.

(** The batch folders of a job. *)
Definition job_folders (E : Env) (j : Job) : list string :=
  split_input_folder E (job_input E j) ("temp/" +:+ pretty (clock E))
    (extended E (TYPE (j_mode j) (j_type j))) (j_batch j) (j_pattern j)
    (j_limit j).

(** The values a bar displays while [n] batches of [batch] files succeed
    one after the other: [0], then the running count, stopped at the
    total. *)
Definition batch_progress (file_total batch : Z) (n : nat) : list Z :=
  map (λ k, Z.min file_total (Z.of_nat k * batch)) (seq 0 (S n)).

(** An engine that raises on the inputs listed in [bad] and scores the
    others. *)
Definition scan_failing (bad : list string) : scan_call → Res value := λ c,
  match c with
  | ScanFile path _ _ _ _ | ScanFolder path _ _ _ =>
      if mem path bad then scan_raises c else scan_scores c
  end.

(** [n] units of the sample job. *)
Definition sample_tasks (n : nat) : list task :=
  map (λ i, remote (sample_job "iris" "obqe" 0 30) "out/output.csv"
              "out/log.json" ("data/" +:+ pretty (Z.of_nat i) +:+ ".png"))
      (seq 0 n).

(** * Properties *)

(** ** The monad *)

Lemma bind_eq {A B} (m : M A) (k : A → M B) (st : State) :
  (m ≫= k) st =
  match m st with
  | (Ok a, st') => k a st'
  | (Err e, st') => (Err e, st')
  end.
Proof. reflexivity. Qed.

Lemma pair_fst_eq {A B} (p : A * B) (a : A) : p.1 = a → p = (a, p.2).
Proof. destruct p. simpl. congruence. Qed.

Lemma bind_ok {A B} (m : M A) (k : A → M B) st a st' :
  m st = (Ok a, st') → (m ≫= k) st = k a st'.
Proof. intros H. rewrite bind_eq, H. reflexivity. Qed.

Lemma bind_err {A B} (m : M A) (k : A → M B) st e st' :
  m st = (Err e, st') → (m ≫= k) st = (Err e, st').
Proof. intros H. rewrite bind_eq, H. reflexivity. Qed.

(** ** The artifacts *)

Lemma log_entries_append f path entry :
  log_entries (log_append path entry f) path = log_entries f path ++ [entry].
Proof.
  unfold log_entries, log_append.
  destruct (f !! path) as [[rs s|es fin|v|]|] eqn:Hf;
    rewrite lookup_insert_eq; reflexivity.
Qed.

Lemma log_append_other f path entry q :
  q ≠ path → log_append path entry f !! q = f !! q.
Proof.
  intros Hne. unfold log_append.
  destruct (f !! path) as [[rs s|es fin|v|]|];
    rewrite lookup_insert_ne by congruence; reflexivity.
Qed.

Lemma csv_rows_log_append f path entry q :
  q ≠ path → csv_rows (log_append path entry f) q = csv_rows f q.
Proof. intros Hne. unfold csv_rows. rewrite log_append_other; done. Qed.

(** ** C1: a task error is caught at the task boundary *)

(** C1.  When the scoring call of a work unit raises [e], [scan_task]
    returns normally (with [None]); it prints its diagnostic on the
    worker, and the artifact store changes by exactly one append to the
    log: one new entry, tagged with the unit's file path or batch folder
    and carrying the error text; the output table gets no row; and the
    pool resolves the unit to a value, so that [ray.get] on it does not
    raise. *)
Theorem scan_task_error_is_caught (E : Env) (t : task) (e : exn) (st : State) :
  scan E (scan_args t) = Err e →
  ∃ st',
    scan_task E t st = (Ok VNone, st') ∧
    out st' = out st ++ [EvTaskPrint (">>>> Scan task error: " +:+ str_exn e)] ∧
    fs st' = log_append (t_log_dir t) (task_error_entry t e) (fs st) ∧
    log_entries (fs st') (t_log_dir t) =
      log_entries (fs st) (t_log_dir t) ++ [task_error_entry t e] ∧
    (t_output_dir t ≠ t_log_dir t →
     csv_rows (fs st') (t_output_dir t) = csv_rows (fs st) (t_output_dir t)) ∧
    bars st' = bars st ∧
    (ray_get E [t] st).1 = Ok [VNone].
Proof.
  intros Hscan.
  unfold scan_args, task_error_entry, unit_tag in *.
  assert (Hst : ∀ st, scan_task E t st =
    (Ok VNone,
     MkState (out st ++ [EvTaskPrint (">>>> Scan task error: " +:+ str_exn e)])
       (log_append (t_log_dir t)
          [(if batch_policy (t_mode t) (t_engine t) then "folder" else "file",
            VStr (t_path t)); ("task error", VStr (str_exn e))] (fs st))
       (bars st) (tick st))).
  { intros s. unfold scan_task.
    destruct (batch_policy (t_mode t) (t_engine t));
      unfold try_except; rewrite bind_eq;
      rewrite (bind_err _ _ _ _ _ (f_equal (λ r, (r, s)) Hscan));
      reflexivity. }
  eexists. split; [apply Hst|].
  split_and!; try reflexivity.
  - apply log_entries_append.
  - intros Hne. apply csv_rows_log_append; done.
  - unfold ray_get. rewrite bind_eq. unfold emit.
    cbn [complete_all]. rewrite !bind_eq. unfold complete.
    rewrite Hst. reflexivity.
Qed.

(** ** Frame conditions

    A relation [R] between the state before and after a computation
    that every primitive step in a given list respects is respected by
    any computation built from those steps.  The sections prove this once
    for the task, the pool and the coordinator; the instances below pick
    [R] (the bars are untouched, no unit is submitted, every discovery
    call carries the same extensions). *)

Section Preserves.
Variable R : State → State → Prop.
Hypothesis R_refl : ∀ st, R st st.
Hypothesis R_trans : ∀ a b c, R a b → R b c → R a c.

Lemma preserves_ret {A} (a : A) : preserves R (mret a).
Proof. intros st. apply R_refl. Qed.

Lemma preserves_raise {A} (e : exn) : preserves R (raise e : M A).
Proof. intros st. apply R_refl. Qed.

Lemma preserves_lift_res {A} (r : Res A) : preserves R (lift_res r).
Proof. intros st. apply R_refl. Qed.

Lemma preserves_get_fs : preserves R get_fs.
Proof. intros st. apply R_refl. Qed.

Lemma preserves_p_finished : preserves R p_finished.
Proof. intros st. apply R_refl. Qed.

Lemma preserves_bind {A B} (m : M A) (k : A → M B) :
  preserves R m → (∀ a, preserves R (k a)) → preserves R (m ≫= k).
Proof.
  intros Hm Hk st. rewrite bind_eq.
  specialize (Hm st). destruct (m st) as [[a|e] st1]; simpl in *.
  - eapply R_trans; [exact Hm | apply Hk].
  - exact Hm.
Qed.

Lemma preserves_try_except {A} (m : M A) (h : exn → M A) :
  preserves R m → (∀ e, preserves R (h e)) → preserves R (try_except m h).
Proof.
  intros Hm Hh st. unfold try_except.
  specialize (Hm st). destruct (m st) as [[a|e] st1]; simpl in *.
  - exact Hm.
  - eapply R_trans; [exact Hm | apply Hh].
Qed.

Lemma preserves_when (b : bool) (m : M unit) :
  preserves R m → preserves R (when b m).
Proof. intros Hm. destruct b; [exact Hm | apply preserves_ret]. Qed.

Lemma preserves_for_each {A B} (xs : list A) (acc : B) (body : A → B → M B) :
  (∀ x b, preserves R (body x b)) → preserves R (for_each xs acc body).
Proof.
  intros Hb. revert acc.
  induction xs as [|x xs IH]; intros acc; simpl.
  - apply preserves_ret.
  - apply preserves_bind; [apply Hb | intros; apply IH].
Qed.
End Preserves.

(** One step of a structural proof of [preserves]. *)
Ltac preserves_step :=
  match goal with
  | |- preserves _ (mret _) => apply preserves_ret
  | |- preserves _ (raise _) => apply preserves_raise
  | |- preserves _ (lift_res _) => apply preserves_lift_res
  | |- preserves _ get_fs => apply preserves_get_fs
  | |- preserves _ p_finished => apply preserves_p_finished
  | |- preserves _ (when _ _) => apply preserves_when
  | |- preserves _ (try_except _ _) => apply preserves_try_except
  | |- preserves _ (for_each _ _ _) => apply preserves_for_each
  | |- preserves _ (_ ≫= _) => apply preserves_bind
  | |- preserves _ (match ?x with _ => _ end) => destruct x
  | |- preserves _ (if ?x then _ else _) => destruct x
  | |- ∀ _, _ => intros ?
  end.

Section PreservesPool.
Variable R : State → State → Prop.
Variable Φ : event → Prop.
Hypothesis R_refl : ∀ st, R st st.
Hypothesis R_trans : ∀ a b c, R a b → R b c → R a c.
Hypothesis R_emit : ∀ e, Φ e → preserves R (emit e).
Hypothesis R_set_fs : ∀ f, preserves R (set_fs f).
Hypothesis R_tick : ∀ E, preserves R (next_choice E).
Hypothesis Φ_plain : ∀ e, plain e → Φ e.
Hypothesis Φ_completed : ∀ t, Φ (EvCompleted t).
Hypothesis Φ_summary : ∀ v, Φ (EvPrintJson v).

Ltac prim :=
  first [ assumption
        | apply R_set_fs
        | apply R_tick
        | apply R_emit; first [ apply Φ_plain; exact I | apply Φ_completed
                              | apply Φ_summary ]
        | preserves_step ].

Lemma preserves_write_log path entry : preserves R (write_log path entry).
Proof. unfold write_log. repeat prim. Qed.

Lemma preserves_write_csv path row : preserves R (write_csv path row).
Proof. unfold write_csv. repeat prim. Qed.

Lemma preserves_scan_task E t : preserves R (scan_task E t).
Proof.
  unfold scan_task, scan_task_record, scan_task_log.
  repeat first [ apply preserves_write_log | apply preserves_write_csv | prim ].
Qed.

Lemma preserves_complete E t : preserves R (complete E t).
Proof.
  intros st. unfold complete.
  pose proof (preserves_scan_task E t st) as H.
  destruct (scan_task E t st) as [r st1]. simpl in H.
  eapply R_trans; [exact H|].
  revert st1 H. intros st1 _. revert st1.
  change (preserves R (emit (EvCompleted t);; mret r)).
  repeat prim.
Qed.

Lemma preserves_take_ready E k : ∀ ts, preserves R (take_ready E k ts).
Proof.
  induction k as [|k IH]; intros ts; simpl.
  - repeat prim.
  - repeat first [ apply preserves_complete | apply IH | prim ].
Qed.

Lemma preserves_ray_wait E tasks n : preserves R (ray_wait E tasks n).
Proof.
  unfold ray_wait. repeat first [ apply preserves_take_ready | prim ].
Qed.

Lemma preserves_complete_all E ts : preserves R (complete_all E ts).
Proof.
  induction ts as [|t ts IH]; simpl;
    repeat first [ apply preserves_complete | apply IH | prim ].
Qed.

Lemma preserves_ray_get E tasks : preserves R (ray_get E tasks).
Proof.
  unfold ray_get. repeat first [ apply preserves_complete_all | prim ].
Qed.

Lemma preserves_poll_empty tasks n : preserves R (poll_empty tasks n).
Proof.
  induction n as [|n IH]; simpl; unfold poll;
    repeat first [ apply IH | prim ].
Qed.

Lemma preserves_poll_until_ready E t : preserves R (poll_until_ready E t).
Proof.
  unfold poll_until_ready, poll.
  repeat first [ apply preserves_poll_empty | apply preserves_complete | prim ].
Qed.

Lemma preserves_ray_get_ready t r : preserves R (ray_get_ready t r).
Proof. unfold ray_get_ready. repeat prim. Qed.

Lemma preserves_seal_log E j input_folder log_dir c :
  preserves R (seal_log E j input_folder log_dir c).
Proof.
  unfold seal_log, reload_failed, write_log_finish, json_load, json_dump.
  repeat prim.
Qed.

Lemma preserves_finalize E j input_folder output_dir log_dir c :
  preserves R (finalize E j input_folder output_dir log_dir c).
Proof.
  unfold finalize, seam_output, report_views, filter_views, print_summary,
    write_csv_seam.
  repeat first [ apply preserves_seal_log | prim ].
Qed.
End PreservesPool.

Section PreservesRun.
Variable R : State → State → Prop.
Variable Φ : event → Prop.
Variable E : Env.
Variable j : Job.
Hypothesis R_refl : ∀ st, R st st.
Hypothesis R_trans : ∀ a b c, R a b → R b c → R a c.
Hypothesis R_emit : ∀ e, Φ e → preserves R (emit e).
Hypothesis R_set_fs : ∀ f, preserves R (set_fs f).
Hypothesis R_tick : ∀ E, preserves R (next_choice E).
Hypothesis R_add_task : ∀ total, preserves R (add_task total).
Hypothesis R_update_bar : ∀ f, preserves R (update_bar f).
Hypothesis Φ_plain : ∀ e, plain e → Φ e.
Hypothesis Φ_iter : ∀ folder,
  Φ (EvIterFiles folder (j_pattern j) (extended E (TYPE (j_mode j) (j_type j)))).
Hypothesis Φ_split : ∀ folder temp,
  Φ (EvSplit folder temp (extended E (TYPE (j_mode j) (j_type j)))
       (j_batch j) (j_pattern j) (j_limit j)).
Hypothesis Φ_submit : ∀ t, Φ (EvSubmit t).
Hypothesis Φ_completed : ∀ t, Φ (EvCompleted t).
Hypothesis Φ_summary : ∀ v, Φ (EvPrintJson v).

Ltac prim :=
  first [ assumption
        | apply R_set_fs
        | apply R_tick
        | apply R_add_task
        | apply R_update_bar
        | apply R_emit; first [ apply Φ_plain; exact I | apply Φ_iter
                              | apply Φ_split | apply Φ_submit ]
        | apply preserves_ray_wait with (Φ := Φ)
        | apply preserves_ray_get with (Φ := Φ)
        | apply preserves_poll_until_ready with (Φ := Φ)
        | apply preserves_ray_get_ready with (Φ := Φ)
        | apply preserves_finalize with (Φ := Φ)
        | preserves_step ].



Lemma preserves_drain_loop fuel file_total :
  ∀ not_ready, preserves R (drain_loop E fuel file_total not_ready).
Proof.
  induction fuel as [|fuel IH]; intros nr; simpl;
    unfold p_update_advance, p_update_completed;
    repeat first [ apply IH | prim ].
Qed.

Lemma preserves_drain file_total tasks :
  preserves R (drain E file_total tasks).
Proof.
  unfold drain. repeat first [ apply preserves_drain_loop | prim ].
Qed.




End PreservesRun.

(** *** Instances of the frame conditions *)

Lemma emitted_refl Φ st : emitted Φ st st.
Proof. exists []. split; [by rewrite app_nil_r | constructor]. Qed.

Lemma emitted_trans Φ a b c : emitted Φ a b → emitted Φ b c → emitted Φ a c.
Proof.
  intros (e1 & H1 & F1) (e2 & H2 & F2). exists (e1 ++ e2). split.
  - rewrite H2, H1. by rewrite app_assoc.
  - by apply Forall_app.
Qed.

Lemma emitted_emit Φ e : Φ e → preserves (emitted Φ) (emit e).
Proof. intros He st. exists [e]. split; [reflexivity | by constructor]. Qed.

Lemma emitted_silent Φ st st' : out st' = out st → emitted Φ st st'.
Proof. intros H. exists []. split; [by rewrite app_nil_r | constructor]. Qed.

Lemma emitted_set_fs Φ f : preserves (emitted Φ) (set_fs f).
Proof. intros st. by apply emitted_silent. Qed.

Lemma emitted_tick Φ E : preserves (emitted Φ) (next_choice E).
Proof. intros st. by apply emitted_silent. Qed.

Lemma emitted_add_task Φ total : preserves (emitted Φ) (add_task total).
Proof. intros st. by apply emitted_silent. Qed.

Lemma emitted_update_bar Φ f : preserves (emitted Φ) (update_bar f).
Proof.
  intros st. apply emitted_silent. unfold update_bar. by destruct (bars st).
Qed.

(** ** C5: no usable input, no artifacts *)

(** C5.  When the input directory exists and the effective total (the
    number of matching files after the limit clamp) is zero, the job
    reports "No valid input found" and returns, whatever the mode and
    engine, hence under both dispatch policies: nothing is submitted, and
    the artifact store is exactly what it was, so neither the output
    table nor the log nor a report has been created. *)
Theorem no_input_no_artifacts (E : Env) (j : Job) (st : State) :
  path_exists E (j_input_folder j) = true →
  effective_total E j = 0 →
  run E j st =
    (Ok tt, MkState (out st ++ no_input_trace E j) (fs st) (bars st) (tick st)).
Proof.
  intros Hex Hz. unfold effective_total, input_count in Hz.
  unfold run, no_input_trace, input_count, matching_files, when.
  rewrite Hex. cbn [negb].
  destruct (j_debug j), (j_limit j =? 0);
    unfold mbind, M_bind, mret, M_ret, emit;
    cbn -[clamp_total pretty metadata];
    rewrite Hz; cbn -[pretty metadata]; rewrite <- ?app_assoc; reflexivity.
Qed.

(** ** C10: speech jobs match [wav] files only *)





(** ** The worker pool *)

Lemma silent_refl st : silent st st.
Proof. split; [reflexivity | apply emitted_refl]. Qed.

Lemma silent_trans a b c : silent a b → silent b c → silent a c.
Proof.
  intros [H1 H2] [H3 H4]. split; [congruence | by eapply emitted_trans].
Qed.

Lemma silent_emit e st : not_completion e → silent st (emit e st).2.
Proof. intros H. split; [reflexivity | by apply emitted_emit]. Qed.

Lemma silent_tick E st : silent st (next_choice E st).2.
Proof. split; [reflexivity | by apply emitted_silent]. Qed.

Lemma silent_update_bar f st : silent st (update_bar f st).2.
Proof.
  unfold update_bar. destruct (bars st); (split; [reflexivity|]);
    by apply emitted_silent.
Qed.

Lemma silent_add_task total st : silent st (add_task total st).2.
Proof. split; [reflexivity | by apply emitted_silent]. Qed.

Lemma ran_silent_l E done a b c : silent a b → ran E done b c → ran E done a c.
Proof.
  intros Hs Hr. inversion Hr; subst.
  - apply ran_nil. by eapply silent_trans.
  - eapply ran_cons; [|eassumption]. by eapply silent_trans.
Qed.

Lemma ran_app E d1 d2 a b c :
  ran E d1 a b → ran E d2 b c → ran E (d1 ++ d2) a c.
Proof.
  intros H1 H2. induction H1 as [st st' Hs | t done st st1 st' Hs Hr IH]; simpl.
  - by eapply ran_silent_l.
  - eapply ran_cons; [exact Hs | by apply IH].
Qed.

Lemma ran_silent_r E done a b c : ran E done a b → silent b c → ran E done a c.
Proof.
  intros Hr Hs. rewrite <- (app_nil_r done).
  eapply ran_app; [exact Hr | by apply ran_nil].
Qed.

Lemma ran_one E t st : ran E [t] st (complete E t st).2.
Proof.
  eapply ran_cons; [apply silent_refl | apply ran_nil, silent_refl].
Qed.

(** The first [k] completions among [ts]: [k] tasks are ready, the
    others are still pending, and exactly the ready ones ran. *)
Lemma take_ready_spec E k : ∀ ts st,
  (k ≤ length ts)%nat →
  ∃ ready rest st',
    take_ready E k ts st = (Ok (ready, rest), st') ∧
    length ready = k ∧
    Permutation ts (ready ++ rest) ∧
    ran E ready st st'.
Proof.
  induction k as [|k IH]; intros ts st Hk.
  - exists [], ts, st. repeat split; auto. apply ran_nil, silent_refl.
  - destruct ts as [|t0 ts0]; [simpl in Hk; lia|].
    set (ts := t0 :: ts0) in *.
    cbn [take_ready]. rewrite bind_eq. cbn [next_choice].
    set (st1 := MkState _ _ _ _).
    set (i := (sched E (tick st) mod length ts)%nat).
    assert (Hi : (i < length ts)%nat).
    { apply Nat.mod_upper_bound. subst ts. simpl. lia. }
    destruct (lookup_lt_is_Some_2 ts i Hi) as [t Ht].
    rewrite Ht.
    rewrite bind_eq.
    destruct (complete E t st1) as [rc st2] eqn:Hc.
    assert (Hok : ∃ r, rc = Ok r).
    { unfold complete in Hc. destruct (scan_task E t st1) as [r s].
      inversion Hc; subst. by eexists. }
    destruct Hok as [r ->].
    destruct (IH (delete i ts) st2) as (ready & rest & st' & Htr & Hlen & Hperm & Hran).
    { rewrite length_delete by (by eexists). subst ts. simpl in *. lia. }
    rewrite bind_eq, Htr.
    exists (t :: ready), rest, st'. repeat split.
    + simpl. by rewrite Hlen.
    + simpl. rewrite <- Hperm.
      rewrite <- (take_drop_middle ts i t Ht) at 1.
      rewrite delete_take_drop.
      symmetry. apply Permutation_middle.
    + eapply ran_cons with (st1 := st1).
      * subst st1. apply (silent_tick E st).
      * rewrite Hc. exact Hran.
Qed.

Lemma ray_wait_spec E ts n st :
  0 < n ≤ Z.of_nat (length ts) →
  ∃ ready rest st',
    ray_wait E ts n st = (Ok (ready, rest), st') ∧
    length ready = Z.to_nat n ∧
    Permutation ts (ready ++ rest) ∧
    ran E ready st st'.
Proof.
  intros [Hn1 Hn2]. unfold ray_wait. rewrite bind_eq. cbn [emit].
  set (st1 := MkState _ _ _ _).
  destruct ts as [|t0 ts0]; [simpl in Hn2; lia|].
  destruct (Z.leb_spec n 0); [lia|].
  destruct (Z.ltb_spec (Z.of_nat (length (t0 :: ts0))) n); [lia|].
  destruct (take_ready_spec E (Z.to_nat n) (t0 :: ts0) st1)
    as (ready & rest & st' & Htr & Hlen & Hperm & Hran); [lia|].
  exists ready, rest, st'. repeat split; auto.
  eapply ran_silent_l; [|exact Hran].
  apply (silent_emit _ st). exact I.
Qed.

Lemma ray_wait_nil E n st :
  ray_wait E [] n st = (Ok ([], []), (emit (EvWait [] n false) st).2).
Proof. reflexivity. Qed.

Lemma complete_ok E t st : ∃ r, (complete E t st).1 = Ok r.
Proof.
  unfold complete. destruct (scan_task E t st) as [r s]. by exists r.
Qed.

Lemma complete_all_spec E ts : ∀ st,
  ∃ rs st',
    complete_all E ts st = (Ok rs, st') ∧
    length rs = length ts ∧
    ran E ts st st'.
Proof.
  induction ts as [|t ts IH]; intros st.
  - exists [], st. repeat split. apply ran_nil, silent_refl.
  - cbn [complete_all]. rewrite bind_eq.
    destruct (complete_ok E t st) as [r Hr].
    destruct (complete E t st) as [rc st1] eqn:Hc. simpl in Hr. subst rc.
    destruct (IH st1) as (rs & st' & Hall & Hlen & Hran).
    rewrite bind_eq, Hall.
    exists (r :: rs), st'. repeat split.
    + simpl. by rewrite Hlen.
    + eapply ran_cons; [apply silent_refl|]. rewrite Hc. exact Hran.
Qed.

Lemma ray_get_spec E ts st :
  ∃ rs st',
    ray_get E ts st = (resolve rs, st') ∧
    length rs = length ts ∧
    ran E ts st st'.
Proof.
  unfold ray_get. rewrite bind_eq. cbn [emit].
  set (st1 := MkState _ _ _ _).
  destruct (complete_all_spec E ts st1) as (rs & st' & Hall & Hlen & Hran).
  rewrite bind_eq, Hall.
  exists rs, st'. repeat split; auto.
  eapply ran_silent_l; [|exact Hran].
  apply (silent_emit _ st). exact I.
Qed.

(** *** What follows from [ran] *)

Lemma completed_tasks_app a b :
  completed_tasks (a ++ b) = completed_tasks a ++ completed_tasks b.
Proof.
  induction a as [|e a IH]; [reflexivity|].
  destruct e; simpl; rewrite ?IH; reflexivity.
Qed.

Lemma completed_tasks_none evs :
  Forall not_completion evs → completed_tasks evs = [].
Proof.
  induction 1 as [|e evs He _ IH]; [reflexivity|].
  destruct e; simpl in *; auto. destruct He.
Qed.

Lemma submitted_tasks_app a b :
  submitted_tasks (a ++ b) = submitted_tasks a ++ submitted_tasks b.
Proof.
  induction a as [|e a IH]; [reflexivity|].
  destruct e; simpl; rewrite ?IH; reflexivity.
Qed.

Lemma submitted_tasks_none evs :
  Forall not_submission evs → submitted_tasks evs = [].
Proof.
  induction 1 as [|e evs He _ IH]; [reflexivity|].
  destruct e; simpl in *; auto. destruct He.
Qed.

Lemma scan_task_no_completion E t st :
  emitted not_completion st (scan_task E t st).2.
Proof.
  apply preserves_scan_task with (Φ := not_completion).
  - apply emitted_refl.
  - apply emitted_trans.
  - apply emitted_emit.
  - apply emitted_set_fs.
  - intros [] H; try exact I; destruct H.
Qed.

Lemma complete_unfold E t st :
  complete E t st =
  (Ok (scan_task E t st).1,
   (emit (EvCompleted t) (scan_task E t st).2).2).
Proof.
  unfold complete. destruct (scan_task E t st) as [r s]. reflexivity.
Qed.

Lemma ran_completed E done st st' :
  ran E done st st' →
  ∃ evs, out st' = out st ++ evs ∧ completed_tasks evs = done.
Proof.
  induction 1 as [st st' [_ (evs & Ho & Hf)]
                 | t done st st1 st' [_ (evs & Ho & Hf)] _ (evs' & Ho' & Hc)].
  - exists evs. split; [exact Ho | by apply completed_tasks_none].
  - rewrite complete_unfold in Ho'. cbn [snd emit out] in Ho'.
    destruct (scan_task_no_completion E t st1) as (evt & Hot & Hft).
    exists (evs ++ evt ++ [EvCompleted t] ++ evs'). split.
    + rewrite Ho', Hot, Ho. by rewrite <- !app_assoc.
    + rewrite !completed_tasks_app, Hc.
      rewrite (completed_tasks_none evs), (completed_tasks_none evt) by done.
      reflexivity.
Qed.

(** The pool never touches the progress display. *)
Lemma same_bars_refl st : same_bars st st.
Proof. reflexivity. Qed.

Lemma same_bars_trans a b c : same_bars a b → same_bars b c → same_bars a c.
Proof. unfold same_bars. congruence. Qed.

Lemma same_bars_emit e : preserves same_bars (emit e).
Proof. intros st. reflexivity. Qed.

Lemma same_bars_set_fs f : preserves same_bars (set_fs f).
Proof. intros st. reflexivity. Qed.

Lemma same_bars_tick E : preserves same_bars (next_choice E).
Proof. intros st. reflexivity. Qed.

Ltac same_bars_frame :=
  first [ apply same_bars_refl | apply same_bars_trans
        | apply same_bars_set_fs | apply same_bars_tick
        | intros; apply same_bars_emit | intros; exact I ].

Lemma ray_wait_bars E ts n st : bars (ray_wait E ts n st).2 = bars st.
Proof.
  apply (preserves_ray_wait same_bars (λ _, True)); same_bars_frame.
Qed.

Lemma ray_get_bars E ts st : bars (ray_get E ts st).2 = bars st.
Proof.
  apply (preserves_ray_get same_bars (λ _, True)); same_bars_frame.
Qed.

Lemma poll_until_ready_bars E t st : bars (poll_until_ready E t st).2 = bars st.
Proof.
  apply (preserves_poll_until_ready same_bars (λ _, True)); same_bars_frame.
Qed.

Lemma ray_get_ready_bars t r st : bars (ray_get_ready t r st).2 = bars st.
Proof.
  apply (preserves_ray_get_ready same_bars (λ _, True)); same_bars_frame.
Qed.

Lemma finalize_bars E j i o l c st : bars (finalize E j i o l c st).2 = bars st.
Proof.
  apply (preserves_finalize same_bars (λ _, True)); same_bars_frame.
Qed.

(** ** The completion tracker *)

Lemma update_bar_ok f st : update_bar f st = (Ok tt, (update_bar f st).2).
Proof. unfold update_bar. by destruct (bars st). Qed.

(** One turn of the draining loop. *)
Lemma drain_loop_S E fuel file_total not_ready st :
  drain_loop E (S fuel) file_total not_ready st =
  if finished_now st then (Ok not_ready, st)
  else if Z.of_nat (length not_ready) <? eta_step then
    drain_loop E fuel file_total not_ready (p_update_completed file_total st).2
  else
    match ray_wait E not_ready eta_step st with
    | (Ok (ready, not_ready'), st1) =>
        drain_loop E fuel file_total not_ready'
          (p_update_advance (Z.of_nat (length ready)) st1).2
    | (Err e, st1) => (Err e, st1)
    end.
Proof.
  cbn [drain_loop]. rewrite bind_eq. cbn [p_finished].
  destruct (finished_now st); [reflexivity|].
  destruct (Z.of_nat (length not_ready) <? eta_step).
  - rewrite bind_eq. unfold p_update_completed.
    rewrite update_bar_ok. reflexivity.
  - rewrite bind_eq.
    destruct (ray_wait E not_ready eta_step st) as [[[ready nr']|e] st1];
      [|reflexivity].
    rewrite bind_eq. unfold p_update_advance.
    rewrite update_bar_ok. reflexivity.
Qed.

Lemma finished_after_completed file_total st :
  current_total file_total st →
  finished_now (p_update_completed file_total st).2 = true.
Proof.
  unfold current_total, finished_now, p_update_completed, update_bar.
  destruct (bars st) as [|b bs] eqn:Hb; cbn -[Z.leb].
  - by rewrite Hb.
  - intros ->. rewrite Z.leb_refl. apply orb_true_r.
Qed.

Lemma current_total_update total f st :
  (∀ b, bar_total (f b) = bar_total b) →
  current_total total st →
  current_total total (update_bar f st).2.
Proof.
  intros Hf. unfold current_total, update_bar.
  destruct (bars st) as [|b bs] eqn:Hb; simpl; [by rewrite Hb|].
  by rewrite Hf.
Qed.

Lemma current_total_same total st st' :
  bars st' = bars st → current_total total st → current_total total st'.
Proof. unfold current_total. by intros ->. Qed.

Lemma ray_wait_window E not_ready st :
  eta_step ≤ Z.of_nat (length not_ready) →
  ∃ ready rest st1,
    ray_wait E not_ready eta_step st = (Ok (ready, rest), st1) ∧
    length ready = 10%nat ∧
    Permutation not_ready (ready ++ rest) ∧
    (length not_ready = 10 + length rest)%nat ∧
    ran E ready st st1.
Proof.
  intros Hlen.
  destruct (ray_wait_spec E not_ready eta_step st)
    as (ready & rest & st1 & Hw & Hl & Hperm & Hran); [unfold eta_step in *; lia|].
  exists ready, rest, st1. repeat split; auto.
  apply Permutation_length in Hperm. rewrite length_app in Hperm.
  rewrite Hperm, Hl. reflexivity.
Qed.

(** The loop only completes tasks of [not_ready], each at most once,
    and hands the others on. *)
Lemma drain_loop_ran E file_total fuel : ∀ not_ready st,
  ∃ rest done st',
    drain_loop E fuel file_total not_ready st = (Ok rest, st') ∧
    ran E done st st' ∧
    Permutation not_ready (done ++ rest).
Proof.
  induction fuel as [|fuel IH]; intros nr st.
  - exists nr, [], st. repeat split; auto. apply ran_nil, silent_refl.
  - rewrite drain_loop_S.
    destruct (finished_now st).
    { exists nr, [], st. repeat split; auto. apply ran_nil, silent_refl. }
    destruct (Z.ltb_spec (Z.of_nat (length nr)) eta_step) as [Hlt|Hge].
    + destruct (IH nr (p_update_completed file_total st).2)
        as (rest & done & st' & Hd & Hran & Hperm).
      exists rest, done, st'. repeat split; auto.
      eapply ran_silent_l; [|exact Hran]. apply silent_update_bar.
    + destruct (ray_wait_window E nr st Hge)
        as (ready & nr' & st1 & Hw & Hl & Hperm & _ & Hran).
      rewrite Hw.
      destruct (IH nr' (p_update_advance (Z.of_nat (length ready)) st1).2)
        as (rest & done & st' & Hd & Hran' & Hperm').
      exists rest, (ready ++ done), st'. repeat split; auto.
      * eapply ran_app; [exact Hran|].
        eapply ran_silent_l; [|exact Hran']. apply silent_update_bar.
      * rewrite Hperm, Hperm'. by rewrite app_assoc.
Qed.

(** The bound on the number of turns is only reached with [p.finished]
    true, that is where the [while] loop exits by itself. *)
Lemma drain_loop_exit E file_total fuel : ∀ not_ready st,
  current_total file_total st →
  (length not_ready < 10 * fuel)%nat →
  finished_now (drain_loop E fuel file_total not_ready st).2 = true.
Proof.
  induction fuel as [|fuel IH]; intros nr st Htot Hfuel; [lia|].
  rewrite drain_loop_S.
  destruct (finished_now st) eqn:Hfin; [exact Hfin|].
  destruct (Z.ltb_spec (Z.of_nat (length nr)) eta_step) as [Hlt|Hge].
  - pose proof (finished_after_completed file_total st Htot) as Hdone.
    destruct fuel as [|fuel]; [exact Hdone|].
    rewrite drain_loop_S, Hdone. exact Hdone.
  - destruct (ray_wait_window E nr st Hge)
      as (ready & nr' & st1 & Hw & Hl & Hperm & Hlen & _).
    rewrite Hw. apply IH; [|lia].
    apply current_total_update; [done|].
    apply (current_total_same _ st); [|exact Htot].
    pose proof (ray_wait_bars E nr eta_step st) as Hb.
    by rewrite Hw in Hb.
Qed.

Lemma drain_unfold E file_total tasks st :
  drain E file_total tasks st =
  (drain_until_exit E file_total tasks ≫= λ not_ready,
   ray_get E not_ready;; mret tt) st.
Proof.
  unfold drain, drain_until_exit. rewrite !bind_eq.
  destruct (ray_wait E tasks 1 st) as [[[ready nr]|e] st1]; [|reflexivity].
  rewrite !bind_eq. cbn [add_task]. reflexivity.
Qed.

Lemma ray_wait_prime E tasks st :
  ∃ ready rest st1,
    ray_wait E tasks 1 st = (Ok (ready, rest), st1) ∧
    Permutation tasks (ready ++ rest) ∧
    (length ready ≤ 1)%nat ∧
    ran E ready st st1.
Proof.
  destruct tasks as [|t ts].
  - exists [], [], (emit (EvWait [] 1 false) st).2. repeat split; auto.
    apply ran_nil. by apply silent_emit.
  - destruct (ray_wait_spec E (t :: ts) 1 st)
      as (ready & rest & st1 & Hw & Hl & Hperm & Hran); [simpl; lia|].
    exists ready, rest, st1. repeat split; auto. rewrite Hl. lia.
Qed.

(** The tracker leaves its loop with the bar finished, having completed
    some of the tasks; the blocking [ray.get] then completes all the
    others: every submitted task ran exactly once. *)
Lemma drain_spec E file_total tasks st :
  ∃ rest st1 done,
    drain_until_exit E file_total tasks st = (Ok rest, st1) ∧
    finished_now st1 = true ∧
    ran E done st st1 ∧
    Permutation tasks (done ++ rest) ∧
    (drain E file_total tasks st).2 = (ray_get E rest st1).2 ∧
    ran E (done ++ rest) st (drain E file_total tasks st).2.
Proof.
  destruct (ray_wait_prime E tasks st)
    as (ready & nr & st0 & Hw & Hperm & _ & Hran).
  set (st0' := (add_task file_total st0).2).
  destruct (drain_loop_ran E file_total (drain_fuel nr) nr st0')
    as (rest & done & st1 & Hd & Hran' & Hperm').
  assert (Hexit : drain_until_exit E file_total tasks st = (Ok rest, st1)).
  { unfold drain_until_exit. rewrite bind_eq, Hw, bind_eq. exact Hd. }
  assert (Hdrain : (drain E file_total tasks st).2 = (ray_get E rest st1).2).
  { rewrite drain_unfold, bind_eq, Hexit, bind_eq.
    by destruct (ray_get E rest st1) as [[vs|e] st']. }
  assert (Hran1 : ran E (ready ++ done) st st1).
  { eapply ran_app; [exact Hran|].
    eapply ran_silent_l; [|exact Hran']. apply silent_add_task. }
  exists rest, st1, (ready ++ done). repeat split; auto.
  - pose proof (drain_loop_exit E file_total (drain_fuel nr) nr st0') as Hx.
    rewrite Hd in Hx. apply Hx; [reflexivity | unfold drain_fuel; lia].
  - rewrite Hperm, Hperm'. by rewrite app_assoc.
  - rewrite Hdrain.
    destruct (ray_get_spec E rest st1) as (rs & st' & Hg & _ & Hrang).
    rewrite Hg. eapply ran_app; eassumption.
Qed.

(** ** Displayed progress *)

Lemma nondecreasing_snoc l x :
  nondecreasing l → Forall (λ y, y ≤ x) l → nondecreasing (l ++ [x]).
Proof.
  induction l as [|y l IH]; simpl.
  - intros _ _. split; [constructor | exact I].
  - intros [Hy Hl] Hx. inversion Hx as [|? ? Hyx Hlx]; subst. split.
    + apply Forall_app. split; [exact Hy | by constructor].
    + by apply IH.
Qed.

Lemma bar_sound_ok b : bar_sound b → bar_ok b.
Proof.
  intros (Hmono & Hmax & Hle). split; [exact Hmono|].
  eapply Forall_impl; [exact Hmax|]. simpl. intros x Hx. lia.
Qed.

Lemma bar_sound_new total : 0 ≤ total → bar_sound (Bar total 0 false [0]).
Proof.
  intros Ht. repeat split; simpl; auto.
  constructor; [lia | constructor].
Qed.

Lemma bar_sound_show b c :
  bar_sound b → bar_completed b ≤ c → c ≤ bar_total b →
  bar_sound (bar_show c b).
Proof.
  intros (Hmono & Hmax & Hle) Hc Ht. unfold bar_show. repeat split; simpl.
  - apply nondecreasing_snoc; [exact Hmono|].
    eapply Forall_impl; [exact Hmax|]. simpl. intros x Hx. lia.
  - apply Forall_app. split.
    + eapply Forall_impl; [exact Hmax|]. simpl. intros x Hx. lia.
    + constructor; [lia | constructor].
  - exact Ht.
Qed.

Lemma update_bar_bars f st b bs :
  bars st = b :: bs → bars (update_bar f st).2 = f b :: bs.
Proof. intros H. unfold update_bar. rewrite H. reflexivity. Qed.

Lemma update_bar_out f st : out (update_bar f st).2 = out st.
Proof. unfold update_bar. by destruct (bars st). Qed.

Lemma update_bar_fs f st : fs (update_bar f st).2 = fs st.
Proof. unfold update_bar. by destruct (bars st). Qed.

(** *** The sending bar *)

(** With [k] the smaller of the number of paths and of the room left on
    the bar, the loop submits the first [k] paths, in order, advancing
    the bar by one for each. *)
Lemma submit_loop_spec mk : ∀ files tasks n st b bs,
  bars st = b :: bs →
  bar_finished b = false →
  bar_completed b < bar_total b →
  let k := Nat.min (length files) (Z.to_nat (bar_total b - bar_completed b)) in
  ∃ st' b',
    submit_loop mk files tasks n st =
      (Ok (tasks ++ map mk (take k files), n + Z.of_nat k), st') ∧
    out st' = out st ++ map (λ p, EvSubmit (mk p)) (take k files) ∧
    fs st' = fs st ∧
    bars st' = b' :: bs ∧
    bar_total b' = bar_total b ∧
    bar_completed b' = bar_completed b + Z.of_nat k ∧
    (bar_sound b → bar_sound b').
Proof.
  induction files as [|p rest IH]; intros tasks n st b bs Hb Hfin Hroom k.
  - exists st, b. subst k. simpl. rewrite !app_nil_r, !Z.add_0_r.
    split_and!; auto.
  - cbn [submit_loop]. rewrite bind_eq. cbn [emit].
    set (st1 := MkState _ _ _ _).
    rewrite bind_eq. unfold p_update_advance. rewrite update_bar_ok.
    assert (Hb1 : bars (update_bar (λ x, bar_show (bar_completed x + 1) x) st1).2
                  = bar_show (bar_completed b + 1) b :: bs)
      by (apply (update_bar_bars (λ x, bar_show (bar_completed x + 1) x));
          exact Hb).
    set (st2 := (update_bar _ st1).2) in *.
    rewrite bind_eq. cbn [p_finished]. unfold finished_now. rewrite Hb1.
    cbn [bar_show bar_finished]. rewrite Hfin. cbn [orb].
    destruct (Z.leb_spec (bar_total b) (bar_completed b + 1)) as [Hle|Hgt].
    + assert (Hk : k = 1%nat) by (subst k; cbn [length]; lia).
      rewrite Hk. exists st2, (bar_show (bar_completed b + 1) b).
      cbn [take map]. rewrite take_0. split_and!; auto.
      * subst st2. by rewrite update_bar_out.
      * subst st2. by rewrite update_bar_fs.
      * intros Hs. apply bar_sound_show; [exact Hs | lia | lia].
    + destruct (IH (tasks ++ [mk p]) (n + 1) st2
                   (bar_show (bar_completed b + 1) b) bs Hb1)
        as (st' & b' & Hrun & Hout & Hfs & Hbars & Htot & Hcomp & Hsound).
      { cbn. rewrite Hfin. cbn.
        destruct (Z.leb_spec (bar_total b) (bar_completed b + 1)); [lia | done]. }
      { cbn. lia. }
      cbn [bar_show bar_total bar_completed] in *.
      set (k' := Nat.min (length rest)
                   (Z.to_nat (bar_total b - (bar_completed b + 1)))) in *.
      assert (Hk : k = S k') by (subst k k'; cbn [length]; lia).
      rewrite Hk. exists st', b'. cbn [take map].
      split_and!; auto.
      * rewrite Hrun. rewrite <- app_assoc. cbn [app].
        replace (n + Z.of_nat (S k')) with (n + 1 + Z.of_nat k') by lia.
        reflexivity.
      * rewrite Hout. subst st2. rewrite update_bar_out.
        cbn. rewrite <- app_assoc. reflexivity.
      * rewrite Hfs. subst st2. by rewrite update_bar_fs.
      * rewrite Hcomp. lia.
      * intros Hs. apply Hsound. apply bar_sound_show; [exact Hs | lia | lia].
Qed.

(** *** The processing bar *)

Lemma drain_loop_finished E fuel file_total not_ready st :
  finished_now st = true →
  drain_loop E fuel file_total not_ready st = (Ok not_ready, st).
Proof.
  intros Hfin. destruct fuel; [reflexivity|].
  rewrite drain_loop_S, Hfin. reflexivity.
Qed.

Lemma drain_loop_bars E file_total fuel : ∀ not_ready st b bs,
  bars st = b :: bs →
  bar_sound b →
  bar_total b = file_total →
  bar_completed b + Z.of_nat (length not_ready) ≤ file_total →
  ∃ b', bars (drain_loop E fuel file_total not_ready st).2 = b' :: bs ∧
        bar_sound b' ∧ bar_total b' = file_total.
Proof.
  induction fuel as [|fuel IH]; intros nr st b bs Hb Hs Htot Hroom.
  - exists b. by split_and!.
  - rewrite drain_loop_S.
    destruct (finished_now st) eqn:Hfin; [exists b; by split_and!|].
    destruct (Z.ltb_spec (Z.of_nat (length nr)) eta_step) as [Hlt|Hge].
    + rewrite drain_loop_finished.
      * exists (bar_show file_total b). split_and!.
        -- by apply update_bar_bars.
        -- apply bar_sound_show; [exact Hs | destruct Hs as (_ & _ & ?); lia | lia].
        -- exact Htot.
      * apply finished_after_completed. unfold current_total. by rewrite Hb.
    + destruct (ray_wait_window E nr st Hge)
        as (ready & rest & st1 & Hw & Hl & _ & Hlen & _).
      rewrite Hw.
      assert (Hb1 : bars st1 = b :: bs).
      { pose proof (ray_wait_bars E nr eta_step st) as H.
        rewrite Hw in H. simpl in H. congruence. }
      apply (IH rest _ (bar_show (bar_completed b + Z.of_nat (length ready)) b) bs).
      * by apply (update_bar_bars
                    (λ x, bar_show (bar_completed x + Z.of_nat (length ready)) x)).
      * apply bar_sound_show; [exact Hs | lia | lia].
      * exact Htot.
      * cbn [bar_show bar_completed]. lia.
Qed.

(** The tracker adds one bar, created for the total, and keeps it
    sound. *)
Lemma drain_bars E file_total tasks st :
  Z.of_nat (length tasks) ≤ file_total →
  ∃ b', bars (drain E file_total tasks st).2 = b' :: bars st ∧
        bar_sound b' ∧ bar_total b' = file_total.
Proof.
  intros Hlen.
  destruct (drain_spec E file_total tasks st)
    as (rest & st1 & done & Hexit & _ & _ & _ & Hdrain & _).
  rewrite Hdrain, ray_get_bars.
  unfold drain_until_exit in Hexit. rewrite bind_eq in Hexit.
  destruct (ray_wait_prime E tasks st)
    as (ready & nr & st0 & Hw & Hperm & _ & _).
  pose proof (ray_wait_bars E tasks 1 st) as Hb0.
  rewrite Hw in Hexit, Hb0. simpl in Hb0.
  rewrite bind_eq in Hexit. cbn [add_task] in Hexit.
  set (st0' := MkState _ _ _ _) in Hexit.
  apply Permutation_length in Hperm. rewrite length_app in Hperm.
  destruct (drain_loop_bars E file_total (drain_fuel nr) nr st0'
              (Bar file_total 0 false [0]) (bars st0))
    as (b' & Hb' & Hs' & Ht'); auto.
  - apply bar_sound_new. lia.
  - cbn [bar_completed]. lia.
  - rewrite Hexit in Hb'. simpl in Hb'. exists b'.
    split_and!; [by rewrite Hb', Hb0 | exact Hs' | exact Ht'].
Qed.

(** The per-file dispatch adds the sending bar and the processing bar,
    both created for the total. *)
Lemma per_file_bars E j output_dir log_dir file_total file_globs st :
  1 ≤ file_total →
  ∃ b1 b2,
    bars (per_file E j output_dir log_dir file_total file_globs st).2 =
      b2 :: b1 :: bars st ∧
    bar_sound b1 ∧ bar_total b1 = file_total ∧
    bar_sound b2 ∧ bar_total b2 = file_total.
Proof.
  intros Htot. unfold per_file. rewrite bind_eq. cbn [add_task].
  set (st0 := MkState _ _ _ _).
  destruct (submit_loop_spec (remote j output_dir log_dir) file_globs [] 0 st0
              (Bar file_total 0 false [0]) (bars st))
    as (st1 & b1 & Hrun & _ & _ & Hb1 & Ht1 & Hc1 & Hs1);
    [reflexivity | reflexivity | cbn; lia |].
  rewrite bind_eq, Hrun, bind_eq.
  set (tasks := [] ++ _) in *.
  destruct (drain_bars E file_total tasks st1) as (b2 & Hb2 & Hs2 & Ht2).
  { subst tasks. cbn [app bar_total bar_completed] in *.
    rewrite length_map, length_take. lia. }
  exists b1, b2.
  split_and!; [| apply Hs1, bar_sound_new; lia | exact Ht1 | exact Hs2 | exact Ht2].
  rewrite Hb1 in Hb2.
  by destruct (drain E file_total tasks st1) as [[[]|e] st2].
Qed.

(** *** The per-batch bar *)

Lemma tally_bar file_total c ok b :
  bar_sound b →
  bar_total b = file_total →
  bar_completed b = file_count c →
  0 ≤ batch c →
  let '(c', advance) := tally file_total c ok in
  0 ≤ batch c' ∧
  match advance with
  | Some a => bar_sound (bar_show (bar_completed b + a) b) ∧
              bar_completed b + a = file_count c'
  | None => bar_completed b = file_count c'
  end.
Proof.
  intros Hs Htot Hc Hb. unfold tally.
  pose proof Hs as (_ & _ & Hle).
  destruct ok; [|by split].
  destruct (Z.ltb_spec file_total (file_count c + batch c)); cbn [batch file_count].
  - split; [lia|]. split; [|lia]. apply bar_sound_show; [exact Hs | lia | lia].
  - split; [lia|]. split; [|lia]. apply bar_sound_show; [exact Hs | lia | lia].
Qed.

Lemma batch_step_bars E j output_dir log_dir file_total folder c st b bs :
  bars st = b :: bs →
  bar_sound b →
  bar_total b = file_total →
  bar_completed b = file_count c →
  0 ≤ batch c →
  ∃ b',
    bars (batch_step E j output_dir log_dir file_total folder c st).2 = b' :: bs ∧
    bar_sound b' ∧
    bar_total b' = file_total ∧
    ∀ c', (batch_step E j output_dir log_dir file_total folder c st).1 = Ok c' →
          bar_completed b' = file_count c' ∧ 0 ≤ batch c'.
Proof.
  intros Hb Hs Htot Hc Hbatch. unfold batch_step.
  set (t := remote j output_dir log_dir folder).
  rewrite bind_eq. cbn [emit]. set (st1 := MkState _ _ _ _).
  assert (Hb1 : bars st1 = b :: bs) by exact Hb.
  rewrite bind_eq.
  pose proof (poll_until_ready_bars E t st1) as Hb2.
  destruct (poll_until_ready E t st1) as [[r|e] st2]; simpl in Hb2;
    [|exists b; split_and!; auto; simpl; [congruence | intros ? [=]]].
  rewrite bind_eq.
  pose proof (ray_get_ready_bars t r st2) as Hb3.
  destruct (ray_get_ready t r st2) as [[v|e] st3]; simpl in Hb3;
    [|exists b; split_and!; auto; simpl; [congruence | intros ? [=]]].
  assert (Hb3' : bars st3 = b :: bs) by congruence.
  pose proof (tally_bar file_total c (truthy v) b Hs Htot Hc Hbatch) as Ht.
  destruct (tally file_total c (truthy v)) as [c' [a|]].
  - destruct Ht as (Hb' & Hs' & Hc').
    rewrite bind_eq. unfold p_update_advance. rewrite update_bar_ok.
    exists (bar_show (bar_completed b + a) b). split_and!; auto.
    + by apply (update_bar_bars (λ x, bar_show (bar_completed x + a) x)).
    + intros c0 [= <-]. split; [exact Hc' | exact Hb'].
  - destruct Ht as (Hb' & Hc').
    exists b. split_and!; auto.
    intros c0 [= <-]. by split.
Qed.

Lemma batch_loop_bars E j output_dir log_dir file_total : ∀ folders c st b bs,
  bars st = b :: bs →
  bar_sound b →
  bar_total b = file_total →
  bar_completed b = file_count c →
  0 ≤ batch c →
  ∃ b',
    bars (for_each folders c
            (batch_step E j output_dir log_dir file_total) st).2 = b' :: bs ∧
    bar_sound b' ∧ bar_total b' = file_total.
Proof.
  induction folders as [|folder folders IH]; intros c st b bs Hb Hs Htot Hc Hbatch.
  - exists b. by split_and!.
  - cbn [for_each]. rewrite bind_eq.
    destruct (batch_step_bars E j output_dir log_dir file_total folder c st b bs)
      as (b1 & Hb1 & Hs1 & Htot1 & Hres); auto.
    destruct (batch_step E j output_dir log_dir file_total folder c st)
      as [[c1|e] st1]; simpl in *.
    + destruct (Hres c1 eq_refl) as [Hc1 Hbatch1].
      by apply (IH c1 st1 b1 bs).
    + exists b1. by split_and!.
Qed.

(** The per-batch dispatch adds one bar, created for the total. *)
Lemma per_batch_bars E j input_folder output_dir log_dir file_total st :
  0 ≤ file_total →
  0 ≤ j_batch j →
  ∃ b',
    bars (per_batch E j input_folder output_dir log_dir file_total st).2 =
      b' :: bars st ∧
    bar_sound b' ∧ bar_total b' = file_total.
Proof.
  intros Htot Hbatch. unfold per_batch.
  do 3 (rewrite bind_eq; cbn [emit add_task]). rewrite bind_eq.
  match goal with |- context [for_each _ _ _ ?s] => set (st0 := s) end.
  destruct (batch_loop_bars E j output_dir log_dir file_total
              (split_input_folder E input_folder ("temp/" +:+ pretty (clock E))
                 (extended E (TYPE (j_mode j) (j_type j))) (j_batch j)
                 (j_pattern j) (j_limit j))
              (Counters 0 0 (j_batch j)) st0
              (Bar file_total 0 false [0]) (bars st))
    as (b' & Hb' & Hs' & Ht'); auto.
  - by apply bar_sound_new.
  - exists b'. split_and!; [| exact Hs' | exact Ht'].
    destruct (for_each _ _ _ st0) as [[c|e] st1]; simpl in Hb'.
    + rewrite !bind_eq. cbn [emit]. simpl. exact Hb'.
    + simpl. exact Hb'.
Qed.

Lemma clamp_total_ge limit n :
  0 ≤ limit → 0 ≤ n → clamp_total limit n ≠ 0 → 1 ≤ clamp_total limit n.
Proof.
  unfold clamp_total. intros Hl Hn.
  destruct (Z.eqb_spec limit 0), (Z.ltb_spec limit n); cbn; lia.
Qed.

Lemma scan_task_error_is_caught_witness :
  ∃ st',
    scan_task (sample_env ["data/a.png"] scan_raises no_fault) sample_task start
      = (Ok VNone, st') ∧
    log_entries (fs st') "out/log.json" =
      [[("file", VStr "data/a.png"); ("task error", VStr "engine failure")]].
Proof.
  destruct (scan_task_error_is_caught
              (sample_env ["data/a.png"] scan_raises no_fault) sample_task
              (Exception "engine failure") start)
    as (st' & Hrun & _ & _ & Hlog & _).
  - reflexivity.
  - exists st'. split; [exact Hrun | exact Hlog].
Defined.

Lemma no_input_no_artifacts_witness :
  (run (sample_env [] scan_scores no_fault) (sample_job "face" "ofiq" 5 30) start).1
    = Ok tt ∧
  fs (run (sample_env [] scan_scores no_fault) (sample_job "face" "ofiq" 5 30) start).2
    = ∅.
Proof.
  rewrite (no_input_no_artifacts (sample_env [] scan_scores no_fault)
             (sample_job "face" "ofiq" 5 30) start);
    [split; reflexivity | reflexivity | reflexivity].
Defined.


(** ** The counters of the per-batch loop *)

Lemma batch_step_outcome E j output_dir log_dir file_total folder c st c' st' :
  batch_step E j output_dir log_dir file_total folder c st = (Ok c', st') →
  ∃ ok, c' = (tally file_total c ok).1.
Proof.
  unfold batch_step. rewrite bind_eq. cbn [emit].
  set (st1 := MkState _ _ _ _). rewrite bind_eq.
  destruct (poll_until_ready E _ st1) as [[r|e] st2]; [|discriminate].
  rewrite bind_eq.
  destruct (ray_get_ready _ r st2) as [[v|e] st3]; [|discriminate].
  exists (truthy v).
  destruct (tally file_total c (truthy v)) as [c1 [a|]].
  - rewrite bind_eq in H. unfold p_update_advance in H.
    rewrite update_bar_ok in H. by inversion H.
  - by inversion H.
Qed.

Lemma batch_loop_outcomes E j output_dir log_dir file_total :
  ∀ folders c st c' st',
    for_each folders c (batch_step E j output_dir log_dir file_total) st
      = (Ok c', st') →
    ∃ outcomes,
      length outcomes = length folders ∧
      c' = tally_all file_total outcomes c.
Proof.
  induction folders as [|folder folders IH]; intros c st c' st' Hrun.
  - exists []. inversion Hrun. by split.
  - cbn [for_each] in Hrun. rewrite bind_eq in Hrun.
    destruct (batch_step E j output_dir log_dir file_total folder c st)
      as [[c1|e] st1] eqn:Hstep; [|discriminate].
    destruct (batch_step_outcome _ _ _ _ _ _ _ _ _ _ Hstep) as [ok ->].
    destruct (IH _ _ _ _ Hrun) as (outcomes & Hlen & ->).
    exists (ok :: outcomes). split; [simpl; by rewrite Hlen | reflexivity].
Qed.

(** As long as every folder but the last holds a full batch, the clip
    can only happen on the last one: the [batch] variable still has its
    configured value [b] whenever a failure is counted. *)
Lemma tally_all_failed file_total b : ∀ outcomes c i,
  0 < b →
  batch c = b →
  file_count c ≤ i * b →
  0 ≤ i →
  (i + Z.of_nat (length outcomes) - 1) * b < file_total →
  failed (tally_all file_total outcomes c) = failed c + b * failures outcomes.
Proof.
  unfold tally_all, failures.
  induction outcomes as [|ok rest IH]; intros c i Hb Hbatch Hcount Hi Hfull.
  - simpl. lia.
  - cbn [fold_left]. destruct ok; unfold tally at 2; cbn [fst].
    + destruct (Z.ltb_spec file_total (file_count c + batch c)) as [Hclip|Hfit].
      * destruct rest as [|ok' rest'].
        -- cbn. lia.
        -- exfalso. cbn [length] in Hfull. nia.
      * cbn [List.filter negb].
        rewrite (IH _ (i + 1));
          cbn [fst failed batch file_count length] in *;
          rewrite ?Nat2Z.inj_succ in *; nia.
    + cbn [List.filter negb length].
      rewrite (IH _ (i + 1));
        cbn [fst failed batch file_count length] in *;
        rewrite ?Nat2Z.inj_succ in *; nia.
Qed.

(** A speech job over three files in batches of two whose two batches
    both fail: nothing is processed and the sealed log records four
    failures, more than the job total. *)
Lemma failed_exceeds_job_total :
  let E := sample_env ["data/a.wav"; "data/b.wav"; "data/c.wav"]
             scan_raises no_fault in
  let j := sample_job "speech" "obqe" 0 2 in
  let r := run E j start in
  r.1 = Ok tt ∧
  effective_total E j = 3 ∧
  length (submitted_tasks (out r.2)) = 2%nat ∧
  sealed_metadata (fs r.2) "out/log_speech_obqe_3-11-2026_9-30-0.json" "failed"
    = Some (VInt 4) ∧
  sealed_metadata (fs r.2) "out/log_speech_obqe_3-11-2026_9-30-0.json" "processed"
    = Some (VInt 0).
Proof. vm_compute. split_and!; reflexivity. Qed.

(** ** The finalizer *)

(** From dispatch on, a job with usable input is [dispatch] followed by
    [finalize], started after the job-info panel has been printed and the
    two artifacts created empty. *)
Lemma run_dispatched (E : Env) (j : Job) (st : State) :
  path_exists E (j_input_folder j) = true →
  effective_total E j ≠ 0 →
  run E j st =
    (dispatch E j ≫=
     finalize E j (job_input E j) (job_output_dir E j) (job_log_dir E j))
      (dispatch_state E j st).
Proof.
  intros Hex Hz. apply Z.eqb_neq in Hz.
  unfold effective_total, input_count in Hz.
  unfold dispatch, dispatch_state, dispatch_trace, effective_total,
    input_count, job_files, job_log_dir, job_output_dir, job_input.
  unfold run, matching_files, write_csv_init, write_log_init.
  rewrite Hex. cbn [negb].
  destruct (j_debug j), (j_limit j =? 0); cbn [negb when];
    repeat (rewrite bind_eq;
            cbn [emit mret M_ret get_fs set_fs fs out bars tick]);
    rewrite Hz;
    repeat (rewrite bind_eq;
            cbn [emit mret M_ret get_fs set_fs fs out bars tick]);
    cbn [app]; rewrite <- ?app_assoc; cbn [app]; reflexivity.
Qed.

Lemma try_except_eq {A} (m : M A) (h : exn → M A) (st : State) :
  try_except m h st =
  match m st with
  | (Ok a, st') => (Ok a, st')
  | (Err e, st') => h e st'
  end.
Proof. reflexivity. Qed.

(** Symbolic execution of the straight-line part of a computation. *)
Ltac mrun :=
  repeat (rewrite ?bind_eq, ?try_except_eq;
          cbn [emit mret M_ret raise lift_res get_fs set_fs
               fs out bars tick when]).

Lemma emit_eq e st :
  emit e st = (Ok tt, MkState (out st ++ [e]) (fs st) (bars st) (tick st)).
Proof. reflexivity. Qed.

(** The log cannot be sealed or read back: the handler prints its
    warning and [failed_count] is left unbound. *)
Lemma seal_log_unbound E j input_folder log_dir c st :
  fault E FSeal ≠ None ∨ fault E FReload ≠ None →
  ∃ msg st1,
    seal_log E j input_folder log_dir c st = (Ok None, st1) ∧
    out st1 = out st ++ [EvEcho ("failed to reload metadata for log: " +:+ msg)] ∧
    bars st1 = bars st.
Proof.
  intros Hfault. unfold seal_log, write_log_finish, json_load, reload_failed.
  destruct (fault E FSeal) as [msg|] eqn:Hseal.
  - exists msg. mrun. eexists. split_and!; reflexivity.
  - destruct (fault E FReload) as [msg|] eqn:Hreload;
      [|destruct Hfault; congruence].
    exists msg. mrun.
    destruct (fs st !! log_dir) as [[| | |]|]; mrun;
      eexists; split_and!; reflexivity.
Qed.

Lemma write_log_finish_ok E path st :
  fault E FSeal = None →
  write_log_finish E path st =
    (Ok tt, MkState (out st)
              (<[path := LogFile (log_entries (fs st) path) true]> (fs st))
              (bars st) (tick st)).
Proof.
  intros Hseal. unfold write_log_finish, log_entries. rewrite Hseal. mrun.
  by destruct (fs st !! path) as [[| | |]|].
Qed.

Lemma json_load_sealed E path st es :
  fault E FReload = None →
  fs st !! path = Some (LogFile es true) →
  json_load E path st = (Ok es, st).
Proof.
  intros Hreload Hlog. unfold json_load. rewrite Hreload. mrun.
  by rewrite Hlog.
Qed.

Lemma log_metadata_fields E j input_folder file_count n fc :
  let m := dict_set "failed" (VInt fc)
             (dict_set "log" (VInt n)
                (log_metadata E j input_folder file_count)) in
  dict_get "failed" m = Some (VInt fc) ∧
  dict_get "processed" m = Some (VInt file_count).
Proof.
  unfold log_metadata.
  destruct (String.eqb (j_engine j) "fusion"); split; reflexivity.
Qed.

(** The log is sealed and read back: [failed_count] is bound to the
    number of entries with the load-image marker, or to the count the
    dispatch loop tracked when that is not zero. *)
Lemma seal_log_bound E j input_folder log_dir c st :
  fault E FSeal = None →
  fault E FReload = None →
  ∃ st1,
    seal_log E j input_folder log_dir c st =
      (Ok (Some (recomputed_failed c (log_entries (fs st) log_dir))), st1) ∧
    emitted is_warning st st1 ∧
    bars st1 = bars st ∧
    (fault E FRewrite = None →
     ∃ m, fs st1 !! log_dir =
            Some (JsonFile
                    (VDict [("metadata", VDict m);
                            ("log", VList (map VDict (log_entries (fs st) log_dir)))])) ∧
          dict_get "failed" m =
            Some (VInt (recomputed_failed c (log_entries (fs st) log_dir))) ∧
          dict_get "processed" m = Some (VInt (file_count c))).
Proof.
  intros Hseal Hreload.
  unfold seal_log, recomputed_failed.
  set (es := log_entries (fs st) log_dir).
  rewrite bind_eq, try_except_eq, bind_eq, (write_log_finish_ok E log_dir st Hseal).
  fold es. rewrite bind_eq.
  rewrite (json_load_sealed E log_dir _ es Hreload)
    by (cbn [fs]; apply lookup_insert_eq).
  cbn [mret M_ret]. rewrite bind_eq, try_except_eq.
  unfold json_dump, reload_failed.
  destruct (fault E FRewrite) as [msg|] eqn:Hrewrite; mrun.
  - eexists. split_and!; [reflexivity | | reflexivity | discriminate].
    eexists [_]. split; [reflexivity | by repeat constructor].
  - eexists. split_and!; [reflexivity | by apply emitted_silent | reflexivity |].
    intros _. cbn [fs]. rewrite lookup_insert_eq. eexists. split; [reflexivity|].
    apply log_metadata_fields.
Qed.

Lemma emitted_warning msg st f b t :
  emitted is_warning st (MkState (out st ++ [EvEcho msg]) f b t).
Proof. exists [EvEcho msg]. split; [reflexivity | by repeat constructor]. Qed.

Lemma seam_output_ok E output_dir st :
  ∃ st', seam_output E output_dir st = (Ok tt, st') ∧
         emitted is_warning st st' ∧ bars st' = bars st ∧
         ∀ q, output_dir ≠ Some q → fs st' !! q = fs st !! q.
Proof.
  unfold seam_output, write_csv_seam, when. rewrite try_except_eq.
  destruct output_dir as [o|]; [|exists st; split_and!; auto using emitted_refl].
  destruct (truthy_str o); [|exists st; split_and!; auto using emitted_refl].
  destruct (fault E FSeam) as [msg|]; mrun.
  - eexists. split_and!; try reflexivity. apply emitted_warning.
  - destruct (fs st !! o) as [[| | |]|]; mrun; eexists;
      (split_and!; [reflexivity | by apply emitted_silent | reflexivity |]);
      intros q Hq; cbn [fs]; apply lookup_insert_ne; congruence.
Qed.

(** The report block always leaves a value in [report_dir]: [None] when
    the table reference was nulled, when no report was asked for, and
    when report generation failed, in which case a warning is printed. *)
Lemma report_views_ok E j output_dir st :
  ∃ v st',
    report_views E j output_dir st = (Ok v, st') ∧
    emitted is_warning st st' ∧
    (bars st' = bars st ∧ fs st' = fs st) ∧
    (output_dir = None ∨ j_reporting j = false → v = VNone) ∧
    (∀ o e, output_dir = Some o → truthy_str o = true → j_reporting j = true →
            generate_report E o (j_cwd j) (j_prefix j) = Err e →
            v = VNone ∧
            out st' = out st ++ [EvEcho ("failed to generate report: " +:+ str_exn e)]).
Proof.
  unfold report_views. rewrite try_except_eq.
  destruct output_dir as [o|].
  2:{ exists VNone, st. split_and!; auto using emitted_refl. intros; discriminate. }
  destruct (truthy_str o) eqn:Ho, (j_reporting j) eqn:Hr; cbn [andb].
  2-4: exists VNone, st; split_and!; auto using emitted_refl; intros; congruence.
  rewrite bind_eq. unfold lift_res.
  destruct (generate_report E o (j_cwd j) (j_prefix j)) as [dir|e] eqn:Hgen.
  - destruct (views dir "Preview Table" "table" "EDA Report" "report") as [v|e].
    + exists v, st. split_and!; auto using emitted_refl.
      * intros [?|?]; discriminate.
      * intros o' e Heq _ _ He. inversion Heq; subst. congruence.
    + mrun. eexists VNone, _.
      split_and!; try reflexivity; auto using emitted_warning.
      intros o' e' Heq _ _ He. inversion Heq; subst. congruence.
  - mrun. eexists VNone, _.
    split_and!; try reflexivity; auto using emitted_warning.
    intros o' e' Heq _ _ He. inversion Heq; subst. rewrite Hgen in He.
    inversion He; subst.
    split; reflexivity.
Qed.

Lemma filter_views_ok E j output_dir st :
  ∃ v st',
    filter_views E j output_dir st = (Ok v, st') ∧
    emitted is_warning st st' ∧
    (bars st' = bars st ∧ fs st' = fs st) ∧
    (output_dir = None → v = VNone) ∧
    (∀ o e, output_dir = Some o → truthy_str o = true →
            truthy_str (j_attributes j) || truthy_str (j_query j) ||
              truthy_str (j_sort j) = true →
            filter_output E o (j_attributes j) (j_query j) (j_sort j)
              (j_cwd j) (j_prefix j) = Err e →
            v = VNone ∧
            out st' = out st ++ [EvEcho ("failed to apply filter: " +:+ str_exn e)]).
Proof.
  unfold filter_views. rewrite try_except_eq.
  destruct output_dir as [o|].
  2:{ exists VNone, st. split_and!; auto using emitted_refl. intros; discriminate. }
  destruct (truthy_str o) eqn:Ho;
    destruct (truthy_str (j_attributes j) || truthy_str (j_query j) ||
              truthy_str (j_sort j)) eqn:Hq; cbn [andb].
  2-4: exists VNone, st; split_and!; auto using emitted_refl;
       try discriminate; intros; congruence.
  rewrite bind_eq. unfold lift_res.
  destruct (filter_output E o (j_attributes j) (j_query j) (j_sort j)
              (j_cwd j) (j_prefix j)) as [dir|e] eqn:Hgen.
  - destruct (views dir "Output" "output" "Report" "report") as [v|e].
    + exists v, st. split_and!; auto using emitted_refl.
      * intros; discriminate.
      * intros o' e Heq _ _ He. inversion Heq; subst. congruence.
    + mrun. eexists VNone, _.
      split_and!; try reflexivity; auto using emitted_warning.
      intros o' e' Heq _ _ He. inversion Heq; subst. congruence.
  - mrun. eexists VNone, _.
    split_and!; try reflexivity; auto using emitted_warning.
    intros o' e' Heq _ _ He. inversion Heq; subst. rewrite Hgen in He.
    inversion He; subst.
    split; reflexivity.
Qed.

Lemma print_summary_ok E s st :
  elapsed_us E ≠ 0 →
  print_summary E s st =
    (Ok tt, MkState (out st ++ closing s) (fs st) (bars st) (tick st)).
Proof.
  intros Hz. apply Z.eqb_neq in Hz. unfold print_summary, closing.
  rewrite Hz. unfold mbind, M_bind, mret, M_ret, emit. cbn.
  rewrite <- !app_assoc. reflexivity.
Qed.

(** Finalization with [failed_count] unbound: the job dies on the
    comparison that follows the first [try]. *)
Lemma finalize_unbound E j input_folder output_dir log_dir c st :
  fault E FSeal ≠ None ∨ fault E FReload ≠ None →
  ∃ msg st1,
    finalize E j input_folder output_dir log_dir c st =
      (Err (UnboundLocalError "failed_count"), st1) ∧
    out st1 = out st ++ [EvEcho ("failed to reload metadata for log: " +:+ msg)].
Proof.
  intros Hfault.
  destruct (seal_log_unbound E j input_folder log_dir c st Hfault)
    as (msg & st1 & Hseal & Hout & _).
  exists msg, st1. unfold finalize. rewrite bind_eq, Hseal. by split.
Qed.

(** Finalization with the log read back: the job ends with the summary
    and the termination signal. *)
Lemma finalize_summary E j input_folder output_dir log_dir c st :
  fault E FSeal = None →
  fault E FReload = None →
  elapsed_us E ≠ 0 →
  let failed_count := recomputed_failed c (log_entries (fs st) log_dir) in
  ∃ st' warnings report_dir outlier_filter,
    finalize E j input_folder output_dir log_dir c st = (Ok tt, st') ∧
    out st' = out st ++ warnings ++
      closing (summary E input_folder log_dir (file_count c)
                 (nulled c failed_count output_dir) report_dir outlier_filter) ∧
    Forall is_warning warnings ∧
    (nulled c failed_count output_dir = None ∨ j_reporting j = false →
     report_dir = VNone) ∧
    (fault E FRewrite = None → output_dir ≠ log_dir →
     ∃ m logs, fs st' !! log_dir =
                 Some (JsonFile (VDict [("metadata", VDict m); ("log", logs)])) ∧
               dict_get "failed" m = Some (VInt failed_count) ∧
               dict_get "processed" m = Some (VInt (file_count c))).
Proof.
  intros Hseal Hreload Hz fc.
  destruct (seal_log_bound E j input_folder log_dir c st Hseal Hreload)
    as (st1 & Hs & (w1 & Ho1 & Hw1) & _ & Hlog).
  destruct (seam_output_ok E (nulled c fc output_dir) st1)
    as (st2 & Hseam & (w2 & Ho2 & Hw2) & _ & Hfs2).
  destruct (report_views_ok E j (nulled c fc output_dir) st2)
    as (report_dir & st3 & Hrep & (w3 & Ho3 & Hw3) & [_ Hfs3] & Hnull & _).
  destruct (filter_views_ok E j (nulled c fc output_dir) st3)
    as (outlier_filter & st4 & Hfil & (w4 & Ho4 & Hw4) & [_ Hfs4] & _ & _).
  eexists _, (w1 ++ w2 ++ w3 ++ w4), report_dir, outlier_filter.
  split_and!.
  - unfold finalize. rewrite bind_eq, Hs, bind_eq. cbn [mret M_ret].
    fold fc. rewrite bind_eq, Hseam, bind_eq, Hrep, bind_eq, Hfil.
    apply print_summary_ok, Hz.
  - cbn [out]. rewrite Ho4, Ho3, Ho2, Ho1. by rewrite <- !app_assoc.
  - by repeat (apply Forall_app; split).
  - exact Hnull.
  - intros Hrw Hne. destruct (Hlog Hrw) as (m & Hf & Hfailed & Hproc).
    exists m, (VList (map VDict (log_entries (fs st) log_dir))).
    split_and!; auto. cbn [fs].
    rewrite Hfs4, Hfs3, Hfs2; [exact Hf|].
    unfold nulled. destruct (file_count c =? fc); congruence.
Qed.

(** ** C3: failures during finalization *)

(** What does hold: a failing report generator or filter is caught,
    printed as a warning, and leaves the reference null. *)
Lemma report_failure_is_caught E j o e st :
  truthy_str o = true → j_reporting j = true →
  generate_report E o (j_cwd j) (j_prefix j) = Err e →
  ∃ st', report_views E j (Some o) st = (Ok VNone, st') ∧
         out st' = out st ++ [EvEcho ("failed to generate report: " +:+ str_exn e)].
Proof.
  intros Ho Hr Hgen.
  destruct (report_views_ok E j (Some o) st) as (v & st' & Hrun & _ & _ & _ & Hfail).
  destruct (Hfail o e eq_refl Ho Hr Hgen) as [-> Hout].
  by exists st'.
Qed.

Lemma filter_failure_is_caught E j o e st :
  truthy_str o = true →
  truthy_str (j_attributes j) || truthy_str (j_query j) || truthy_str (j_sort j)
    = true →
  filter_output E o (j_attributes j) (j_query j) (j_sort j) (j_cwd j) (j_prefix j)
    = Err e →
  ∃ st', filter_views E j (Some o) st = (Ok VNone, st') ∧
         out st' = out st ++ [EvEcho ("failed to apply filter: " +:+ str_exn e)].
Proof.
  intros Ho Hq Hgen.
  destruct (filter_views_ok E j (Some o) st) as (v & st' & Hrun & _ & _ & _ & Hfail).
  destruct (Hfail o e eq_refl Ho Hq Hgen) as [-> Hout].
  by exists st'.
Qed.

(** C3 (the code on the failing input).  One scored file, and the log
    cannot be read back after it was sealed: the warning of the first
    handler is the last thing the job prints; the job then dies with
    [UnboundLocalError] on [failed_count]; no summary is printed. *)
Theorem reload_failure_aborts_job :
  let r := run (sample_env ["data/a.png"] scan_scores reload_fault)
               (sample_job "iris" "obqe" 0 30) start in
  r.1 = Err (UnboundLocalError "failed_count") ∧
  last (out r.2) =
    Some (EvEcho "failed to reload metadata for log: Expecting value: line 1 column 1 (char 0)") ∧
  printed (out r.2) = [].
Proof. vm_compute. split_and!; reflexivity. Qed.

(** ** C8: the final summary *)

(** Two jobs over the same two files, one with a file that cannot be
    loaded: the sealed logs record 1 and 0 failures, the printed
    summaries are the same object, whose entries are the process time,
    the throughput and the assessment task with the processed count,
    the input and the three artifacts. *)
Lemma summary_omits_failed_count :
  let files := ["data/a.png"; "data/b.png"] in
  let j := sample_job "iris" "obqe" 0 30 in
  let ra := run (sample_env files scan_mixed no_fault) j start in
  let rb := run (sample_env files scan_scores no_fault) j start in
  ra.1 = Ok tt ∧ rb.1 = Ok tt ∧
  sealed_metadata (fs ra.2) sample_log "failed" = Some (VInt 1) ∧
  sealed_metadata (fs rb.2) sample_log "failed" = Some (VInt 0) ∧
  printed (out ra.2) = printed (out rb.2) ∧
  ∃ s task,
    printed (out ra.2) = [VDict s] ∧
    dict_keys s = ["Total process time"; "System throughput"; "Assessment Task"] ∧
    dict_get "Assessment Task" s = Some (VDict task) ∧
    dict_keys task = ["Processed"; "Input"; "Output"; "Report"; "Log"].
Proof.
  vm_compute. split_and!; try reflexivity.
  eexists _, _. split_and!; reflexivity.
Qed.

Lemma summary_fields E input_folder log_dir file_count output_dir report_dir
    outlier_filter :
  let s := summary E input_folder log_dir file_count output_dir report_dir
             outlier_filter in
  dict_get "Total process time" s = Some (VStr (process_time E)) ∧
  dict_get "System throughput" s =
    Some (VStr (fmt_rate E file_count (elapsed_us E) +:+ " it/s")) ∧
  dict_get "Assessment Task" s =
    Some (VDict [("Processed", VInt file_count);
                 ("Input", VStr input_folder);
                 ("Output", opt_str output_dir);
                 ("Report", report_dir);
                 ("Log", VStr log_dir)]) ∧
  (dict_keys s = ["Total process time"; "System throughput"; "Assessment Task"] ∨
   dict_keys s = ["Total process time"; "System throughput"; "Assessment Task";
                  "Outlier Filter"]).
Proof.
  unfold summary. destruct (truthy outlier_filter); split_and!;
    try reflexivity; [right | left]; reflexivity.
Qed.

(** C8 (amended).  When the job reaches finalization, the log is sealed
    and read back, and the elapsed time is not zero, finalization ends
    normally and the last three things printed are the summary heading,
    the summary object and the termination signal, preceded only by
    warnings.  The summary holds the process time, the throughput, and the
    assessment task made of exactly the processed count, the input
    folder and the table, report and log references.  It holds no failed
    count. *)
Theorem final_summary_shape (E : Env) (j : Job)
    (input_folder output_dir log_dir : string) (c : counters) (st : State) :
  fault E FSeal = None →
  fault E FReload = None →
  elapsed_us E ≠ 0 →
  ∃ st' warnings s output report,
    finalize E j input_folder output_dir log_dir c st = (Ok tt, st') ∧
    out st' = out st ++ warnings ++
              [EvPrint "> Summary:"; EvPrintJson (VDict s);
               EvPrint ">> Task Finished <<"] ∧
    Forall is_warning warnings ∧
    dict_get "Total process time" s = Some (VStr (process_time E)) ∧
    dict_get "System throughput" s =
      Some (VStr (fmt_rate E (file_count c) (elapsed_us E) +:+ " it/s")) ∧
    dict_get "Assessment Task" s =
      Some (VDict [("Processed", VInt (file_count c));
                   ("Input", VStr input_folder);
                   ("Output", output);
                   ("Report", report);
                   ("Log", VStr log_dir)]) ∧
    (output = VStr output_dir ∨ output = VNone) ∧
    dict_get "Failed" s = None.
Proof.
  intros Hseal Hreload Hz.
  destruct (finalize_summary E j input_folder output_dir log_dir c st
              Hseal Hreload Hz)
    as (st' & warnings & report & filt & Hrun & Hout & Hw & _ & _).
  set (fc := recomputed_failed c (log_entries (fs st) log_dir)) in *.
  destruct (summary_fields E input_folder log_dir (file_count c)
              (nulled c fc output_dir) report filt) as (H1 & H2 & H3 & H4).
  eexists st', warnings, _, (opt_str (nulled c fc output_dir)), report.
  split_and!; eauto.
  - unfold nulled. destruct (file_count c =? fc); [right | left]; reflexivity.
  - unfold summary. by destruct (truthy filt).
Qed.

Lemma final_summary_shape_witness :
  ∃ st' s,
    finalize (sample_env ["data/a.png"] scan_scores no_fault)
      (sample_job "iris" "obqe" 0 30) "data/" sample_output sample_log
      (Counters 1 0 30) start = (Ok tt, st') ∧
    printed (out st') = [VDict s] ∧
    dict_get "Failed" s = None.
Proof.
  destruct (final_summary_shape (sample_env ["data/a.png"] scan_scores no_fault)
              (sample_job "iris" "obqe" 0 30) "data/" sample_output sample_log
              (Counters 1 0 30) start)
    as (st' & warnings & s & output & report & Hrun & Hout & Hw & _ & _ & _ & _ & Hf);
    [reflexivity | reflexivity | discriminate |].
  exists st', s. split_and!; [exact Hrun | | exact Hf].
  rewrite Hout. cbn [out start app].
  clear Hrun Hout. induction Hw as [|e w He _ IH]; [reflexivity|].
  destruct e; simpl in He; try contradiction. exact IH.
Defined.

(** ** C4: the limit caps the number of submitted units *)

Lemma printed_app a b : printed (a ++ b) = printed a ++ printed b.
Proof.
  induction a as [|e a IH]; [reflexivity|].
  destruct e; simpl; rewrite ?IH; reflexivity.
Qed.

Lemma quiet_nothing evs :
  Forall quiet evs → submitted_tasks evs = [] ∧ printed evs = [].
Proof.
  induction 1 as [|e evs [He1 He2] _ [IH1 IH2]]; [by split|].
  destruct e; simpl in *; try contradiction; by split.
Qed.

Lemma warnings_quiet evs : Forall is_warning evs → Forall quiet evs.
Proof.
  intros Hw. eapply Forall_impl; [exact Hw|].
  intros [] H; simpl in H; try contradiction. by split.
Qed.

Lemma submitted_tasks_submits ts : submitted_tasks (map EvSubmit ts) = ts.
Proof. induction ts as [|t ts IH]; simpl; by rewrite ?IH. Qed.

Lemma printed_submits ts : printed (map EvSubmit ts) = [].
Proof. induction ts as [|t ts IH]; simpl; by rewrite ?IH. Qed.

Lemma dispatch_trace_quiet E j :
  submitted_tasks (dispatch_trace E j) = [] ∧ printed (dispatch_trace E j) = [].
Proof.
  unfold dispatch_trace. destruct (j_debug j), (j_limit j =? 0); by split.
Qed.

Lemma drain_quiet E file_total tasks st :
  emitted quiet st (drain E file_total tasks st).2.
Proof.
  apply (preserves_drain (emitted quiet) quiet).
  - apply emitted_refl.
  - apply emitted_trans.
  - apply emitted_emit.
  - apply emitted_set_fs.
  - apply emitted_tick.
  - apply emitted_add_task.
  - apply emitted_update_bar.
  - intros [] H; try destruct H; by split.
  - intros t. by split.
Qed.

(** The per-file policy: the first [k] paths are submitted, [k] being
    the smaller of the number of paths and of the total, then the
    tracker drains them and [file_count] is [k]. *)
Lemma per_file_spec E j output_dir log_dir file_total file_globs st :
  1 ≤ file_total →
  let k := Nat.min (length file_globs) (Z.to_nat file_total) in
  let tasks := map (remote j output_dir log_dir) (take k file_globs) in
  ∃ st1,
    out st1 = out st ++ map EvSubmit tasks ∧
    fs st1 = fs st ∧
    per_file E j output_dir log_dir file_total file_globs st =
      (drain E file_total tasks;; mret (Counters (Z.of_nat k) 0 (j_batch j))) st1.
Proof.
  intros Htot k tasks. unfold per_file. rewrite bind_eq. cbn [add_task].
  set (st0 := MkState _ _ _ _).
  destruct (submit_loop_spec (remote j output_dir log_dir) file_globs [] 0 st0
              (Bar file_total 0 false [0]) (bars st))
    as (st1 & b' & Hrun & Hout & Hfs & _);
    [reflexivity | reflexivity | cbn; lia |].
  cbn [bar_total bar_completed] in Hrun, Hout.
  rewrite Z.sub_0_r in Hrun, Hout. fold k in Hrun, Hout.
  exists st1. split_and!.
  - rewrite Hout. subst tasks. by rewrite map_map.
  - exact Hfs.
  - rewrite bind_eq, Hrun. reflexivity.
Qed.

(** What finalization prints: at most one object, the summary of the
    counters it was given; and it submits nothing. *)
Lemma finalize_printed E j input_folder output_dir log_dir c st :
  ∃ evs,
    out (finalize E j input_folder output_dir log_dir c st).2 = out st ++ evs ∧
    submitted_tasks evs = [] ∧
    (printed evs = [] ∨
     ∃ o r f, printed evs =
                [VDict (summary E input_folder log_dir (file_count c) o r f)]).
Proof.
  destruct (fault E FSeal) as [m1|] eqn:Hseal.
  { destruct (finalize_unbound E j input_folder output_dir log_dir c st)
      as (msg & st1 & Hrun & Hout); [left; congruence|].
    rewrite Hrun. eexists. split_and!; [exact Hout | reflexivity | by left]. }
  destruct (fault E FReload) as [m2|] eqn:Hreload.
  { destruct (finalize_unbound E j input_folder output_dir log_dir c st)
      as (msg & st1 & Hrun & Hout); [right; congruence|].
    rewrite Hrun. eexists. split_and!; [exact Hout | reflexivity | by left]. }
  destruct (Z.eq_dec (elapsed_us E) 0) as [Hz|Hz].
  - destruct (seal_log_bound E j input_folder log_dir c st Hseal Hreload)
      as (st1 & Hs & (w1 & Ho1 & Hw1) & _).
    set (fc := recomputed_failed c (log_entries (fs st) log_dir)) in *.
    destruct (seam_output_ok E (nulled c fc output_dir) st1)
      as (st2 & Hseam & (w2 & Ho2 & Hw2) & _).
    destruct (report_views_ok E j (nulled c fc output_dir) st2)
      as (report_dir & st3 & Hrep & (w3 & Ho3 & Hw3) & _).
    destruct (filter_views_ok E j (nulled c fc output_dir) st3)
      as (outlier_filter & st4 & Hfil & (w4 & Ho4 & Hw4) & _).
    exists (w1 ++ w2 ++ w3 ++ w4 ++ [EvPrint "> Summary:"]).
    assert (Hq : Forall quiet (w1 ++ w2 ++ w3 ++ w4 ++ [EvPrint "> Summary:"])).
    { repeat (apply Forall_app; split); auto using warnings_quiet.
      repeat constructor. }
    destruct (quiet_nothing _ Hq) as [Hsub Hpr].
    split_and!; [|exact Hsub | by left].
    unfold finalize. rewrite bind_eq, Hs, bind_eq. cbn [mret M_ret].
    rewrite bind_eq, Hseam, bind_eq, Hrep, bind_eq, Hfil.
    unfold print_summary. rewrite Hz. cbn [Z.eqb]. mrun.
    rewrite Ho4, Ho3, Ho2, Ho1. by rewrite <- !app_assoc.
  - destruct (finalize_summary E j input_folder output_dir log_dir c st
                Hseal Hreload Hz)
      as (st' & warnings & report & filt & Hrun & Hout & Hw & _).
    rewrite Hrun. eexists. split; [exact Hout|].
    destruct (quiet_nothing _ (warnings_quiet _ Hw)) as [Hsub Hpr].
    rewrite submitted_tasks_app, printed_app, Hsub, Hpr. split; [reflexivity|].
    right. by eexists _, _, _.
Qed.

Lemma processed_count_summary E input_folder log_dir file_count o r f :
  processed_count (VDict (summary E input_folder log_dir file_count o r f))
  = Some (VInt file_count).
Proof. unfold processed_count, summary. by destruct (truthy f). Qed.

(** Under the per-batch policy the units are the batch folders: with
    three matching files, a limit of 2 and batches of 30 the job total is
    2 and one unit is submitted. *)
Lemma batch_policy_submits_folders :
  let E := sample_env ["data/a.wav"; "data/b.wav"; "data/c.wav"]
             scan_scores no_fault in
  let j := sample_job "speech" "obqe" 2 30 in
  0 < j_limit j < input_count E j ∧
  effective_total E j = 2 ∧
  length (submitted_tasks (out (run E j start).2)) = 1%nat.
Proof. vm_compute. split_and!; reflexivity. Qed.

Lemma effective_total_limit E j :
  0 < j_limit j < input_count E j → effective_total E j = j_limit j.
Proof.
  intros [H1 H2]. unfold effective_total, clamp_total.
  destruct (Z.eqb_spec (j_limit j) 0); [lia|].
  destruct (Z.ltb_spec (j_limit j) (input_count E j)); [reflexivity | lia].
Qed.

(** C4 (amended).  With a limit [L], positive and below the number of
    matching files, the job total is [L] under both policies.  Under the
    per-file policy exactly [L] work units are submitted to the pool, one
    for each of the first [L] matching files in enumeration order, and a
    summary printed by the job reports [L] as its processed count. *)
Theorem limit_caps_submissions (E : Env) (j : Job) (st : State) :
  path_exists E (j_input_folder j) = true →
  0 < j_limit j < input_count E j →
  effective_total E j = j_limit j ∧
  (batch_policy (j_mode j) (j_engine j) = false →
   ∃ evs,
     out (run E j st).2 = out st ++ evs ∧
     submitted_tasks evs =
       map (remote j (job_output_dir E j) (job_log_dir E j))
           (take (Z.to_nat (j_limit j)) (job_files E j)) ∧
     Z.of_nat (length (submitted_tasks evs)) = j_limit j ∧
     ∀ v, v ∈ printed evs → processed_count v = Some (VInt (j_limit j))).
Proof.
  intros Hex Hlimit.
  pose proof (effective_total_limit E j Hlimit) as Htotal.
  split; [exact Htotal|]. intros Hpolicy.
  rewrite run_dispatched by (auto; lia).
  unfold dispatch. rewrite Hpolicy, Htotal.
  set (o := job_output_dir E j). set (l := job_log_dir E j).
  set (st0 := dispatch_state E j st).
  destruct (per_file_spec E j o l (j_limit j) (job_files E j) st0)
    as (st1 & Hout1 & _ & Hrun); [lia|].
  assert (Hk : Nat.min (length (job_files E j)) (Z.to_nat (j_limit j))
               = Z.to_nat (j_limit j)).
  { unfold input_count in Hlimit. fold (job_input E j) in Hlimit.
    fold (job_files E j) in Hlimit. lia. }
  rewrite Hk in Hout1, Hrun.
  set (tasks := map (remote j o l) (take (Z.to_nat (j_limit j)) (job_files E j))) in *.
  assert (Hlen : Z.of_nat (length tasks) = j_limit j).
  { subst tasks. rewrite length_map, length_take.
    unfold input_count in Hlimit. fold (job_input E j) in Hlimit.
    fold (job_files E j) in Hlimit. lia. }
  destruct (dispatch_trace_quiet E j) as [Hsub0 Hpr0].
  destruct (drain_quiet E (j_limit j) tasks st1) as (w & Hout2 & Hw).
  destruct (quiet_nothing _ Hw) as [Hsub2 Hpr2].
  rewrite bind_eq, Hrun, bind_eq.
  destruct (drain E (j_limit j) tasks st1) as [[[]|e] st2]; cbn [snd] in Hout2.
  - cbn [mret M_ret].
    destruct (finalize_printed E j (job_input E j) o l
                (Counters (Z.of_nat (Z.to_nat (j_limit j))) 0 (j_batch j)) st2)
      as (w3 & Hout3 & Hsub3 & Hpr3).
    exists (dispatch_trace E j ++ map EvSubmit tasks ++ w ++ w3).
    split_and!.
    + rewrite Hout3, Hout2, Hout1. subst st0. cbn [dispatch_state out].
      by rewrite <- !app_assoc.
    + rewrite !submitted_tasks_app, Hsub0, Hsub2, Hsub3, submitted_tasks_submits.
      by rewrite app_nil_r.
    + rewrite !submitted_tasks_app, Hsub0, Hsub2, Hsub3, submitted_tasks_submits.
      by rewrite app_nil_r.
    + intros v. rewrite !printed_app, Hpr0, Hpr2, printed_submits. cbn [app].
      destruct Hpr3 as [->|(o' & r & f & ->)].
      * intros Hin. by apply elem_of_nil in Hin.
      * intros Hin. apply list_elem_of_singleton in Hin. subst v.
        rewrite processed_count_summary. cbn [file_count].
        repeat f_equal. lia.
  - exists (dispatch_trace E j ++ map EvSubmit tasks ++ w).
    split_and!.
    + cbn [snd]. rewrite Hout2, Hout1. subst st0. cbn [dispatch_state out].
      by rewrite <- !app_assoc.
    + rewrite !submitted_tasks_app, Hsub0, Hsub2, submitted_tasks_submits.
      by rewrite app_nil_r.
    + rewrite !submitted_tasks_app, Hsub0, Hsub2, submitted_tasks_submits.
      by rewrite app_nil_r.
    + intros v. rewrite !printed_app, Hpr0, Hpr2, printed_submits. cbn [app].
      intros Hin. by apply elem_of_nil in Hin.
Qed.

Lemma limit_caps_submissions_witness :
  let E := sample_env ["data/a.png"; "data/b.png"; "data/c.png"]
             scan_scores no_fault in
  let j := sample_job "iris" "obqe" 2 30 in
  effective_total E j = 2 ∧
  ∃ evs,
    out (run E j start).2 = evs ∧
    Z.of_nat (length (submitted_tasks evs)) = 2.
Proof.
  intros E j.
  destruct (limit_caps_submissions E j start) as [Ht Hs];
    [reflexivity | vm_compute; split; reflexivity |].
  split; [exact Ht|].
  destruct (Hs eq_refl) as (evs & Hout & _ & Hlen & _).
  exists evs. split; [exact Hout | exact Hlen].
Defined.

(** ** C2: when every unit fails *)

(** Both units raise in the scoring call: the log holds their two
    task-error entries, the recount finds no load-image marker, the failed
    count is 0 and the summary still points at the output table. *)
Lemma raised_errors_are_not_counted :
  let E := sample_env ["data/a.png"; "data/b.png"] scan_raises no_fault in
  let r := run E (sample_job "iris" "obqe" 0 30) start in
  r.1 = Ok tt ∧
  length (submitted_tasks (out r.2)) = 2%nat ∧
  sealed_metadata (fs r.2) sample_log "log" = Some (VInt 2) ∧
  sealed_metadata (fs r.2) sample_log "failed" = Some (VInt 0) ∧
  ∃ s, printed (out r.2) = [s] ∧
       task_field "Output" s = Some (VStr sample_output).
Proof.
  vm_compute. split_and!; try reflexivity. eexists. split; reflexivity.
Qed.

Lemma append_inv_head (s a b : string) : s +:+ a = s +:+ b → a = b.
Proof. induction s as [|c s IH]; simpl; [done|]. intros [= H]. auto. Qed.

Lemma job_output_ne_log E j : job_output_dir E j ≠ job_log_dir E j.
Proof.
  unfold job_output_dir, job_log_dir, artifact. intros H.
  apply append_inv_head in H. discriminate.
Qed.

Lemma dict_get_set_ne k k' v d :
  k ≠ k' → dict_get k (dict_set k' v d) = dict_get k d.
Proof.
  intros Hne. induction d as [|[k0 v0] d IH]; simpl.
  - destruct (String.eqb_spec k k'); [contradiction | reflexivity].
  - destruct (String.eqb_spec k' k0) as [->|Hk0]; simpl.
    + destruct (String.eqb_spec k k0); [contradiction | reflexivity].
    + destruct (String.eqb_spec k k0); [reflexivity | exact IH].
Qed.

Lemma count_failed_snoc es e :
  load_image_failed e = true → count_failed (es ++ [e]) = count_failed es + 1.
Proof.
  intros He. unfold count_failed. rewrite List.filter_app. simpl.
  rewrite He, length_app. simpl. lia.
Qed.

Lemma csv_append_other f path row q :
  q ≠ path → csv_append path row f !! q = f !! q.
Proof.
  intros Hne. unfold csv_append.
  destruct (f !! path) as [[rs s|es fin|v|]|];
    rewrite lookup_insert_ne by congruence; reflexivity.
Qed.

(** A unit whose file cannot be loaded returns its record and adds one
    marked entry to the log. *)
Lemma scan_task_unloadable E j output_dir log_dir path st :
  batch_policy (j_mode j) (j_engine j) = false →
  output_dir ≠ log_dir →
  unloadable E j path →
  ∃ v st',
    scan_task E (remote j output_dir log_dir path) st = (Ok v, st') ∧
    ∀ n, log_count log_dir n (fs st) → log_count log_dir (S n) (fs st').
Proof.
  intros Hpolicy Hne (d & entry & Hscan & Hlog & Hmark).
  unfold scan_task. cbn [remote t_mode t_engine t_path t_convert t_target
                         t_log_dir t_output_dir t_prefix].
  rewrite Hpolicy, Hscan. mrun.
  unfold py_get. rewrite Hlog. cbn [default]. mrun. cbn [truthy].
  unfold py_pop. rewrite Hlog. mrun. cbn [py_iter]. mrun.
  cbn [for_each]. unfold scan_task_log. cbn [py_update t_path t_log_dir].
  unfold write_log, write_csv. mrun.
  eexists _, _. split; [reflexivity|].
  intros n (es & fin & Hes & Hn). cbn [fs].
  exists (es ++ [dict_set "file" (VStr path) entry]), fin. split.
  - rewrite csv_append_other by (cbn; congruence).
    cbn [remote t_log_dir t_path].
    unfold log_append. rewrite Hes. apply lookup_insert_eq.
  - rewrite count_failed_snoc; [lia|].
    unfold load_image_failed in *. by rewrite dict_get_set_ne.
Qed.

(** An invariant of the artifacts indexed by the number of completed
    tasks is carried along the completions. *)
Lemma ran_invariant E (I : nat → gmap string file → Prop) done st st' :
  ran E done st st' →
  Forall (λ t, ∀ s n, I n (fs s) → I (S n) (fs (scan_task E t s).2)) done →
  ∀ n, I n (fs st) → I (n + length done)%nat (fs st').
Proof.
  induction 1 as [st st' [Hfs _] | t done st st1 st' [Hfs _] _ IH];
    intros HP n Hn.
  - rewrite Hfs. simpl. by rewrite Nat.add_0_r.
  - inversion HP as [|? ? Ht Hdone]; subst.
    replace (n + length (t :: done))%nat with (S n + length done)%nat
      by (simpl; lia).
    apply IH; [exact Hdone|].
    rewrite complete_unfold. cbn [snd emit fs].
    apply Ht. by rewrite Hfs.
Qed.

(** Tasks that all return normally resolve to their values. *)
Lemma ray_get_ok E ts : ∀ st,
  Forall (λ t, ∀ s, ∃ v, (scan_task E t s).1 = Ok v) ts →
  ∃ vs, (ray_get E ts st).1 = Ok vs.
Proof.
  intros st Hts. unfold ray_get. rewrite bind_eq. cbn [emit].
  set (st1 := MkState _ _ _ _). clearbody st1. clear st.
  assert (H : ∃ rs st', complete_all E ts st1 = (Ok rs, st') ∧
                        ∃ vs, resolve rs = Ok vs).
  { revert st1. induction Hts as [|t ts Ht _ IH]; intros st1.
    - exists [], st1. split; [reflexivity | by exists []].
    - cbn [complete_all]. rewrite bind_eq, complete_unfold.
      destruct (Ht st1) as [v Hv]. rewrite Hv.
      set (st2 := (emit _ _).2).
      destruct (IH st2) as (rs & st' & Hall & vs & Hres).
      rewrite bind_eq, Hall. exists (Ok v :: rs), st'.
      split; [reflexivity|]. exists (v :: vs). simpl. by rewrite Hres. }
  destruct H as (rs & st' & Hall & vs & Hres).
  rewrite bind_eq, Hall. exists vs. unfold lift_res. exact Hres.
Qed.

Lemma drain_units_ok E file_total tasks st :
  Forall (λ t, ∀ s, ∃ v, (scan_task E t s).1 = Ok v) tasks →
  (drain E file_total tasks st).1 = Ok tt.
Proof.
  intros Hok.
  destruct (drain_spec E file_total tasks st)
    as (rest & st1 & done & Hexit & _ & _ & Hperm & _ & _).
  assert (Hrest : Forall (λ t, ∀ s, ∃ v, (scan_task E t s).1 = Ok v) rest).
  { rewrite Hperm in Hok. by apply Forall_app in Hok as [_ ?]. }
  destruct (ray_get_ok E rest st1 Hrest) as [vs Hvs].
  rewrite drain_unfold, bind_eq, Hexit, bind_eq.
  destruct (ray_get E rest st1) as [[vs'|e] st2]; [reflexivity | discriminate].
Qed.

Lemma input_count_nonneg E j : 0 ≤ input_count E j.
Proof. unfold input_count. lia. Qed.

(** What the recount does count: under the per-file policy, when the
    scoring engine reports for every matching file one log entry with the
    load-image marker (and nothing fails in finalization), the job ends
    normally, the failure count recomputed from the log and written to
    its metadata is the number of submitted units, which is also the
    processed count of the summary, and both the output-table reference
    and the report reference of the summary are null. *)
Theorem all_unloadable_nulls_artifacts (E : Env) (j : Job) (st : State) :
  path_exists E (j_input_folder j) = true →
  batch_policy (j_mode j) (j_engine j) = false →
  0 ≤ j_limit j →
  effective_total E j ≠ 0 →
  (∀ p, fault E p = None) →
  elapsed_us E ≠ 0 →
  (∀ path, path ∈ job_files E j → unloadable E j path) →
  ∃ st' evs s,
    run E j st = (Ok tt, st') ∧
    out st' = out st ++ evs ∧
    printed evs = [s] ∧
    sealed_metadata (fs st') (job_log_dir E j) "failed"
      = Some (VInt (Z.of_nat (length (submitted_tasks evs)))) ∧
    processed_count s = Some (VInt (Z.of_nat (length (submitted_tasks evs)))) ∧
    task_field "Output" s = Some VNone ∧
    task_field "Report" s = Some VNone.
Proof.
  intros Hex Hpolicy Hlimit Htot Hfault Hz Hbad.
  rewrite run_dispatched by auto.
  unfold dispatch. rewrite Hpolicy.
  set (o := job_output_dir E j). set (l := job_log_dir E j).
  set (st0 := dispatch_state E j st).
  assert (Hne : o ≠ l) by apply job_output_ne_log.
  assert (Hge : 1 ≤ effective_total E j).
  { apply clamp_total_ge; auto using input_count_nonneg. }
  destruct (per_file_spec E j o l (effective_total E j) (job_files E j) st0 Hge)
    as (st1 & Hout1 & Hfs1 & Hrun).
  set (k := Nat.min (length (job_files E j)) (Z.to_nat (effective_total E j))) in *.
  set (tasks := map (remote j o l) (take k (job_files E j))) in *.
  assert (Hgood : Forall (λ t, ∀ s, ∃ v st',
                    scan_task E t s = (Ok v, st') ∧
                    ∀ n, log_count l n (fs s) → log_count l (S n) (fs st')) tasks).
  { subst tasks. apply Forall_map. apply Forall_forall. intros path Hin s.
    apply scan_task_unloadable; auto.
    apply Hbad. eapply elem_of_sublist; [exact Hin | apply sublist_take]. }
  assert (Hok : Forall (λ t, ∀ s, ∃ v, (scan_task E t s).1 = Ok v) tasks).
  { eapply Forall_impl; [exact Hgood|]. intros t Ht s.
    destruct (Ht s) as (v & st' & Hs & _). exists v. by rewrite Hs. }
  assert (Hinv : Forall (λ t, ∀ s n, log_count l n (fs s) →
                              log_count l (S n) (fs (scan_task E t s).2)) tasks).
  { eapply Forall_impl; [exact Hgood|]. intros t Ht s n.
    destruct (Ht s) as (v & st' & Hs & Hcount). rewrite Hs. apply Hcount. }
  pose proof (drain_units_ok E (effective_total E j) tasks st1 Hok) as Hdok.
  destruct (drain_spec E (effective_total E j) tasks st1)
    as (rest & st1' & done & _ & _ & _ & Hperm & _ & Hran).
  destruct (drain_quiet E (effective_total E j) tasks st1) as (w & Hout2 & Hw).
  rewrite bind_eq in Hrun.
  destruct (drain E (effective_total E j) tasks st1) as [[[]|e] st2];
    [|discriminate]. cbn [snd mret M_ret] in *.
  (* the log after the drain *)
  assert (Hlog : log_count l (length tasks) (fs st2)).
  { rewrite (Permutation_length Hperm).
    apply (ran_invariant E (log_count l) (done ++ rest) st1 st2 Hran) with (n := 0%nat).
    - by rewrite <- Hperm.
    - rewrite Hfs1. subst st0. cbn [dispatch_state fs].
      exists [], false. split; [apply lookup_insert_eq | reflexivity]. }
  assert (Hlen : length tasks = k).
  { subst tasks k. rewrite length_map, length_take. lia. }
  rewrite Hlen in Hlog. destruct Hlog as (es & fin & Hes & Hcount).
  (* finalization *)
  set (c := Counters (Z.of_nat k) 0 (j_batch j)).
  destruct (finalize_summary E j (job_input E j) o l c st2
              (Hfault FSeal) (Hfault FReload) Hz)
    as (st' & warnings & report & filt & Hfin & Hout3 & Hwarn & Hnull & Hmeta).
  assert (Hfc : recomputed_failed c (log_entries (fs st2) l) = Z.of_nat k).
  { unfold recomputed_failed, log_entries. rewrite Hes. exact Hcount. }
  rewrite Hfc in *.
  assert (Hnulled : nulled c (Z.of_nat k) o = None).
  { unfold nulled, c. cbn [file_count]. by rewrite Z.eqb_refl. }
  rewrite Hnulled in *.
  destruct (dispatch_trace_quiet E j) as [Hsub0 Hpr0].
  destruct (quiet_nothing _ Hw) as [Hsub2 Hpr2].
  destruct (quiet_nothing _ (warnings_quiet _ Hwarn)) as [Hsub3 Hpr3].
  set (s := summary E (job_input E j) l (file_count c) None report filt) in *.
  exists st', (dispatch_trace E j ++ map EvSubmit tasks ++ w ++ warnings ++ closing s),
         (VDict s).
  assert (Hsubmitted :
    submitted_tasks (dispatch_trace E j ++ map EvSubmit tasks ++ w ++
                     warnings ++ closing s) = tasks).
  { rewrite !submitted_tasks_app, Hsub0, Hsub2, Hsub3, submitted_tasks_submits.
    cbn. by rewrite app_nil_r. }
  rewrite Hsubmitted, Hlen.
  split_and!.
  - rewrite bind_eq, Hrun. exact Hfin.
  - rewrite Hout3, Hout2, Hout1. subst st0. cbn [dispatch_state out].
    by rewrite <- !app_assoc.
  - rewrite !printed_app, Hpr0, Hpr2, Hpr3, printed_submits. reflexivity.
  - destruct (Hmeta (Hfault FRewrite) Hne) as (m & logs & Hfile & Hfailed & _).
    unfold sealed_metadata. rewrite Hfile. cbn. exact Hfailed.
  - subst s. by rewrite processed_count_summary.
  - subst s. unfold task_field, summary. by destruct (truthy filt).
  - subst s. rewrite Hnull by (by left).
    unfold task_field, summary. by destruct (truthy filt).
Qed.

Lemma all_unloadable_nulls_artifacts_witness :
  let E := sample_env ["data/a.png"; "data/b.png"] scan_unloadable no_fault in
  let j := sample_job "iris" "obqe" 0 30 in
  ∃ st' evs s,
    run E j start = (Ok tt, st') ∧
    out st' = evs ∧
    printed evs = [s] ∧
    task_field "Output" s = Some VNone ∧
    task_field "Report" s = Some VNone.
Proof.
  intros E j.
  destruct (all_unloadable_nulls_artifacts E j start)
    as (st' & evs & s & Hrun & Hout & Hpr & _ & _ & Ho & Hr).
  - reflexivity.
  - reflexivity.
  - simpl. lia.
  - vm_compute. discriminate.
  - intros p. reflexivity.
  - simpl. discriminate.
  - intros path Hin. exists [("file", VStr path);
                             ("log", VList [VDict [("load image", VStr "failed")]])],
      [("load image", VStr "failed")].
    split_and!; reflexivity.
  - exists st', evs, s. split_and!; auto.
Defined.

(** * Further properties of the job *)

(** ** The input directory is missing *)

(** X1.  When the input directory does not exist the job prints the
    "Input directory not found" message and returns: the pool has been
    initialised (unless debugging), but no file is enumerated, no artifact
    is created and nothing is displayed on a bar. *)
Theorem missing_input_directory (E : Env) (j : Job) (st : State) :
  path_exists E (j_input_folder j) = false →
  run E j st =
    (Ok tt, MkState (out st ++ missing_input_trace j) (fs st) (bars st) (tick st)).
Proof.
  intros Hex. unfold run, missing_input_trace, when. rewrite Hex. cbn [negb].
  destruct (j_debug j); cbn [negb]; mrun; rewrite ?emit_eq; cbn [out fs bars tick];
    rewrite <- ?app_assoc; reflexivity.
Qed.

Lemma missing_input_directory_witness :
  let E := {| version := "1.5.3"; path_exists := λ _, false;
              validate_path := λ p, p; extended := λ x, x;
              iter_matching_files := λ _ _ _, ["data/a.png"];
              split_input_folder := λ _ _ _ _ _ _, [];
              scan := scan_scores; fix_filepath := λ r, r;
              reconstruct_filepath := λ r _, r;
              generate_report := λ _ _ _, Ok VNone;
              filter_output := λ _ _ _ _ _ _, Ok VNone;
              today := Datetime 3 11 2026 9 30 0 "2026-11-03 09:30:00";
              clock := 0; elapsed_us := 1; fmt_rate := λ _ _, "0.00";
              sched := λ _, 0%nat; fault := no_fault |} in
  (run E (sample_job "iris" "obqe" 0 30) start).1 = Ok tt ∧
  fs (run E (sample_job "iris" "obqe" 0 30) start).2 = ∅.
Proof.
  intros E.
  rewrite (missing_input_directory E (sample_job "iris" "obqe" 0 30) start eq_refl).
  split; reflexivity.
Defined.

(** ** What a successful unit writes *)

Lemma csv_rows_append f path row :
  csv_rows (csv_append path row f) path = csv_rows f path ++ [row].
Proof.
  unfold csv_rows, csv_append.
  destruct (f !! path) as [[rs s|es fin|v|]|] eqn:Hf;
    rewrite lookup_insert_eq; reflexivity.
Qed.

Lemma log_entries_csv_append f path row q :
  q ≠ path → log_entries (csv_append path row f) q = log_entries f q.
Proof. intros Hne. unfold log_entries. by rewrite csv_append_other. Qed.

Lemma for_each_log_tagged t ls : ∀ st,
  for_each (map VDict ls) tt (scan_task_log t) st =
    (Ok tt, MkState (out st) (log_tagged (t_log_dir t) (t_path t) ls (fs st))
              (bars st) (tick st)).
Proof.
  induction ls as [|e ls IH]; intros st.
  - by destruct st.
  - cbn [map for_each]. rewrite bind_eq.
    change (scan_task_log t (VDict e) tt st)
      with (Ok tt, MkState (out st)
                     (log_append (t_log_dir t)
                        (dict_set "file" (VStr (t_path t)) e) (fs st))
                     (bars st) (tick st)).
    cbv beta iota. rewrite IH. reflexivity.
Qed.

(** X2.  A unit of the per-file policy whose scoring call returns a
    record [d].  Without a (truthy) log the only effect is one row
    appended to the table, the record after path reconstruction.  With a
    log that is a non-empty list of entries, each entry is appended to the
    log, in order, tagged with the file, and the row written is the
    record without its ["log"] key.  In both cases the task returns the
    one-element list holding the row. *)
Theorem scan_task_file_record (E : Env) (t : task) (d : dict) (st : State) :
  batch_policy (t_mode t) (t_engine t) = false →
  scan E (scan_args t) = Ok (VDict d) →
  (truthy (default VNone (dict_get "log" d)) = false →
   let row := reconstruct_filepath E (VDict d) (t_prefix t) in
   scan_task E t st =
     (Ok (VList [row]),
      MkState (out st) (csv_append (t_output_dir t) row (fs st))
        (bars st) (tick st))) ∧
  (∀ e ls, dict_get "log" d = Some (VList (map VDict (e :: ls))) →
   let row := reconstruct_filepath E (VDict (dict_pop "log" d)) (t_prefix t) in
   scan_task E t st =
     (Ok (VList [row]),
      MkState (out st)
        (csv_append (t_output_dir t) row
           (log_tagged (t_log_dir t) (t_path t) (e :: ls) (fs st)))
        (bars st) (tick st))).
Proof.
  intros Hpolicy Hscan. unfold scan_args in Hscan. rewrite Hpolicy in Hscan.
  split.
  - intros Hlog. unfold scan_task. rewrite Hpolicy, Hscan. mrun.
    cbn [py_get]. mrun. rewrite Hlog. mrun. unfold write_csv. mrun.
    reflexivity.
  - intros e ls Hlog. unfold scan_task. rewrite Hpolicy, Hscan. mrun.
    unfold py_get, py_pop. rewrite Hlog. cbn [default]. mrun.
    change (truthy (id (VList (map VDict (e :: ls))))) with true.
    cbv beta iota. mrun. cbn [py_iter]. mrun.
    rewrite for_each_log_tagged. unfold write_csv. mrun. reflexivity.
Qed.

Lemma scan_task_file_record_witness :
  ∃ st',
    scan_task (sample_env ["data/a.png"] scan_batch_logs no_fault) sample_task
      start = (Ok (VList [VDict [("file", VStr "data/a.png")]]), st') ∧
    log_entries (fs st') "out/log.json" =
      [[("note", VStr "low contrast"); ("file", VStr "data/a.png")]] ∧
    csv_rows (fs st') "out/output.csv" = [VDict [("file", VStr "data/a.png")]].
Proof.
  destruct (scan_task_file_record
              (sample_env ["data/a.png"] scan_batch_logs no_fault) sample_task
              [("file", VStr "data/a.png");
               ("log", VList [VDict [("note", VStr "low contrast")]])] start)
    as [_ H]; [reflexivity | reflexivity |].
  specialize (H [("note", VStr "low contrast")] [] eq_refl).
  eexists. split; [exact H|]. split; reflexivity.
Defined.

Lemma scan_task_record_ok E t r d results st :
  t_output_dir t ≠ t_log_dir t →
  batch_record E t r = VDict d →
  ∃ st',
    scan_task_record E t r results st = (Ok (results ++ [batch_row E t r]), st') ∧
    csv_rows (fs st') (t_output_dir t) =
      csv_rows (fs st) (t_output_dir t) ++ [batch_row E t r] ∧
    log_entries (fs st') (t_log_dir t) =
      log_entries (fs st) (t_log_dir t) ++ batch_logs E t [r] ∧
    out st' = out st ∧ bars st' = bars st.
Proof.
  intros Hne Hd. unfold scan_task_record, batch_row, batch_logs.
  cbn [flat_map]. unfold batch_record in Hd |- *. rewrite Hd.
  cbn [py_get]. mrun.
  destruct (truthy (default VNone (dict_get "log" d))) eqn:Htr.
  - unfold py_pop.
    destruct (dict_get "log" d) as [lg|] eqn:Hlg; [|discriminate].
    change (default VNone (Some lg)) with lg.
    mrun. unfold write_log, write_csv. mrun. eexists.
    split_and!; [reflexivity | | | reflexivity | reflexivity]; cbn [fs].
    + by rewrite csv_rows_append, csv_rows_log_append.
    + rewrite log_entries_csv_append, log_entries_append by congruence.
      by rewrite app_nil_r.
  - mrun. unfold write_csv. mrun. eexists.
    split_and!; [reflexivity | | | reflexivity | reflexivity]; cbn [fs].
    + by rewrite csv_rows_append.
    + rewrite log_entries_csv_append by congruence. by rewrite app_nil_r.
Qed.

Lemma scan_task_records_ok E t rs :
  t_output_dir t ≠ t_log_dir t →
  Forall (λ r, is_dict (batch_record E t r)) rs →
  ∀ results st,
  ∃ st',
    for_each rs results (scan_task_record E t) st =
      (Ok (results ++ map (batch_row E t) rs), st') ∧
    csv_rows (fs st') (t_output_dir t) =
      csv_rows (fs st) (t_output_dir t) ++ map (batch_row E t) rs ∧
    log_entries (fs st') (t_log_dir t) =
      log_entries (fs st) (t_log_dir t) ++ batch_logs E t rs ∧
    out st' = out st ∧ bars st' = bars st.
Proof.
  intros Hne Hrs. induction Hrs as [|r rs Hr _ IH]; intros results st.
  - exists st. cbn [for_each map]. unfold batch_logs. cbn [flat_map].
    rewrite !app_nil_r. by split_and!.
  - destruct (batch_record E t r) as [| | | | |d] eqn:Hd; try done.
    destruct (scan_task_record_ok E t r d results st Hne Hd)
      as (st1 & Hrun1 & Hcsv1 & Hlog1 & Hout1 & Hbars1).
    destruct (IH (results ++ [batch_row E t r]) st1)
      as (st2 & Hrun2 & Hcsv2 & Hlog2 & Hout2 & Hbars2).
    exists st2. cbn [for_each]. rewrite bind_eq, Hrun1, Hrun2.
    split_and!.
    + by rewrite <- app_assoc.
    + rewrite Hcsv2, Hcsv1. by rewrite <- app_assoc.
    + rewrite Hlog2, Hlog1. rewrite <- app_assoc. f_equal.
      unfold batch_logs. cbn [flat_map]. by rewrite app_nil_r.
    + congruence.
    + congruence.
Qed.

(** X3.  A unit of the per-batch policy whose scoring call returns a
    dict with a list of records under ["results"], each of them a dict
    once normalised.  The task returns one row per record, in order; the
    same rows are what it appends to the table; and it appends one log
    entry, tagged with the folder, for each record that carries a
    sub-log, which is removed from the row.  Nothing is printed. *)
Theorem scan_task_batch_records (E : Env) (t : task) (d : dict)
    (rs : list value) (st : State) :
  batch_policy (t_mode t) (t_engine t) = true →
  t_output_dir t ≠ t_log_dir t →
  scan E (scan_args t) = Ok (VDict d) →
  dict_get "results" d = Some (VList rs) →
  Forall (λ r, is_dict (batch_record E t r)) rs →
  ∃ st',
    scan_task E t st = (Ok (VList (map (batch_row E t) rs)), st') ∧
    csv_rows (fs st') (t_output_dir t) =
      csv_rows (fs st) (t_output_dir t) ++ map (batch_row E t) rs ∧
    log_entries (fs st') (t_log_dir t) =
      log_entries (fs st) (t_log_dir t) ++ batch_logs E t rs ∧
    out st' = out st ∧ bars st' = bars st.
Proof.
  intros Hpolicy Hne Hscan Hres Hrs. unfold scan_args in Hscan.
  rewrite Hpolicy in Hscan.
  destruct (scan_task_records_ok E t rs Hne Hrs [] st)
    as (st' & Hrun & Hcsv & Hlog & Hout & Hbars).
  exists st'. unfold scan_task. rewrite Hpolicy, Hscan. mrun.
  cbn [py_get]. rewrite Hres.
  change (default VNone (Some (VList rs))) with (VList rs).
  mrun. cbn [py_iter]. mrun. rewrite Hrun. by split_and!.
Qed.

Lemma scan_task_batch_records_witness :
  ∃ st',
    scan_task (sample_env [] scan_batch_logs no_fault) sample_batch_task start =
      (Ok (VList [VDict [("file", VStr "a.wav"); ("quality", VInt 70)];
                  VDict [("file", VStr "b.wav"); ("quality", VInt 90)]]), st') ∧
    log_entries (fs st') "out/log.json" =
      [[("folder", VStr "temp/0"); ("logs", VStr "clipped")]].
Proof.
  destruct (scan_task_batch_records (sample_env [] scan_batch_logs no_fault)
              sample_batch_task
              [("results",
                VList [VDict [("file", VStr "a.wav"); ("quality", VInt 70);
                              ("log", VStr "clipped")];
                       VDict [("file", VStr "b.wav"); ("quality", VInt 90)]])]
              [VDict [("file", VStr "a.wav"); ("quality", VInt 70);
                      ("log", VStr "clipped")];
               VDict [("file", VStr "b.wav"); ("quality", VInt 90)]] start)
    as (st' & Hrun & _ & Hlog & _); try reflexivity.
  - vm_compute. discriminate.
  - repeat constructor.
  - exists st'. split; [exact Hrun | exact Hlog].
Defined.

(** ** Results the task does not expect *)

Lemma poll_empty_frame tasks n : ∀ st,
  ∃ st', poll_empty tasks n st = (Ok tt, st') ∧
         fs st' = fs st ∧ bars st' = bars st.
Proof.
  induction n as [|n IH]; intros st.
  - by exists st.
  - cbn [poll_empty]. unfold poll. mrun.
    destruct (IH (MkState ((out st ++ [EvWait tasks 1 true]) ++ [EvSleep 3])
                    (fs st) (bars st) (tick st))) as (st' & Hrun & Hfs & Hbars).
    exists st'. by rewrite Hrun.
Qed.

(** The polling loop of one batch: some empty polls, then the task
    runs, is seen ready by the next poll, and resolves to its outcome. *)
Lemma poll_until_ready_run E t st :
  ∃ st0, fs st0 = fs st ∧ bars st0 = bars st ∧
    poll_until_ready E t st =
      (Ok (scan_task E t st0).1,
       let s := (scan_task E t st0).2 in
       MkState (out s ++ [EvCompleted t; EvWait [t] 1 true; EvSleep 3])
         (fs s) (bars s) (tick s)).
Proof.
  unfold poll_until_ready. rewrite bind_eq. unfold next_choice at 1.
  cbv beta iota.
  destruct (poll_empty_frame [t] (sched E (tick st))
              (MkState (out st) (fs st) (bars st) (S (tick st))))
    as (st0 & Hrun0 & Hfs0 & Hbars0).
  exists st0. split_and!; [exact Hfs0 | exact Hbars0 |].
  rewrite bind_eq, Hrun0, bind_eq, complete_unfold. unfold poll.
  rewrite !bind_eq, !emit_eq. cbn [snd out fs bars tick mret M_ret].
  by rewrite <- !app_assoc.
Qed.

(** X4.  A batch whose scoring call returns an empty list of records
    is counted as a failed batch: the task returns the empty list, which
    is falsy, so the coordinator adds the batch size to [failed] and
    leaves the progress bar alone, although no task error was logged and
    the artifacts are unchanged. *)
Theorem empty_batch_counts_as_failed (E : Env) (j : Job)
    (output_dir log_dir folder : string) (file_total : Z) (c : counters)
    (d : dict) (st : State) :
  batch_policy (j_mode j) (j_engine j) = true →
  scan E (ScanFolder folder (j_mode j) (j_engine j) (j_fusion j)) = Ok (VDict d) →
  dict_get "results" d = Some (VList []) →
  ∃ st',
    batch_step E j output_dir log_dir file_total folder c st =
      (Ok (Counters (file_count c) (failed c + batch c) (batch c)), st') ∧
    fs st' = fs st ∧ bars st' = bars st.
Proof.
  intros Hpolicy Hscan Hres.
  set (t := remote j output_dir log_dir folder).
  assert (Htask : ∀ s, scan_task E t s = (Ok (VList []), s)).
  { intros s. unfold scan_task. cbn [t remote t_mode t_engine t_path t_fusion].
    rewrite Hpolicy, Hscan. mrun. cbn [py_get]. rewrite Hres.
    change (default VNone (Some (VList []))) with (VList []).
    mrun. cbn [py_iter]. mrun. cbn [for_each]. by destruct s. }
  destruct (poll_until_ready_run E t
              (MkState (out st ++ [EvSubmit t]) (fs st) (bars st) (tick st)))
    as (st0 & Hfs0 & Hbars0 & Hrun).
  unfold batch_step. fold t. rewrite bind_eq, emit_eq, bind_eq, Hrun.
  rewrite Htask. cbn [fst snd]. rewrite bind_eq. unfold ray_get_ready.
  rewrite bind_eq, emit_eq. cbn [mret M_ret truthy tally]. rewrite bind_eq.
  cbn [mret M_ret out fs bars tick].
  eexists. split_and!; [reflexivity | exact Hfs0 | exact Hbars0].
Qed.

Lemma empty_batch_counts_as_failed_witness :
  ∃ st',
    batch_step (sample_env ["a.wav"] scan_unloadable no_fault)
      (sample_job "speech" "obqe" 0 30) "out/output.csv" "out/log.json" 1
      "temp/0/0" (Counters 0 0 30) start = (Ok (Counters 0 30 30), st') ∧
    fs st' = ∅.
Proof.
  destruct (empty_batch_counts_as_failed
              (sample_env ["a.wav"] scan_unloadable no_fault)
              (sample_job "speech" "obqe" 0 30) "out/output.csv" "out/log.json"
              "temp/0/0" 1 (Counters 0 0 30) [("results", VList [])] start
              eq_refl eq_refl eq_refl) as (st' & Hrun & Hfs & _).
  exists st'. split; [exact Hrun | exact Hfs].
Defined.

(** X5.  Only the scoring call of a per-file unit is guarded.  When it
    returns something that is not a record (no [get]), the
    [AttributeError] of [result.get("log")] escapes the task: nothing is
    written to the table or the log, nothing is printed, and [ray.get] on
    the unit raises the task error on the coordinator. *)
Theorem scan_task_file_malformed (E : Env) (t : task) (v : value) (st : State) :
  batch_policy (t_mode t) (t_engine t) = false →
  scan E (scan_args t) = Ok v →
  ¬ is_dict v →
  (∃ msg, scan_task E t st = (Err (AttributeError msg), st)) ∧
  (∃ msg, (ray_get E [t] st).1 = Err (RayTaskError (AttributeError msg))) ∧
  fs (ray_get E [t] st).2 = fs st.
Proof.
  intros Hpolicy Hscan Hv. unfold scan_args in Hscan. rewrite Hpolicy in Hscan.
  assert (Htask : ∀ s, scan_task E t s =
            (Err (AttributeError "object has no attribute 'get'"), s)).
  { intros s. unfold scan_task. rewrite Hpolicy, Hscan. mrun.
    destruct v; try (by destruct s); by destruct Hv. }
  split; [eexists; apply Htask|].
  unfold ray_get. rewrite bind_eq, ?emit_eq. cbn [complete_all].
  rewrite !bind_eq, complete_unfold, Htask. cbn [fst snd]. rewrite ?emit_eq.
  cbn [snd]. mrun. cbn [resolve]. split; [eexists|]; reflexivity.
Qed.

Lemma scan_task_file_malformed_witness :
  (∃ msg, scan_task (sample_env ["data/a.png"] (scan_returns VNone) no_fault)
            sample_task start = (Err (AttributeError msg), start)) ∧
  (∃ msg, (ray_get (sample_env ["data/a.png"] (scan_returns VNone) no_fault)
             [sample_task] start).1 = Err (RayTaskError (AttributeError msg))).
Proof.
  destruct (scan_task_file_malformed
              (sample_env ["data/a.png"] (scan_returns VNone) no_fault)
              sample_task VNone start eq_refl eq_refl (λ H, H))
    as (Htask & Hget & _).
  split; [exact Htask | exact Hget].
Defined.

Lemma scan_task_missing_results E t d st :
  batch_policy (t_mode t) (t_engine t) = true →
  scan E (ScanFolder (t_path t) (t_mode t) (t_engine t) (t_fusion t)) =
    Ok (VDict d) →
  dict_get "results" d = None →
  scan_task E t st = (Err (TypeError "object is not iterable"), st).
Proof.
  intros Hpolicy Hscan Hres. unfold scan_task. rewrite Hpolicy, Hscan. mrun.
  cbn [py_get]. rewrite Hres. change (default VNone None) with VNone.
  mrun. cbn [py_iter]. mrun. by destruct st.
Qed.

(** X6.  In a per-batch unit the guard also covers
    [result.get("results")]: a result that is not a dict is handled like
    an engine failure (the task returns [None] and logs one task error).
    But a dict without a ["results"] key passes the guard, and iterating
    over the missing list raises a [TypeError] that escapes the task with
    nothing written. *)
Theorem scan_task_batch_malformed (E : Env) (t : task) (v : value) (st : State) :
  batch_policy (t_mode t) (t_engine t) = true →
  scan E (scan_args t) = Ok v →
  (¬ is_dict v →
   ∃ msg,
     scan_task E t st =
       (Ok VNone,
        MkState (out st ++ [EvTaskPrint (">>>> Scan task error: " +:+ msg)])
          (log_append (t_log_dir t)
             [("folder", VStr (t_path t)); ("task error", VStr msg)] (fs st))
          (bars st) (tick st))) ∧
  (∀ d, v = VDict d → dict_get "results" d = None →
   ∃ msg, scan_task E t st = (Err (TypeError msg), st)).
Proof.
  intros Hpolicy Hscan. unfold scan_args in Hscan. rewrite Hpolicy in Hscan.
  split.
  - intros Hv. exists (str_exn (AttributeError "object has no attribute 'get'")).
    unfold scan_task. rewrite Hpolicy, Hscan. mrun.
    destruct v; try (by destruct Hv); cbn [py_get]; mrun; rewrite ?emit_eq;
      unfold write_log; mrun; reflexivity.
  - intros d -> Hres. exists "object is not iterable".
    by apply (scan_task_missing_results E t d).
Qed.

Lemma scan_task_batch_malformed_witness :
  ∃ msg,
    scan_task (sample_env [] (scan_returns (VDict [("error", VStr "no speech")]))
                 no_fault) sample_batch_task start = (Err (TypeError msg), start).
Proof.
  destruct (scan_task_batch_malformed
              (sample_env [] (scan_returns (VDict [("error", VStr "no speech")]))
                 no_fault) sample_batch_task
              (VDict [("error", VStr "no speech")]) start eq_refl eq_refl)
    as [_ H].
  exact (H [("error", VStr "no speech")] eq_refl eq_refl).
Defined.

(** ** The batch folders and their cleanup *)

Ltac pool_step :=
  first [ exact (emitted_refl _)
        | exact (emitted_trans _)
        | apply emitted_set_fs
        | apply emitted_tick
        | apply emitted_add_task
        | apply emitted_update_bar
        | apply emitted_emit; exact I
        | preserves_step ].

Lemma pool_scan_task E t : preserves (emitted pool_event) (scan_task E t).
Proof.
  unfold scan_task, scan_task_record, scan_task_log, write_log, write_csv.
  repeat pool_step.
Qed.

Lemma pool_poll_empty tasks n :
  preserves (emitted pool_event) (poll_empty tasks n).
Proof.
  induction n as [|n IH]; simpl; unfold poll;
    repeat first [ apply IH | pool_step ].
Qed.

Lemma pool_complete E t : preserves (emitted pool_event) (complete E t).
Proof.
  intros st. rewrite complete_unfold. cbn [snd].
  eapply emitted_trans; [apply pool_scan_task|].
  by apply emitted_emit.
Qed.

Lemma pool_batch_step E j output_dir log_dir file_total folder c :
  preserves (emitted pool_event)
    (batch_step E j output_dir log_dir file_total folder c).
Proof.
  unfold batch_step, poll_until_ready, poll, ray_get_ready, p_update_advance.
  repeat first [ apply pool_poll_empty | apply pool_complete | pool_step ].
Qed.

Lemma per_batch_unfold E j input_folder output_dir log_dir file_total st :
  let st0 := MkState (out st ++ batch_setup E j input_folder) (fs st)
               (Bar file_total 0 false [0] :: bars st) (tick st) in
  let loop :=
    for_each
      (split_input_folder E input_folder ("temp/" +:+ pretty (clock E))
         (extended E (TYPE (j_mode j) (j_type j))) (j_batch j) (j_pattern j)
         (j_limit j))
      (Counters 0 0 (j_batch j))
      (batch_step E j output_dir log_dir file_total) st0 in
  per_batch E j input_folder output_dir log_dir file_total st =
    (loop.1,
     MkState (out loop.2 ++ batch_cleanup E loop.1) (fs loop.2) (bars loop.2)
       (tick loop.2)).
Proof.
  intros st0 loop. unfold per_batch. rewrite !bind_eq, !emit_eq.
  cbv beta iota. rewrite bind_eq, emit_eq. cbv beta iota.
  rewrite bind_eq. unfold add_task at 1. cbn [out fs bars tick].
  rewrite bind_eq, <- app_assoc. cbn [app]. fold (batch_setup E j input_folder).
  fold st0. fold loop. destruct loop as [[c|e] [o f b k]]; cbn [fst snd].
  - rewrite bind_eq, emit_eq. reflexivity.
  - unfold batch_cleanup. by rewrite app_nil_r.
Qed.

(** X7.  The trace of the per-batch dispatch is the preparation of the
    batch folders, then events of the worker pool only, then the removal
    of the temporary folder exactly when the loop ended normally.  When a
    task-level failure aborts the loop the folder with the copied input
    is never removed. *)
Theorem temp_folder_cleanup (E : Env) (j : Job)
    (input_folder output_dir log_dir : string) (file_total : Z) (st : State) :
  let r := per_batch E j input_folder output_dir log_dir file_total st in
  ∃ evs,
    Forall pool_event evs ∧
    out r.2 =
      out st ++ batch_setup E j input_folder ++ evs ++ batch_cleanup E r.1.
Proof.
  intros r. unfold r. rewrite per_batch_unfold. cbn [fst snd out].
  set (st0 := MkState _ _ _ _).
  set (loop := for_each _ _ _ st0).
  assert (Hloop : emitted pool_event st0 loop.2).
  { apply (preserves_for_each (emitted pool_event)
             (emitted_refl _) (emitted_trans _)).
    intros folder c. apply pool_batch_step. }
  destruct Hloop as (evs & Hout & Hevs). exists evs. split; [exact Hevs|].
  rewrite Hout. cbn [st0 out]. by rewrite <- !app_assoc.
Qed.

(** X8.  A job under the per-batch policy whose first batch comes back
    as a dict without ["results"] is aborted by the task error that
    [ray.get] raises on the coordinator: after the preparation of the
    batch folders only events of the worker pool follow, so no summary
    and no termination line is printed and the temporary folder is not
    removed; the log is left as it was created, unsealed and empty. *)
Theorem malformed_batch_aborts_job (E : Env) (j : Job) (d : dict)
    (folder : string) (rest : list string) (st : State) :
  path_exists E (j_input_folder j) = true →
  effective_total E j ≠ 0 →
  batch_policy (j_mode j) (j_engine j) = true →
  split_input_folder E (job_input E j) ("temp/" +:+ pretty (clock E))
    (extended E (TYPE (j_mode j) (j_type j))) (j_batch j) (j_pattern j)
    (j_limit j) = folder :: rest →
  scan E (ScanFolder folder (j_mode j) (j_engine j) (j_fusion j)) = Ok (VDict d) →
  dict_get "results" d = None →
  let r := run E j st in
  (∃ msg, r.1 = Err (RayTaskError (TypeError msg))) ∧
  (∃ evs, Forall pool_event evs ∧
     out r.2 =
       out st ++ dispatch_trace E j ++ batch_setup E j (job_input E j) ++ evs) ∧
  fs r.2 !! job_log_dir E j = Some (LogFile [] false).
Proof.
  intros Hex Hz Hpolicy Hsplit Hscan Hres r. unfold r.
  rewrite run_dispatched by assumption. rewrite bind_eq.
  unfold dispatch. rewrite Hpolicy, per_batch_unfold. cbv zeta.
  rewrite Hsplit. cbn [for_each]. rewrite bind_eq.
  set (st0 := MkState (out (dispatch_state E j st) ++ _) _ _ _).
  set (c0 := Counters 0 0 (j_batch j)).
  set (t := remote j (job_output_dir E j) (job_log_dir E j) folder).
  assert (Hstep : ∃ st1,
            batch_step E j (job_output_dir E j) (job_log_dir E j)
              (effective_total E j) folder c0 st0 =
              (Err (RayTaskError (TypeError "object is not iterable")), st1) ∧
            fs st1 = fs st0).
  { destruct (poll_until_ready_run E t
                (MkState (out st0 ++ [EvSubmit t]) (fs st0) (bars st0) (tick st0)))
      as (s0 & Hfs0 & Hbars0 & Hrun).
    unfold batch_step. fold t. rewrite bind_eq, emit_eq, bind_eq, Hrun.
    rewrite (scan_task_missing_results E t d s0) by assumption.
    cbn [fst snd]. rewrite bind_eq. unfold ray_get_ready.
    rewrite bind_eq, emit_eq. cbn [raise out fs bars tick].
    eexists. split; [reflexivity | exact Hfs0]. }
  destruct Hstep as (st1 & Hstep & Hfs1).
  pose proof (pool_batch_step E j (job_output_dir E j) (job_log_dir E j)
                (effective_total E j) folder c0 st0) as (evs & Hout & Hevs).
  rewrite Hstep in Hout |- *. cbn [fst snd batch_cleanup out fs] in Hout |- *.
  split_and!.
  - by eexists.
  - exists evs. split; [exact Hevs|].
    rewrite app_nil_r, Hout. cbn [st0 out dispatch_state].
    by rewrite <- !app_assoc.
  - rewrite Hfs1. cbn [st0 fs dispatch_state]. apply lookup_insert_eq.
Qed.

Lemma malformed_batch_aborts_job_witness :
  let E := sample_env ["a.wav"; "b.wav"]
             (scan_returns (VDict [("error", VStr "no speech")])) no_fault in
  let r := run E (sample_job "speech" "obqe" 0 30) start in
  (∃ msg, r.1 = Err (RayTaskError (TypeError msg))) ∧
  fs r.2 !! job_log_dir E (sample_job "speech" "obqe" 0 30) =
    Some (LogFile [] false).
Proof.
  intros E r.
  destruct (malformed_batch_aborts_job E (sample_job "speech" "obqe" 0 30)
              [("error", VStr "no speech")] "temp/1793698200/0" [] start)
    as (Hres & _ & Hlog); try reflexivity.
  - vm_compute. discriminate.
  - split; [exact Hres | exact Hlog].
Defined.

(** ** Counters and bars at the end of dispatch *)

Lemma tally_bounds file_total c ok :
  0 ≤ file_total →
  0 ≤ batch c → 0 ≤ file_count c ≤ file_total → 0 ≤ failed c →
  let c' := (tally file_total c ok).1 in
  0 ≤ batch c' ∧ 0 ≤ file_count c' ≤ file_total ∧ 0 ≤ failed c'.
Proof.
  intros Htot Hb Hfc Hf. unfold tally. destruct ok; cbn.
  - destruct (Z.ltb_spec file_total (file_count c + batch c)); cbn; lia.
  - lia.
Qed.

Lemma tally_all_bounds file_total : ∀ outcomes c,
  0 ≤ file_total →
  0 ≤ batch c → 0 ≤ file_count c ≤ file_total → 0 ≤ failed c →
  let c' := tally_all file_total outcomes c in
  0 ≤ batch c' ∧ 0 ≤ file_count c' ≤ file_total ∧ 0 ≤ failed c'.
Proof.
  unfold tally_all.
  induction outcomes as [|ok outcomes IH]; intros c Htot Hb Hfc Hf; cbn [fold_left].
  - auto.
  - destruct (tally_bounds file_total c ok Htot Hb Hfc Hf) as (H1 & H2 & H3).
    by apply IH.
Qed.

Lemma clamp_total_le limit n : clamp_total limit n ≤ n.
Proof.
  unfold clamp_total.
  destruct (Z.eqb_spec limit 0), (Z.ltb_spec limit n); cbn; lia.
Qed.

(** X9.  When dispatch ends normally, under either policy and for a
    limit and a batch size that are not negative, the processed count it
    hands to the finalizer lies between 0 and the job total, which is at
    most the number of matching inputs; the tracked failure count is not
    negative. *)
Theorem processed_within_total (E : Env) (j : Job) (st st' : State)
    (c : counters) :
  0 ≤ j_limit j →
  0 ≤ j_batch j →
  effective_total E j ≠ 0 →
  dispatch E j st = (Ok c, st') →
  0 ≤ file_count c ≤ effective_total E j ∧
  effective_total E j ≤ input_count E j ∧
  0 ≤ failed c.
Proof.
  intros Hlimit Hbatch Hz Hrun.
  pose proof (input_count_nonneg E j) as Hn.
  pose proof (clamp_total_le (j_limit j) (input_count E j)) as Hle.
  pose proof (clamp_total_ge (j_limit j) (input_count E j) Hlimit Hn Hz) as Hge.
  fold (effective_total E j) in Hle, Hge.
  unfold dispatch in Hrun.
  destruct (batch_policy (j_mode j) (j_engine j)).
  - rewrite per_batch_unfold in Hrun. cbv zeta in Hrun.
    match type of Hrun with
    | context [for_each ?fs ?c0 ?body ?s] =>
        destruct (for_each fs c0 body s) as [[c1|e] st1] eqn:Hloop
    end; cbn [fst snd] in Hrun; [|discriminate].
    inversion Hrun; subst c1.
    apply batch_loop_outcomes in Hloop as (outcomes & _ & ->).
    destruct (tally_all_bounds (effective_total E j) outcomes
                (Counters 0 0 (j_batch j))) as (_ & Hfc & Hfl);
      cbn [batch file_count failed]; lia.
  - destruct (per_file_spec E j (job_output_dir E j) (job_log_dir E j)
                (effective_total E j) (job_files E j) st Hge)
      as (st1 & _ & _ & Hpf).
    rewrite Hpf, bind_eq in Hrun.
    destruct (drain E _ _ st1) as [[[]|e] st2]; [|discriminate].
    cbn [mret M_ret] in Hrun. inversion Hrun. cbn [file_count failed]. lia.
Qed.

Lemma processed_within_total_witness :
  let E := sample_env ["data/a.png"; "data/b.png"; "data/c.png"] scan_scores
             no_fault in
  let j := sample_job "iris" "obqe" 2 30 in
  ∃ c st', dispatch E j start = (Ok c, st') ∧ 0 ≤ file_count c ≤ 2.
Proof.
  intros E j.
  destruct (dispatch E j start) as [[c|e] st'] eqn:Hrun.
  - exists c, st'. split; [reflexivity|].
    destruct (processed_within_total E j start st' c) as (H & _ & _).
    + vm_compute. discriminate.
    + vm_compute. discriminate.
    + vm_compute. discriminate.
    + exact Hrun.
    + exact H.
  - vm_compute in Hrun. discriminate.
Defined.

(** *** The bar of the completion tracker *)

Lemma drain_loop_done E file_total fuel : ∀ not_ready st b bs,
  bars st = b :: bs →
  bar_total b = file_total →
  bar_finished b = false →
  bar_completed b + Z.of_nat (length not_ready) ≤ file_total →
  (length not_ready < 10 * fuel)%nat →
  ∃ b', bars (drain_loop E fuel file_total not_ready st).2 = b' :: bs ∧
        bar_done file_total b'.
Proof.
  induction fuel as [|fuel IH]; intros nr st b bs Hb Htot Hfin Hroom Hfuel; [lia|].
  rewrite drain_loop_S. unfold finished_now at 1. rewrite Hb, Hfin.
  destruct (Z.ltb_spec (Z.of_nat (length nr)) eta_step) as [Hlt|Hge].
  - rewrite drain_loop_finished.
    + exists (bar_show file_total b). split; [by apply update_bar_bars|].
      unfold bar_done. cbn [bar_show bar_total bar_completed bar_finished bar_shown].
      rewrite Htot, Z.leb_refl, orb_true_r, last_snoc. done.
    + apply finished_after_completed. unfold current_total. by rewrite Hb.
  - destruct (ray_wait_window E nr st Hge)
      as (ready & rest & st1 & Hw & Hl & _ & Hlen & _).
    rewrite Hw.
    assert (Hb1 : bars st1 = b :: bs).
    { pose proof (ray_wait_bars E nr eta_step st) as H.
      rewrite Hw in H. simpl in H. congruence. }
    set (b1 := bar_show (bar_completed b + Z.of_nat (length ready)) b).
    assert (Hb2 : bars (p_update_advance (Z.of_nat (length ready)) st1).2 = b1 :: bs)
      by (apply (update_bar_bars
                   (λ x, bar_show (bar_completed x + Z.of_nat (length ready)) x));
          exact Hb1).
    destruct (bar_finished b1) eqn:Hfin1.
    + rewrite drain_loop_finished by (unfold finished_now; by rewrite Hb2).
      exists b1. split; [exact Hb2|].
      unfold b1 in Hfin1 |- *. unfold bar_done.
      cbn [bar_show bar_total bar_completed bar_finished bar_shown] in *.
      rewrite Hfin in Hfin1. cbn [orb] in Hfin1. apply Z.leb_le in Hfin1.
      rewrite last_snoc. split_and!; [exact Htot | lia | | f_equal; lia].
      rewrite Hfin. cbn [orb]. apply Z.leb_le. lia.
    + apply (IH rest _ b1 bs Hb2); [exact Htot | exact Hfin1 | | lia].
      unfold b1. cbn [bar_show bar_completed]. lia.
Qed.

(** X10.  Whenever the tasks handed to the completion tracker are not
    more than the job total, its progress bar ends finished and at
    exactly the total, whatever the scheduler does and whether or not
    the final [ray.get] raises: the last value displayed is the total. *)
Theorem tracker_ends_at_total (E : Env) (file_total : Z) (tasks : list task)
    (st : State) :
  Z.of_nat (length tasks) ≤ file_total →
  ∃ b, bars (drain E file_total tasks st).2 = b :: bars st ∧
       bar_done file_total b.
Proof.
  intros Hlen.
  destruct (drain_spec E file_total tasks st)
    as (rest & st1 & done & Hexit & _ & _ & _ & Hdrain & _).
  rewrite Hdrain, ray_get_bars.
  unfold drain_until_exit in Hexit. rewrite bind_eq in Hexit.
  destruct (ray_wait_prime E tasks st)
    as (ready & nr & st0 & Hw & Hperm & _ & _).
  pose proof (ray_wait_bars E tasks 1 st) as Hb0.
  rewrite Hw in Hexit, Hb0. simpl in Hb0.
  rewrite bind_eq in Hexit. cbn [add_task] in Hexit.
  set (st0' := MkState _ _ _ _) in Hexit.
  apply Permutation_length in Hperm. rewrite length_app in Hperm.
  destruct (drain_loop_done E file_total (drain_fuel nr) nr st0'
              (Bar file_total 0 false [0]) (bars st0))
    as (b' & Hb' & Hdone); auto.
  - cbn [bar_completed]. lia.
  - unfold drain_fuel. lia.
  - rewrite Hexit in Hb'. simpl in Hb'. exists b'. split; [congruence | exact Hdone].
Qed.

Lemma tracker_ends_at_total_witness :
  ∃ b, bars (drain (sample_env ["data/a.png"] scan_raises no_fault) 1
               [sample_task] start).2 = [b] ∧ bar_done 1 b.
Proof.
  apply (tracker_ends_at_total (sample_env ["data/a.png"] scan_raises no_fault)
           1 [sample_task] start).
  cbn [length]. lia.
Defined.

(** ** C6: the two phases of the draining loop *)

Lemma worker_scan_task E t : preserves (emitted worker_event) (scan_task E t).
Proof.
  unfold scan_task, scan_task_record, scan_task_log, write_log, write_csv.
  repeat pool_step.
Qed.

Lemma worker_complete E t : preserves (emitted worker_event) (complete E t).
Proof.
  intros st. rewrite complete_unfold. cbn [snd].
  eapply emitted_trans; [apply worker_scan_task|].
  by apply emitted_emit.
Qed.

Lemma worker_complete_all E ts :
  preserves (emitted worker_event) (complete_all E ts).
Proof.
  induction ts as [|t ts IH]; simpl;
    repeat first [ apply worker_complete | apply IH | pool_step ].
Qed.

(** The blocking [ray.get]: the call itself, then only what the workers
    show; the coordinator neither waits nor sleeps. *)
Lemma ray_get_trace E ts st :
  ∃ evs, out (ray_get E ts st).2 = out st ++ EvGet ts :: evs ∧
         Forall worker_event evs.
Proof.
  unfold ray_get. rewrite bind_eq, emit_eq.
  set (st1 := MkState _ _ _ _).
  destruct (worker_complete_all E ts st1) as (evs & Hout & Hev).
  exists evs. split; [|exact Hev].
  rewrite bind_eq.
  destruct (complete_all E ts st1) as [[rs|e] st2]; cbn [snd] in *.
  - unfold lift_res. cbn [snd]. rewrite Hout. subst st1. cbn [out].
    by rewrite <- app_assoc.
  - rewrite Hout. subst st1. cbn [out]. by rewrite <- app_assoc.
Qed.

(** C6.  In a turn of the draining loop (the bar [b] not yet finished):
    - with fewer than [eta_step = 10] tasks outstanding, the bar is set
      to the full total and the coordinator goes straight to the blocking
      [ray.get] of the outstanding tasks: after the call only the workers
      are heard of, there is no further [ray.wait];
    - with at least 10 outstanding, the coordinator waits for exactly 10
      completions ([ray.wait] with [num_returns=10] returns 10 ready
      tasks, which are the ones that ran and the completions recorded
      meanwhile), the bar is advanced by the number of ready tasks, from
      [completed] to [completed + 10], and the loop goes on with the
      others;
    and, for the tracker as a whole, the loop is left with the bar
    finished and the tasks still outstanding are then resolved by the
    blocking [ray.get], so that the completions recorded during the
    tracker are exactly the submitted tasks. *)
Theorem drain_two_phases (E : Env) (file_total : Z) (not_ready : list task)
    (st : State) (fuel : nat) :
  finished_now st = false →
  current_total file_total st →
  ∃ b bs,
    bars st = b :: bs ∧
    bar_total b = file_total ∧
    (Z.of_nat (length not_ready) < eta_step →
       (drain_loop E (S fuel) file_total not_ready ≫= ray_get E) st =
         ray_get E not_ready (p_update_completed file_total st).2 ∧
       bars (p_update_completed file_total st).2 = bar_show file_total b :: bs ∧
       ∃ evs,
         out ((drain_loop E (S fuel) file_total not_ready ≫= ray_get E) st).2 =
           out st ++ EvGet not_ready :: evs ∧
         Forall worker_event evs) ∧
    (eta_step ≤ Z.of_nat (length not_ready) →
       ∃ ready rest st1 evs,
         ray_wait E not_ready eta_step st = (Ok (ready, rest), st1) ∧
         length ready = 10%nat ∧
         Permutation not_ready (ready ++ rest) ∧
         ran E ready st st1 ∧
         out st1 = out st ++ evs ∧
         completed_tasks evs = ready ∧
         bars (p_update_advance (Z.of_nat (length ready)) st1).2 =
           bar_show (bar_completed b + 10) b :: bs ∧
         drain_loop E (S fuel) file_total not_ready st =
           drain_loop E fuel file_total rest
             (p_update_advance (Z.of_nat (length ready)) st1).2) ∧
    (∀ tasks st0,
       ∃ rest st1 evs,
         drain_until_exit E file_total tasks st0 = (Ok rest, st1) ∧
         finished_now st1 = true ∧
         (drain E file_total tasks st0).2 = (ray_get E rest st1).2 ∧
         out (drain E file_total tasks st0).2 = out st0 ++ evs ∧
         Permutation (completed_tasks evs) tasks).
Proof.
  intros Hfin Htot.
  pose proof Hfin as Hfin'. pose proof Htot as Htot'.
  unfold finished_now in Hfin'. unfold current_total in Htot'.
  destruct (bars st) as [|b bs] eqn:Hb; [discriminate|].
  exists b, bs. split_and!; [reflexivity | exact Htot' | | |].
  - intros Hlt.
    assert (Heq : (drain_loop E (S fuel) file_total not_ready ≫= ray_get E) st =
                  ray_get E not_ready (p_update_completed file_total st).2).
    { rewrite bind_eq, drain_loop_S, Hfin.
      destruct (Z.ltb_spec (Z.of_nat (length not_ready)) eta_step); [|lia].
      pose proof (finished_after_completed file_total st Htot) as Hdone.
      destruct fuel as [|fuel]; [reflexivity|].
      rewrite drain_loop_S, Hdone. reflexivity. }
    split_and!; [exact Heq | by apply update_bar_bars |].
    rewrite Heq.
    destruct (ray_get_trace E not_ready (p_update_completed file_total st).2)
      as (evs & Hout & Hev).
    exists evs. split; [|exact Hev].
    rewrite Hout. unfold p_update_completed. by rewrite update_bar_out.
  - intros Hge.
    destruct (ray_wait_window E not_ready st Hge)
      as (ready & rest & st1 & Hw & Hl & Hperm & _ & Hran).
    destruct (ran_completed _ _ _ _ Hran) as (evs & Hout & Hc).
    exists ready, rest, st1, evs.
    split_and!; [exact Hw | exact Hl | exact Hperm | exact Hran | exact Hout
                | exact Hc | |].
    + rewrite Hl.
      apply (update_bar_bars (λ x, bar_show (bar_completed x + Z.of_nat 10) x)).
      pose proof (ray_wait_bars E not_ready eta_step st) as Hbars.
      rewrite Hw in Hbars. cbn [snd] in Hbars. congruence.
    + rewrite drain_loop_S, Hfin.
      destruct (Z.ltb_spec (Z.of_nat (length not_ready)) eta_step); [lia|].
      by rewrite Hw.
  - intros tasks st0.
    destruct (drain_spec E file_total tasks st0)
      as (rest & st1 & done & Hexit & Hfin1 & _ & Hperm & Hdrain & Hran).
    destruct (ran_completed _ _ _ _ Hran) as (evs & Hout & Hc).
    exists rest, st1, evs. repeat split; auto.
    rewrite Hc. by symmetry.
Qed.

Lemma drain_two_phases_witness :
  let E := sample_env ["data/a.png"] scan_scores no_fault in
  bars (p_update_completed 3 (add_task 3 start).2).2 = [Bar 3 3 true [0; 3]] ∧
  ∃ ready rest st1,
    ray_wait E (sample_tasks 12) eta_step (add_task 12 start).2 =
      (Ok (ready, rest), st1) ∧
    length ready = 10%nat ∧
    length rest = 2%nat ∧
    bars (p_update_advance (Z.of_nat (length ready)) st1).2 =
      [Bar 12 10 false [0; 10]].
Proof.
  intros E. split.
  - destruct (drain_two_phases E 3 [sample_task] (add_task 3 start).2 1
                eq_refl eq_refl) as (b & bs & Hb & _ & Hlow & _ & _).
    destruct Hlow as (_ & Hbars & _); [vm_compute; reflexivity|].
    rewrite Hbars. cbn in Hb. injection Hb as <- <-. reflexivity.
  - destruct (drain_two_phases E 12 (sample_tasks 12) (add_task 12 start).2 1
                eq_refl eq_refl) as (b & bs & Hb & _ & _ & Hwin & _).
    destruct Hwin as (ready & rest & st1 & evs & Hw & Hl & Hperm & _ & _ & _
                      & Hbars & _); [vm_compute; discriminate|].
    exists ready, rest, st1. split_and!; [exact Hw | exact Hl | |].
    + apply Permutation_length in Hperm. rewrite length_app, Hl in Hperm.
      cbn in Hperm. lia.
    + rewrite Hbars. cbn in Hb. injection Hb as <- <-. reflexivity.
Defined.

(** *** The bar of the per-batch loop *)

Lemma batch_loop_tracks E j output_dir log_dir file_total :
  ∀ folders c st b bs c' st',
  bars st = b :: bs →
  bar_sound b →
  bar_total b = file_total →
  bar_completed b = file_count c →
  0 ≤ batch c →
  for_each folders c (batch_step E j output_dir log_dir file_total) st =
    (Ok c', st') →
  ∃ b', bars st' = b' :: bs ∧ bar_sound b' ∧ bar_total b' = file_total ∧
        bar_completed b' = file_count c'.
Proof.
  induction folders as [|folder folders IH];
    intros c st b bs c' st' Hb Hs Htot Hc Hbatch Hrun.
  - cbn [for_each mret M_ret] in Hrun. inversion Hrun; subst. by exists b.
  - cbn [for_each] in Hrun. rewrite bind_eq in Hrun.
    destruct (batch_step_bars E j output_dir log_dir file_total folder c st b bs)
      as (b1 & Hb1 & Hs1 & Htot1 & Hres); auto.
    destruct (batch_step E j output_dir log_dir file_total folder c st)
      as [[c1|e] st1]; simpl in *; [|discriminate].
    destruct (Hres c1 eq_refl) as [Hc1 Hbatch1].
    by apply (IH c1 st1 b1 bs c' st').
Qed.

(** X11.  Under the per-batch policy the bar shows the processed
    count: when the dispatch ends normally, for a total and a batch size
    that are not negative, the bar it created has the job total as its
    total and the final [file_count] as its completed value, so batches
    counted as failed are the part of the bar that stays open. *)
Theorem batch_bar_shows_processed (E : Env) (j : Job)
    (input_folder output_dir log_dir : string) (file_total : Z)
    (st st' : State) (c : counters) :
  0 ≤ file_total →
  0 ≤ j_batch j →
  per_batch E j input_folder output_dir log_dir file_total st = (Ok c, st') →
  ∃ b, bars st' = b :: bars st ∧ bar_total b = file_total ∧
       bar_completed b = file_count c ∧ bar_sound b.
Proof.
  intros Htot Hbatch Hrun. rewrite per_batch_unfold in Hrun. cbv zeta in Hrun.
  match type of Hrun with
  | context [for_each ?fs ?c0 ?body ?s] =>
      destruct (for_each fs c0 body s) as [[c1|e] st1] eqn:Hloop
  end; cbn [fst snd] in Hrun; [|discriminate].
  inversion Hrun; subst. cbn [bars].
  eapply (batch_loop_tracks _ _ _ _ _ _ _ _ (Bar file_total 0 false [0])
            (bars st)) in Hloop as (b' & Hb' & Hs' & Htot' & Hc');
    [ | reflexivity | by apply bar_sound_new | reflexivity | reflexivity
      | exact Hbatch ].
  exists b'. by split_and!.
Qed.

Lemma batch_bar_shows_processed_witness :
  let E := sample_env ["a.wav"; "b.wav"] scan_scores no_fault in
  let j := sample_job "speech" "obqe" 0 30 in
  ∃ c st' b,
    per_batch E j "data/" "out/output.csv" "out/log.json" 2 start = (Ok c, st') ∧
    bars st' = [b] ∧ bar_completed b = file_count c.
Proof.
  intros E j.
  destruct (per_batch E j "data/" "out/output.csv" "out/log.json" 2 start)
    as [[c|e] st'] eqn:Hrun.
  - destruct (batch_bar_shows_processed E j "data/" "out/output.csv"
                "out/log.json" 2 start st' c) as (b & Hb & _ & Hc & _).
    + lia.
    + vm_compute. discriminate.
    + exact Hrun.
    + exists c, st', b. by split_and!.
  - vm_compute in Hrun. discriminate.
Defined.

(** *** Batches that all succeed *)

Lemma scan_task_scored E j output_dir log_dir folder st :
  batch_policy (j_mode j) (j_engine j) = true →
  output_dir ≠ log_dir →
  batch_scored E j output_dir log_dir folder →
  ∃ v st', scan_task E (remote j output_dir log_dir folder) st = (Ok v, st') ∧
           truthy v = true.
Proof.
  intros Hpolicy Hne (d & r & rs & Hscan & Hres & Hrs).
  set (t := remote j output_dir log_dir folder) in *.
  destruct (scan_task_records_ok E t (r :: rs) Hne Hrs [] st)
    as (st' & Hrun & _).
  exists (VList (map (batch_row E t) (r :: rs))), st'. split; [|reflexivity].
  unfold scan_task. cbn [t remote t_mode t_engine t_path t_fusion].
  rewrite Hpolicy, Hscan. mrun. cbn [py_get]. rewrite Hres.
  change (default VNone (Some (VList (r :: rs)))) with (VList (r :: rs)).
  mrun. cbn [py_iter]. mrun. fold t. rewrite Hrun. reflexivity.
Qed.

Lemma batch_step_scored E j output_dir log_dir file_total folder c st :
  batch_policy (j_mode j) (j_engine j) = true →
  output_dir ≠ log_dir →
  batch_scored E j output_dir log_dir folder →
  ∃ st', batch_step E j output_dir log_dir file_total folder c st =
           (Ok (tally file_total c true).1, st').
Proof.
  intros Hpolicy Hne Hscored.
  set (t := remote j output_dir log_dir folder).
  destruct (poll_until_ready_run E t
              (MkState (out st ++ [EvSubmit t]) (fs st) (bars st) (tick st)))
    as (st0 & _ & _ & Hrun).
  destruct (scan_task_scored E j output_dir log_dir folder st0 Hpolicy Hne Hscored)
    as (v & s' & Htask & Hv).
  fold t in Htask. rewrite Htask in Hrun. cbn [fst snd] in Hrun.
  unfold batch_step. fold t. rewrite bind_eq, emit_eq, bind_eq, Hrun.
  rewrite bind_eq. unfold ray_get_ready. rewrite bind_eq, emit_eq.
  cbn [mret M_ret]. rewrite Hv.
  destruct (tally file_total c true) as [c' [a|]] eqn:Ht;
    rewrite bind_eq; cbn [fst].
  - unfold p_update_advance. rewrite update_bar_ok. by eexists.
  - by eexists.
Qed.

Lemma tally_true_count file_total b i c :
  0 ≤ b → 0 ≤ i →
  failed c = 0 →
  (file_count c = i * b ∧ batch c = b ∧ i * b ≤ file_total) ∨
  (file_count c = file_total ∧ 0 ≤ batch c ∧ file_total ≤ i * b) →
  let c' := (tally file_total c true).1 in
  failed c' = 0 ∧
  ((file_count c' = (i + 1) * b ∧ batch c' = b ∧ (i + 1) * b ≤ file_total) ∨
   (file_count c' = file_total ∧ 0 ≤ batch c' ∧ file_total ≤ (i + 1) * b)).
Proof.
  intros Hb Hi Hf Hinv. unfold tally.
  destruct (Z.ltb_spec file_total (file_count c + batch c));
    cbn [fst file_count failed batch]; (split; [exact Hf|]);
    destruct Hinv as [(H1 & H2 & H3)|(H1 & H2 & H3)]; nia.
Qed.

Lemma batch_loop_scored E j output_dir log_dir file_total :
  batch_policy (j_mode j) (j_engine j) = true →
  output_dir ≠ log_dir →
  0 ≤ j_batch j →
  ∀ folders c st i,
    Forall (batch_scored E j output_dir log_dir) folders →
    0 ≤ i →
    failed c = 0 →
    (file_count c = i * j_batch j ∧ batch c = j_batch j ∧
     i * j_batch j ≤ file_total) ∨
    (file_count c = file_total ∧ 0 ≤ batch c ∧ file_total ≤ i * j_batch j) →
    ∃ c' st',
      for_each folders c (batch_step E j output_dir log_dir file_total) st =
        (Ok c', st') ∧
      failed c' = 0 ∧
      file_count c' =
        Z.min file_total ((i + Z.of_nat (length folders)) * j_batch j).
Proof.
  intros Hpolicy Hne Hb.
  induction folders as [|folder folders IH]; intros c st i Hall Hi Hf Hinv.
  - exists c, st. cbn [for_each length]. split_and!; [reflexivity | exact Hf |].
    destruct Hinv as [(H1 & H2 & H3)|(H1 & H2 & H3)]; nia.
  - inversion Hall as [|? ? Hfolder Hrest]; subst.
    destruct (batch_step_scored E j output_dir log_dir file_total folder c st
                Hpolicy Hne Hfolder) as (st1 & Hstep).
    destruct (tally_true_count file_total (j_batch j) i c Hb Hi Hf Hinv)
      as (Hf1 & Hinv1).
    destruct (IH (tally file_total c true).1 st1 (i + 1) Hrest) as
      (c' & st' & Hrun & Hf' & Hc'); [lia | exact Hf1 | exact Hinv1 |].
    exists c', st'. cbn [for_each]. rewrite bind_eq, Hstep.
    split_and!; [exact Hrun | exact Hf' |].
    rewrite Hc'. cbn [length]. f_equal. lia.
Qed.

(** X12.  Under the per-batch policy, when the engine returns at least
    one record for every batch folder, the dispatch ends normally with no
    tracked failure and a processed count that is the smaller of the job
    total and (number of folders) x (batch size): the clip of the last
    batch makes the count stop at the total. *)
Theorem scored_batches_count (E : Env) (j : Job)
    (input_folder output_dir log_dir : string) (file_total : Z) (st : State) :
  batch_policy (j_mode j) (j_engine j) = true →
  output_dir ≠ log_dir →
  0 ≤ j_batch j →
  0 ≤ file_total →
  let folders :=
    split_input_folder E input_folder ("temp/" +:+ pretty (clock E))
      (extended E (TYPE (j_mode j) (j_type j))) (j_batch j) (j_pattern j)
      (j_limit j) in
  Forall (batch_scored E j output_dir log_dir) folders →
  ∃ c st',
    per_batch E j input_folder output_dir log_dir file_total st = (Ok c, st') ∧
    failed c = 0 ∧
    file_count c = Z.min file_total (Z.of_nat (length folders) * j_batch j).
Proof.
  intros Hpolicy Hne Hb Htot folders Hall.
  rewrite per_batch_unfold. cbv zeta. fold folders.
  set (st0 := MkState _ _ _ _).
  destruct (batch_loop_scored E j output_dir log_dir file_total Hpolicy Hne Hb
              folders (Counters 0 0 (j_batch j)) st0 0 Hall)
    as (c & st1 & Hrun & Hf & Hc); [lia | reflexivity | |].
  { cbn [file_count batch]. destruct (Z.le_gt_cases 0 file_total); [|lia].
    left. lia. }
  rewrite Hrun. cbn [fst snd]. eexists c, _.
  split_and!; [reflexivity | exact Hf | rewrite Hc; f_equal; lia].
Qed.

Lemma scored_batches_count_witness :
  let E := sample_env ["a.wav"; "b.wav"; "c.wav"] scan_scores no_fault in
  let j := sample_job "speech" "obqe" 0 2 in
  ∃ c st',
    per_batch E j "data/" "out/output.csv" "out/log.json" 3 start = (Ok c, st') ∧
    failed c = 0 ∧ file_count c = 3.
Proof.
  intros E j.
  apply (scored_batches_count E j "data/" "out/output.csv" "out/log.json" 3 start).
  - reflexivity.
  - vm_compute. discriminate.
  - vm_compute. discriminate.
  - lia.
  - vm_compute. repeat constructor;
      (eexists _, _, _; split_and!; [reflexivity | reflexivity | repeat constructor]).
Defined.

(** ** C9: what a failed batch adds to [failed] *)

Lemma scan_task_batch_raising E j output_dir log_dir folder e :
  batch_policy (j_mode j) (j_engine j) = true →
  scan E (ScanFolder folder (j_mode j) (j_engine j) (j_fusion j)) = Err e →
  batch_outcome E j output_dir log_dir folder false.
Proof.
  intros Hpolicy Hscan st. unfold scan_task.
  cbn [remote t_mode t_engine t_path t_fusion t_log_dir].
  rewrite Hpolicy, Hscan. mrun. unfold write_log. mrun.
  by eexists _, _.
Qed.

Lemma batch_scored_outcome E j output_dir log_dir folder :
  batch_policy (j_mode j) (j_engine j) = true →
  output_dir ≠ log_dir →
  batch_scored E j output_dir log_dir folder →
  batch_outcome E j output_dir log_dir folder true.
Proof. intros Hpolicy Hne Hscored st. by apply scan_task_scored. Qed.

(** One turn of the loop on a folder whose task resolves to a result of
    truth value [ok]: the counters are those of [tally], and a falsy
    result leaves the bar alone. *)
Lemma batch_step_resolved E j output_dir log_dir file_total folder c ok st :
  batch_outcome E j output_dir log_dir folder ok →
  ∃ st', batch_step E j output_dir log_dir file_total folder c st =
           (Ok (tally file_total c ok).1, st') ∧
         (ok = false → bars st' = bars st).
Proof.
  intros Hout.
  set (t := remote j output_dir log_dir folder) in *.
  set (st1 := MkState (out st ++ [EvSubmit t]) (fs st) (bars st) (tick st)).
  destruct (poll_until_ready_run E t st1) as (st0 & _ & Hbars0 & Hrun).
  destruct (Hout st0) as (v & s' & Htask & Hv).
  pose proof (poll_until_ready_bars E t st1) as Hb.
  fold t in Htask. rewrite Htask in Hrun. cbn [fst snd] in Hrun.
  rewrite Hrun in Hb. cbn [snd bars] in Hb.
  unfold batch_step. fold t. rewrite bind_eq, emit_eq. fold st1.
  rewrite bind_eq, Hrun, bind_eq. unfold ray_get_ready.
  rewrite bind_eq, emit_eq. cbn [mret M_ret]. rewrite Hv.
  destruct ok.
  - destruct (tally file_total c true) as [c' [a|]] eqn:Ht;
      rewrite bind_eq; cbn [fst].
    + unfold p_update_advance. rewrite update_bar_ok.
      eexists. split; [reflexivity | discriminate].
    + eexists. split; [reflexivity | discriminate].
  - cbn [tally]. rewrite bind_eq. cbn [mret M_ret fst].
    eexists. split; [reflexivity|]. intros _. cbn [bars]. exact Hb.
Qed.

Lemma batch_loop_resolved E j output_dir log_dir file_total :
  ∀ folders oks c st,
    Forall2 (batch_outcome E j output_dir log_dir) folders oks →
    ∃ st',
      for_each folders c (batch_step E j output_dir log_dir file_total) st =
        (Ok (tally_all file_total oks c), st') ∧
      (Forall (λ ok, ok = false) oks → bars st' = bars st).
Proof.
  intros folders oks c st Hall. revert c st.
  induction Hall as [|folder ok folders oks Hfolder _ IH]; intros c st.
  - exists st. by split.
  - destruct (batch_step_resolved E j output_dir log_dir file_total folder c ok st
                Hfolder) as (st1 & Hstep & Hb1).
    destruct (IH (tally file_total c ok).1 st1) as (st' & Hrun & Hb').
    exists st'. cbn [for_each]. rewrite bind_eq, Hstep. split; [exact Hrun|].
    intros Hfalse. inversion Hfalse as [|? ? Hok Hrest]; subst.
    rewrite (Hb' Hrest). by apply Hb1.
Qed.

Lemma tally_all_none_scored file_total : ∀ oks c,
  Forall (λ ok, ok = false) oks →
  file_count (tally_all file_total oks c) = file_count c ∧
  failures oks = Z.of_nat (length oks).
Proof.
  unfold tally_all, failures.
  induction oks as [|ok oks IH]; intros c Hall; [by split|].
  inversion Hall as [|? ? -> Hrest]; subst. cbn [fold_left tally fst].
  destruct (IH (Counters (file_count c) (failed c + batch c) (batch c)) Hrest)
    as [-> Hlen].
  split; [reflexivity|]. cbn [List.filter negb length] in *. lia.
Qed.

(** C9.  Under the per-batch policy, a batch whose task resolves to a
    falsy result leaves the completed-file counter and the bar alone and
    adds the [batch] variable to [failed], as it is, without the clip of
    the success branch.  Over batch folders that hold a full batch each,
    except possibly the last, whose tasks resolve to results of truth
    values [oks], the loop ends with the counters [tally] computes from
    [oks], and the final [failed] is the configured batch size times the
    number of falsy results, whatever the number of files in the folders
    of these batches.  When every batch fails, nothing is counted as
    processed, the bar is never advanced, and [failed] is the batch size
    times the number of folders, which exceeds the job total as soon as
    the last folder is not full. *)
Theorem failed_counts_full_batches (E : Env) (j : Job)
    (output_dir log_dir : string) (file_total : Z) (folders : list string)
    (oks : list bool) (st : State) :
  0 < j_batch j →
  (Z.of_nat (length folders) - 1) * j_batch j < file_total →
  Forall2 (batch_outcome E j output_dir log_dir) folders oks →
  (∀ folder c s,
     batch_outcome E j output_dir log_dir folder false →
     ∃ s', batch_step E j output_dir log_dir file_total folder c s =
             (Ok (Counters (file_count c) (failed c + batch c) (batch c)), s') ∧
           bars s' = bars s) ∧
  ∃ c' st',
    for_each folders (Counters 0 0 (j_batch j))
      (batch_step E j output_dir log_dir file_total) st = (Ok c', st') ∧
    c' = tally_all file_total oks (Counters 0 0 (j_batch j)) ∧
    failed c' = j_batch j * failures oks ∧
    (Forall (λ ok, ok = false) oks →
       file_count c' = 0 ∧ bars st' = bars st ∧
       failed c' = j_batch j * Z.of_nat (length folders) ∧
       (file_total < Z.of_nat (length folders) * j_batch j →
        file_total < failed c')).
Proof.
  intros Hb Hfull Hall. split.
  - intros folder c s Hfolder.
    destruct (batch_step_resolved E j output_dir log_dir file_total folder c
                false s Hfolder) as (s' & Hstep & Hbars).
    exists s'. split; [exact Hstep | by apply Hbars].
  - destruct (batch_loop_resolved E j output_dir log_dir file_total folders oks
                (Counters 0 0 (j_batch j)) st Hall) as (st' & Hrun & Hbars).
    pose proof (Forall2_length _ _ _ Hall) as Hlen.
    assert (Hfailed : failed (tally_all file_total oks (Counters 0 0 (j_batch j)))
                      = j_batch j * failures oks).
    { rewrite (tally_all_failed file_total (j_batch j) oks _ 0);
        cbn [failed batch file_count]; lia. }
    eexists _, st'. split_and!; [exact Hrun | reflexivity | exact Hfailed |].
    intros Hnone.
    destruct (tally_all_none_scored file_total oks (Counters 0 0 (j_batch j))
                Hnone) as [Hcount Hfailures].
    rewrite Hfailed, Hfailures, Hcount, <- Hlen.
    split_and!; [reflexivity | by apply Hbars | reflexivity | lia].
Qed.

Lemma failed_counts_full_batches_witness :
  let j := sample_job "speech" "obqe" 0 2 in
  (∃ c' st',
     for_each ["temp/0"; "temp/1"] (Counters 0 0 2)
       (batch_step (sample_env ["a.wav"; "b.wav"; "c.wav"] scan_raises no_fault)
          j "out/output.csv" "out/log.json" 3) start = (Ok c', st') ∧
     file_count c' = 0 ∧ failed c' = 4 ∧ bars st' = []) ∧
  (∃ c' st',
     for_each ["temp/0"; "temp/1"] (Counters 0 0 2)
       (batch_step
          (sample_env ["a.wav"; "b.wav"; "c.wav"] (scan_failing ["temp/1"])
             no_fault)
          j "out/output.csv" "out/log.json" 3) start = (Ok c', st') ∧
     c' = Counters 2 2 2).
Proof.
  intros j. split.
  - destruct (failed_counts_full_batches
                (sample_env ["a.wav"; "b.wav"; "c.wav"] scan_raises no_fault) j
                "out/output.csv" "out/log.json" 3 ["temp/0"; "temp/1"]
                [false; false] start)
      as (_ & c' & st' & Hrun & _ & Hfailed & Hnone).
    + simpl. lia.
    + simpl. lia.
    + repeat constructor;
        by apply (scan_task_batch_raising _ _ _ _ _ (Exception "engine failure")).
    + destruct Hnone as (Hcount & Hbars & _); [by repeat constructor|].
      exists c', st'. split_and!; [exact Hrun | exact Hcount | exact Hfailed
                                  | exact Hbars].
  - destruct (failed_counts_full_batches
                (sample_env ["a.wav"; "b.wav"; "c.wav"] (scan_failing ["temp/1"])
                   no_fault) j
                "out/output.csv" "out/log.json" 3 ["temp/0"; "temp/1"]
                [true; false] start)
      as (_ & c' & st' & Hrun & Hc & _).
    + simpl. lia.
    + simpl. lia.
    + repeat constructor.
      * apply batch_scored_outcome; [reflexivity | discriminate |].
        eexists _, _, _.
        split_and!; [reflexivity | reflexivity | repeat constructor].
      * by apply (scan_task_batch_raising _ _ _ _ _ (Exception "engine failure")).
    + exists c', st'. split; [exact Hrun | exact Hc].
Defined.

(** ** C7: displayed progress never decreases and stays within the total *)

(** With a negative limit the clamped total is negative: the sending
    bar of this per-file job has total [-5] and displays [0] then [1]. *)
Lemma progress_exceeds_negative_total :
  ¬ Forall bar_ok
      (bars (run (sample_env ["data/a.png"] scan_scores no_fault)
                 (sample_job "iris" "obqe" (-5) 30) start).2).
Proof.
  assert (Hb : bars (run (sample_env ["data/a.png"] scan_scores no_fault)
                         (sample_job "iris" "obqe" (-5) 30) start).2
               = [Bar (-5) (-5) true [0; -5]; Bar (-5) 1 true [0; 1]])
    by (vm_compute; reflexivity).
  rewrite Hb. intros H.
  apply Forall_inv in H. destruct H as [_ H].
  apply Forall_inv in H. simpl in H. lia.
Qed.

(** After a failed batch the clip of the last batch does not apply: with
    five files in batches of two whose second batch fails, the third
    batch (one file) is advanced by the full batch size and the bar ends
    at 4 of 5. *)
Lemma failed_batch_leaves_bar_short :
  let E := sample_env ["a.wav"; "b.wav"; "c.wav"; "d.wav"; "e.wav"]
             (scan_failing ["temp/1793698200/1"]) no_fault in
  let j := sample_job "speech" "obqe" 0 2 in
  (run E j start).1 = Ok tt ∧
  effective_total E j = 5 ∧
  length (job_folders E j) = 3%nat ∧
  bars (run E j start).2 = [Bar 5 4 false [0; 2; 4]].
Proof. vm_compute. split_and!; reflexivity. Qed.

Lemma run_undispatched_bars E j st :
  path_exists E (j_input_folder j) = false ∨ effective_total E j = 0 →
  bars (run E j st).2 = bars st.
Proof.
  intros H. unfold run, matching_files, when.
  destruct (path_exists E (j_input_folder j)) eqn:Hex; cbn [negb].
  - destruct H as [H|Hz]; [discriminate|].
    unfold effective_total, input_count in Hz.
    destruct (j_debug j), (j_limit j =? 0);
      unfold mbind, M_bind, mret, M_ret, emit;
      cbn -[clamp_total pretty metadata];
      rewrite Hz; reflexivity.
  - destruct (j_debug j); cbn [negb]; mrun; reflexivity.
Qed.

Lemma effective_total_nonneg E j : 0 ≤ j_limit j → 0 ≤ effective_total E j.
Proof.
  intros Hl. unfold effective_total, clamp_total.
  pose proof (input_count_nonneg E j).
  destruct (negb (j_limit j =? 0) && (j_limit j <? input_count E j)); lia.
Qed.

(** The bars of a job are those of its dispatch: none when nothing is
    dispatched, one under the per-batch policy, two under the per-file
    policy, each created for the job total. *)
Lemma run_bars E j st :
  0 ≤ j_limit j →
  0 ≤ j_batch j →
  ∃ new,
    bars (run E j st).2 = new ++ bars st ∧
    Forall (λ b, bar_sound b ∧ bar_total b = effective_total E j) new.
Proof.
  intros Hlimit Hbatch.
  destruct (path_exists E (j_input_folder j)) eqn:Hex;
    [|exists []; split; [apply run_undispatched_bars; by left | constructor]].
  destruct (Z.eq_dec (effective_total E j) 0) as [Hz|Hz];
    [exists []; split; [apply run_undispatched_bars; by right | constructor]|].
  rewrite run_dispatched by auto.
  assert (Hfin : bars ((dispatch E j ≫=
                        finalize E j (job_input E j) (job_output_dir E j)
                          (job_log_dir E j)) (dispatch_state E j st)).2 =
                 bars (dispatch E j (dispatch_state E j st)).2).
  { rewrite bind_eq.
    destruct (dispatch E j (dispatch_state E j st)) as [[c|e] s1];
      [apply finalize_bars | reflexivity]. }
  rewrite Hfin. unfold dispatch.
  destruct (batch_policy (j_mode j) (j_engine j)).
  - destruct (per_batch_bars E j (job_input E j) (job_output_dir E j)
                (job_log_dir E j) (effective_total E j) (dispatch_state E j st))
      as (b & Hb & Hs & Ht); [by apply effective_total_nonneg | exact Hbatch |].
    exists [b]. split; [exact Hb | constructor; [by split | constructor]].
  - destruct (per_file_bars E j (job_output_dir E j) (job_log_dir E j)
                (effective_total E j) (job_files E j) (dispatch_state E j st))
      as (b1 & b2 & Hb & Hs1 & Ht1 & Hs2 & Ht2).
    { apply clamp_total_ge; auto using input_count_nonneg. }
    exists [b2; b1]. split; [exact Hb|].
    constructor; [by split|]. constructor; [by split | constructor].
Qed.

(** One turn of the loop on a batch that succeeds: the bar is advanced
    to the new value of the counter. *)
Lemma batch_step_scored_bar E j output_dir log_dir file_total folder c st b bs :
  batch_policy (j_mode j) (j_engine j) = true →
  output_dir ≠ log_dir →
  batch_scored E j output_dir log_dir folder →
  bars st = b :: bs →
  bar_completed b = file_count c →
  ∃ st',
    batch_step E j output_dir log_dir file_total folder c st =
      (Ok (tally file_total c true).1, st') ∧
    bars st' = bar_show (file_count (tally file_total c true).1) b :: bs.
Proof.
  intros Hpolicy Hne Hscored Hb Hc.
  set (t := remote j output_dir log_dir folder).
  set (st1 := MkState (out st ++ [EvSubmit t]) (fs st) (bars st) (tick st)).
  destruct (poll_until_ready_run E t st1) as (st0 & _ & _ & Hrun).
  destruct (scan_task_scored E j output_dir log_dir folder st0 Hpolicy Hne Hscored)
    as (v & s' & Htask & Hv).
  pose proof (poll_until_ready_bars E t st1) as Hbars.
  fold t in Htask. rewrite Htask in Hrun. cbn [fst snd] in Hrun.
  rewrite Hrun in Hbars. cbn [snd bars] in Hbars.
  unfold batch_step. fold t. rewrite bind_eq, emit_eq. fold st1.
  rewrite bind_eq, Hrun, bind_eq. unfold ray_get_ready.
  rewrite bind_eq, emit_eq. cbn [mret M_ret]. rewrite Hv.
  unfold tally.
  destruct (Z.ltb_spec file_total (file_count c + batch c));
    cbn [fst file_count]; rewrite bind_eq; unfold p_update_advance;
    rewrite update_bar_ok; cbn [mret M_ret];
    (eexists; split; [reflexivity|]);
    (erewrite update_bar_bars by (cbn [bars]; rewrite Hbars; exact Hb));
    cbv beta; do 2 f_equal; lia.
Qed.

Lemma batch_loop_scored_bar E j output_dir log_dir file_total :
  batch_policy (j_mode j) (j_engine j) = true →
  output_dir ≠ log_dir →
  0 ≤ j_batch j →
  ∀ folders c st i b bs,
    Forall (batch_scored E j output_dir log_dir) folders →
    0 ≤ i →
    failed c = 0 →
    (file_count c = i * j_batch j ∧ batch c = j_batch j ∧
     i * j_batch j ≤ file_total) ∨
    (file_count c = file_total ∧ 0 ≤ batch c ∧ file_total ≤ i * j_batch j) →
    bars st = b :: bs →
    bar_completed b = file_count c →
    ∃ c' st' b',
      for_each folders c (batch_step E j output_dir log_dir file_total) st =
        (Ok c', st') ∧
      failed c' = 0 ∧
      file_count c' =
        Z.min file_total ((i + Z.of_nat (length folders)) * j_batch j) ∧
      bars st' = b' :: bs ∧
      bar_total b' = bar_total b ∧
      bar_completed b' = file_count c' ∧
      bar_shown b' =
        bar_shown b ++
        map (λ k, Z.min file_total ((i + Z.of_nat k) * j_batch j))
            (seq 1 (length folders)).
Proof.
  intros Hpolicy Hne Hbatch.
  induction folders as [|folder folders IH];
    intros c st i b bs Hall Hi Hf Hinv Hb Hc.
  - exists c, st, b. cbn [for_each length seq map].
    split_and!; [reflexivity | exact Hf | | exact Hb | reflexivity | exact Hc
                | by rewrite app_nil_r].
    destruct Hinv as [(H1 & H2 & H3)|(H1 & H2 & H3)]; nia.
  - inversion Hall as [|? ? Hfolder Hrest]; subst.
    destruct (batch_step_scored_bar E j output_dir log_dir file_total folder c st
                b bs Hpolicy Hne Hfolder Hb Hc) as (st1 & Hstep & Hb1).
    destruct (tally_true_count file_total (j_batch j) i c Hbatch Hi Hf Hinv)
      as (Hf1 & Hinv1).
    set (c1 := (tally file_total c true).1) in *.
    assert (Hc1 : file_count c1 = Z.min file_total ((i + 1) * j_batch j)).
    { destruct Hinv1 as [(H1 & H2 & H3)|(H1 & H2 & H3)]; lia. }
    destruct (IH c1 st1 (i + 1) (bar_show (file_count c1) b) bs Hrest)
      as (c' & st' & b' & Hrun & Hf' & Hc' & Hb' & Ht' & Hcomp' & Hshown');
      [lia | exact Hf1 | exact Hinv1 | exact Hb1 | reflexivity |].
    exists c', st', b'. cbn [for_each]. rewrite bind_eq, Hstep.
    split_and!; [exact Hrun | exact Hf' | | exact Hb' | exact Ht' | exact Hcomp' |].
    + rewrite Hc'. cbn [length]. f_equal. lia.
    + rewrite Hshown'. cbn [bar_show bar_shown length seq map].
      rewrite <- app_assoc. cbn [app]. f_equal. f_equal.
      * rewrite Hc1. reflexivity.
      * rewrite <- (seq_shift (length folders) 1), map_map.
        apply List.map_ext. intros k. f_equal. lia.
Qed.

(** C7 (amended).  For every job whose limit and batch size are not
    negative, under both dispatch policies, every progress bar of the run
    is created for the job total and displays values that never decrease
    and never exceed it.  Under the per-batch policy, when every batch
    succeeds and the batch folders cover the total, the bar displays [0]
    and then, after the [k]-th batch, the smaller of the total and [k]
    times the batch size: the advance of the final partial batch is
    clipped, and the completed-file counter and the bar end at exactly
    the total. *)
Theorem progress_monotone_bounded (E : Env) (j : Job) (st : State) :
  0 ≤ j_limit j →
  0 ≤ j_batch j →
  bars st = [] →
  Forall (λ b, bar_ok b ∧ bar_total b = effective_total E j)
    (bars (run E j st).2) ∧
  (batch_policy (j_mode j) (j_engine j) = true →
   path_exists E (j_input_folder j) = true →
   effective_total E j ≠ 0 →
   Forall (batch_scored E j (job_output_dir E j) (job_log_dir E j))
     (job_folders E j) →
   effective_total E j ≤ Z.of_nat (length (job_folders E j)) * j_batch j →
   ∃ c st1 b,
     dispatch E j (dispatch_state E j st) = (Ok c, st1) ∧
     file_count c = effective_total E j ∧
     failed c = 0 ∧
     bars (run E j st).2 = [b] ∧
     bar_total b = effective_total E j ∧
     bar_completed b = effective_total E j ∧
     bar_shown b =
       batch_progress (effective_total E j) (j_batch j)
         (length (job_folders E j))).
Proof.
  intros Hlimit Hbatch Hst. split.
  - destruct (run_bars E j st Hlimit Hbatch) as (new & Hnew & Hall).
    rewrite Hnew, Hst, app_nil_r.
    eapply Forall_impl; [exact Hall|].
    intros b [Hs Ht]. split; [by apply bar_sound_ok | exact Ht].
  - intros Hpolicy Hex Hz Hscored Hcover.
    pose proof (effective_total_nonneg E j Hlimit) as Htot.
    set (T := effective_total E j) in *.
    set (o := job_output_dir E j) in *. set (l := job_log_dir E j) in *.
    set (st0 := dispatch_state E j st).
    assert (Hne : o ≠ l) by apply job_output_ne_log.
    pose proof (per_batch_unfold E j (job_input E j) o l T st0) as Hunfold.
    cbv zeta in Hunfold. fold (job_folders E j) in Hunfold.
    destruct (batch_loop_scored_bar E j o l T Hpolicy Hne Hbatch
                (job_folders E j) (Counters 0 0 (j_batch j))
                (MkState (out st0 ++ batch_setup E j (job_input E j)) (fs st0)
                   (Bar T 0 false [0] :: bars st0) (tick st0))
                0 (Bar T 0 false [0]) (bars st0) Hscored)
      as (c & s1 & b & Hrun & Hf & Hc & Hb & Ht & Hcomp & Hshown);
      [lia | reflexivity | left; cbn [file_count batch]; lia | reflexivity
      | reflexivity |].
    rewrite Hrun in Hunfold. cbn [fst snd batch_cleanup] in Hunfold.
    assert (Hcount : file_count c = T) by lia.
    assert (Hdispatch : dispatch E j st0 =
              (Ok c, MkState (out s1 ++ [EvRmtree ("temp/" +:+ pretty (clock E))])
                       (fs s1) (bars s1) (tick s1))).
    { unfold dispatch. rewrite Hpolicy. exact Hunfold. }
    eexists c, _, b. split_and!;
      [exact Hdispatch | exact Hcount | exact Hf | | exact Ht
      | by rewrite Hcomp | ].
    + rewrite run_dispatched by auto. fold st0 o l. rewrite bind_eq, Hdispatch.
      rewrite finalize_bars. cbn [bars]. rewrite Hb. subst st0.
      cbn [dispatch_state bars]. by rewrite Hst.
    + rewrite Hshown. unfold batch_progress.
      cbn [bar_shown seq map app]. f_equal. lia.
Qed.

Lemma progress_monotone_bounded_witness :
  let E := sample_env ["data/a.wav"; "data/b.wav"; "data/c.wav"]
             scan_scores no_fault in
  let j := sample_job "speech" "obqe" 0 2 in
  Forall (λ b, bar_ok b ∧ bar_total b = 3) (bars (run E j start).2) ∧
  ∃ b, bars (run E j start).2 = [b] ∧ bar_shown b = [0; 2; 3].
Proof.
  intros E j.
  destruct (progress_monotone_bounded E j start) as [Hall Hclip];
    [simpl; lia | simpl; lia | reflexivity |].
  split; [exact Hall|].
  destruct Hclip as (c & st1 & b & _ & _ & _ & Hb & _ & _ & Hshown);
    [reflexivity | reflexivity | vm_compute; discriminate | | vm_compute; discriminate
    | exists b; split; [exact Hb | exact Hshown]].
  vm_compute. repeat constructor;
    (eexists _, _, _; split_and!; [reflexivity | reflexivity | repeat constructor]).
Defined.

(** ** The finalizer, step by step *)

Lemma seal_log_exact E j input_folder log_dir c st :
  fault E FSeal = None →
  fault E FReload = None →
  let es := log_entries (fs st) log_dir in
  seal_log E j input_folder log_dir c st =
    match fault E FRewrite with
    | None =>
        (Ok (Some (recomputed_failed c es)),
         MkState (out st)
           (<[log_dir :=
                JsonFile (VDict [("metadata",
                                  VDict (sealed_log_metadata E j input_folder c es));
                                 ("log", VList (map VDict es))])]>
              (<[log_dir := LogFile es true]> (fs st)))
           (bars st) (tick st))
    | Some msg =>
        (Ok (Some (recomputed_failed c es)),
         MkState (out st ++ [EvEcho ("failed to reload metadata for log: " +:+ msg)])
           (<[log_dir := PartialFile]> (fs st)) (bars st) (tick st))
    end.
Proof.
  intros Hseal Hreload es.
  unfold seal_log, recomputed_failed, sealed_log_metadata, recomputed_failed.
  rewrite bind_eq, try_except_eq, bind_eq, (write_log_finish_ok E log_dir st Hseal).
  fold es. rewrite bind_eq.
  rewrite (json_load_sealed E log_dir _ es Hreload)
    by (cbn [fs]; apply lookup_insert_eq).
  cbn [mret M_ret]. rewrite bind_eq, try_except_eq.
  unfold json_dump, reload_failed.
  destruct (fault E FRewrite) as [msg|] eqn:Hrewrite; mrun;
    rewrite !insert_insert_eq; reflexivity.
Qed.

Lemma print_summary_fs E s st : fs (print_summary E s st).2 = fs st.
Proof.
  unfold print_summary. mrun. destruct (elapsed_us E =? 0); mrun; reflexivity.
Qed.

Lemma finalize_steps E j input_folder output_dir log_dir c st :
  fault E FSeal = None →
  fault E FReload = None →
  let fc := recomputed_failed c (log_entries (fs st) log_dir) in
  let od := nulled c fc output_dir in
  ∃ st1 st2 report_dir st3 outlier_filter st4,
    seal_log E j input_folder log_dir c st = (Ok (Some fc), st1) ∧
    seam_output E od st1 = (Ok tt, st2) ∧
    report_views E j od st2 = (Ok report_dir, st3) ∧
    filter_views E j od st3 = (Ok outlier_filter, st4) ∧
    finalize E j input_folder output_dir log_dir c st =
      print_summary E
        (summary E input_folder log_dir (file_count c) od report_dir
           outlier_filter) st4.
Proof.
  intros Hseal Hreload fc od.
  destruct (seal_log_bound E j input_folder log_dir c st Hseal Hreload)
    as (st1 & Hs & _).
  destruct (seam_output_ok E od st1) as (st2 & Hseam & _).
  destruct (report_views_ok E j od st2) as (report_dir & st3 & Hrep & _).
  destruct (filter_views_ok E j od st3) as (outlier_filter & st4 & Hfil & _).
  exists st1, st2, report_dir, st3, outlier_filter, st4.
  split_and!; auto.
  unfold finalize. rewrite bind_eq, Hs, bind_eq. cbn [mret M_ret].
  fold fc. fold od. by rewrite bind_eq, Hseam, bind_eq, Hrep, bind_eq, Hfil.
Qed.

Lemma finalize_store E j input_folder output_dir log_dir c st q :
  fault E FSeal = None →
  fault E FReload = None →
  q ≠ output_dir →
  ∃ st1,
    seal_log E j input_folder log_dir c st =
      (Ok (Some (recomputed_failed c (log_entries (fs st) log_dir))), st1) ∧
    fs (finalize E j input_folder output_dir log_dir c st).2 !! q = fs st1 !! q.
Proof.
  intros Hseal Hreload Hq.
  destruct (finalize_steps E j input_folder output_dir log_dir c st Hseal Hreload)
    as (st1 & st2 & rd & st3 & flt & st4 & Hs & Hseam & Hrep & Hfil & Hfin).
  exists st1. split; [exact Hs|]. rewrite Hfin, print_summary_fs.
  destruct (seam_output_ok E
              (nulled c (recomputed_failed c (log_entries (fs st) log_dir))
                 output_dir) st1) as (st2' & Hseam' & _ & _ & Hfs2).
  destruct (report_views_ok E j
              (nulled c (recomputed_failed c (log_entries (fs st) log_dir))
                 output_dir) st2) as (rd' & st3' & Hrep' & _ & [_ Hfs3] & _).
  destruct (filter_views_ok E j
              (nulled c (recomputed_failed c (log_entries (fs st) log_dir))
                 output_dir) st3) as (flt' & st4' & Hfil' & _ & [_ Hfs4] & _).
  rewrite Hseam in Hseam'. rewrite Hrep in Hrep'. rewrite Hfil in Hfil'.
  inversion Hseam'; inversion Hrep'; inversion Hfil'; subst.
  rewrite Hfs4, Hfs3. apply Hfs2.
  unfold nulled. destruct (file_count c =? _); congruence.
Qed.

Lemma sealed_log_metadata_fields E j input_folder c es :
  let m := sealed_log_metadata E j input_folder c es in
  dict_get "log" m = Some (VInt (Z.of_nat (length es))) ∧
  dict_get "processed" m = Some (VInt (file_count c)) ∧
  dict_get "failed" m = Some (VInt (recomputed_failed c es)) ∧
  dict_get "fusion" m =
    (if String.eqb (j_engine j) "fusion" then Some (VInt (j_fusion j)) else None).
Proof.
  unfold sealed_log_metadata, log_metadata.
  destruct (String.eqb (j_engine j) "fusion"); split_and!; reflexivity.
Qed.

(** X13.  When the log is sealed, read back and rewritten without a
    failure, the file the job leaves holds exactly the entries that were
    appended during the run, in order, under ["log"], and a metadata block
    whose ["log"] is their number, whose ["processed"] is the processed
    count, whose ["failed"] is the count the finalizer settled on, and
    which has a ["fusion"] key exactly for the fusion engine. *)
Theorem sealed_log_round_trip (E : Env) (j : Job)
    (input_folder output_dir log_dir : string) (c : counters) (st : State) :
  fault E FSeal = None →
  fault E FReload = None →
  fault E FRewrite = None →
  output_dir ≠ log_dir →
  let es := log_entries (fs st) log_dir in
  let m := sealed_log_metadata E j input_folder c es in
  fs (finalize E j input_folder output_dir log_dir c st).2 !! log_dir =
    Some (JsonFile (VDict [("metadata", VDict m); ("log", VList (map VDict es))])) ∧
  dict_get "log" m = Some (VInt (Z.of_nat (length es))) ∧
  dict_get "processed" m = Some (VInt (file_count c)) ∧
  dict_get "failed" m = Some (VInt (recomputed_failed c es)) ∧
  dict_get "fusion" m =
    (if String.eqb (j_engine j) "fusion" then Some (VInt (j_fusion j)) else None).
Proof.
  intros Hseal Hreload Hrewrite Hne es m.
  split; [|apply sealed_log_metadata_fields].
  destruct (finalize_store E j input_folder output_dir log_dir c st log_dir
              Hseal Hreload) as (st1 & Hs & Hfs); [congruence|].
  rewrite Hfs.
  rewrite (seal_log_exact E j input_folder log_dir c st Hseal Hreload), Hrewrite
    in Hs.
  inversion Hs. cbn [fs]. apply lookup_insert_eq.
Qed.

Lemma sealed_log_round_trip_witness :
  let E := sample_env ["data/a.png"] scan_scores no_fault in
  let j := sample_job "iris" "obqe" 0 30 in
  fs (finalize E j "data/" "out/output.csv" "out/log.json" (Counters 2 0 30)
        sample_state).2 !! "out/log.json" =
    Some (JsonFile
            (VDict [("metadata",
                     VDict (sealed_log_metadata E j "data/" (Counters 2 0 30)
                              [[("file", VStr "data/a.png");
                                ("load image", VStr "failed")]]));
                    ("log", VList [VDict [("file", VStr "data/a.png");
                                          ("load image", VStr "failed")]])])).
Proof.
  intros E j.
  destruct (sealed_log_round_trip E j "data/" "out/output.csv" "out/log.json"
              (Counters 2 0 30) sample_state) as (H & _);
    [reflexivity | reflexivity | reflexivity | vm_compute; discriminate
    | exact H].
Defined.

(** X14.  A failure of the rewrite of the log (the [json.dump] of the
    metadata) is caught: the warning is printed, [failed_count] is already
    bound, and the job goes on to its summary, which still names the log.
    The log itself is lost: it was opened for writing, and so truncated,
    before the dump failed, and neither the sealed entries nor a metadata
    block are left in it. *)
Theorem rewrite_failure_is_caught (E : Env) (j : Job)
    (input_folder output_dir log_dir : string) (c : counters) (st : State)
    (msg : string) :
  fault E FSeal = None →
  fault E FReload = None →
  fault E FRewrite = Some msg →
  elapsed_us E ≠ 0 →
  output_dir ≠ log_dir →
  let es := log_entries (fs st) log_dir in
  ∃ st' warnings report_dir outlier_filter,
    finalize E j input_folder output_dir log_dir c st = (Ok tt, st') ∧
    out st' =
      out st ++ [EvEcho ("failed to reload metadata for log: " +:+ msg)] ++
      warnings ++
      closing (summary E input_folder log_dir (file_count c)
                 (nulled c (recomputed_failed c es) output_dir)
                 report_dir outlier_filter) ∧
    Forall is_warning warnings ∧
    fs st' !! log_dir = Some PartialFile ∧
    log_entries (fs st') log_dir = [] ∧
    sealed_metadata (fs st') log_dir "failed" = None.
Proof.
  intros Hseal Hreload Hrewrite Hz Hne es.
  cut (∃ st' warnings report_dir outlier_filter,
    finalize E j input_folder output_dir log_dir c st = (Ok tt, st') ∧
    out st' =
      out st ++ [EvEcho ("failed to reload metadata for log: " +:+ msg)] ++
      warnings ++
      closing (summary E input_folder log_dir (file_count c)
                 (nulled c (recomputed_failed c es) output_dir)
                 report_dir outlier_filter) ∧
    Forall is_warning warnings ∧
    fs st' !! log_dir = Some PartialFile).
  { intros (st' & w & rd & flt & H1 & H2 & H3 & H4).
    exists st', w, rd, flt. split_and!; auto.
    - unfold log_entries. by rewrite H4.
    - unfold sealed_metadata. by rewrite H4. }
  destruct (finalize_steps E j input_folder output_dir log_dir c st Hseal Hreload)
    as (st1 & st2 & rd & st3 & flt & st4 & Hs & Hseam & Hrep & Hfil & Hfin).
  destruct (finalize_store E j input_folder output_dir log_dir c st log_dir
              Hseal Hreload) as (st1' & Hs' & Hfs); [congruence|].
  rewrite Hs in Hs'. inversion Hs'; subst st1'. clear Hs'.
  rewrite (seal_log_exact E j input_folder log_dir c st Hseal Hreload), Hrewrite
    in Hs.
  inversion Hs as [Hst1]. clear Hs.
  set (od := nulled c (recomputed_failed c (log_entries (fs st) log_dir))
               output_dir) in *.
  destruct (seam_output_ok E od st1) as (? & Hseam' & (w2 & Ho2 & Hw2) & _).
  rewrite Hseam in Hseam'. inversion Hseam'; subst x.
  destruct (report_views_ok E j od st2)
    as (? & ? & Hrep' & (w3 & Ho3 & Hw3) & _).
  rewrite Hrep in Hrep'. inversion Hrep'; subst x x0.
  destruct (filter_views_ok E j od st3)
    as (? & ? & Hfil' & (w4 & Ho4 & Hw4) & _).
  rewrite Hfil in Hfil'. inversion Hfil'; subst x x0.
  rewrite (print_summary_ok E _ _ Hz) in Hfin.
  eexists _, (w2 ++ w3 ++ w4), rd, flt. split_and!.
  - exact Hfin.
  - cbn [out]. rewrite Ho4, Ho3, Ho2, <- Hst1. cbn [out].
    by rewrite <- !app_assoc.
  - by repeat (apply Forall_app; split).
  - rewrite Hfin in Hfs. cbn [snd fs] in Hfs. cbn [fs]. rewrite Hfs, <- Hst1.
    cbn [fs]. apply lookup_insert_eq.
Qed.

Lemma rewrite_failure_is_caught_witness :
  let E := sample_env ["data/a.png"] scan_scores (rewrite_fault "disk full") in
  let j := sample_job "iris" "obqe" 0 30 in
  ∃ st', finalize E j "data/" "out/output.csv" "out/log.json" (Counters 2 0 30)
           sample_state = (Ok tt, st') ∧
         log_entries (fs sample_state) "out/log.json" =
           [[("file", VStr "data/a.png"); ("load image", VStr "failed")]] ∧
         fs st' !! "out/log.json" = Some PartialFile.
Proof.
  intros E j.
  destruct (rewrite_failure_is_caught E j "data/" "out/output.csv" "out/log.json"
              (Counters 2 0 30) sample_state "disk full")
    as (st' & w & rd & flt & Hrun & _ & _ & Hfs & _);
    [reflexivity | reflexivity | reflexivity | vm_compute; discriminate
    | vm_compute; discriminate | ].
  exists st'. split_and!; [exact Hrun | reflexivity | exact Hfs].
Defined.

Lemma seal_log_store E j input_folder log_dir c st q :
  fault E FSeal = None →
  fault E FReload = None →
  q ≠ log_dir →
  fs (seal_log E j input_folder log_dir c st).2 !! q = fs st !! q.
Proof.
  intros Hseal Hreload Hq.
  rewrite (seal_log_exact E j input_folder log_dir c st Hseal Hreload).
  destruct (fault E FRewrite); cbn [snd fs];
    rewrite ?lookup_insert_ne by congruence; reflexivity.
Qed.

Lemma seal_log_warnings E j input_folder log_dir c st :
  fault E FSeal = None →
  fault E FReload = None →
  ∃ w, out (seal_log E j input_folder log_dir c st).2 = out st ++ w ∧
       Forall (λ e, ∃ m, e = EvEcho ("failed to reload metadata for log: " +:+ m)) w.
Proof.
  intros Hseal Hreload.
  rewrite (seal_log_exact E j input_folder log_dir c st Hseal Hreload).
  destruct (fault E FRewrite); cbn [snd out].
  - eexists [_]. split; [reflexivity|]. repeat constructor. by eexists.
  - exists []. split; [by rewrite app_nil_r | constructor].
Qed.

Lemma reload_warning_is_warning w :
  Forall (λ e, ∃ m, e = EvEcho ("failed to reload metadata for log: " +:+ m)) w →
  Forall is_warning w.
Proof. intros H. eapply Forall_impl; [exact H|]. by intros e [m ->]. Qed.

Lemma views_falsy dir k1 f1 k2 f2 :
  truthy dir = false → views dir k1 f1 k2 f2 = Ok (VBool false).
Proof. intros H. unfold views. by rewrite H. Qed.

Lemma views_dict d k1 f1 k2 f2 :
  d ≠ [] → views (VDict d) k1 f1 k2 f2 = Ok (view2 d k1 f1 k2 f2).
Proof. intros H. unfold views, view2. destruct d; [done | reflexivity]. Qed.

Lemma nulled_kept c fc output_dir :
  file_count c ≠ fc → nulled c fc output_dir = Some output_dir.
Proof. intros H. unfold nulled. by destruct (Z.eqb_spec (file_count c) fc). Qed.

(** X15.  A failure while the output table is seamed is caught and
    printed as a warning; the job still ends with its summary, whose
    output reference stays the table, and the table is left as the tasks
    wrote it. *)
Theorem seam_failure_keeps_output (E : Env) (j : Job)
    (input_folder output_dir log_dir : string) (c : counters) (st : State)
    (msg : string) :
  fault E FSeal = None →
  fault E FReload = None →
  fault E FSeam = Some msg →
  elapsed_us E ≠ 0 →
  output_dir ≠ log_dir →
  truthy_str output_dir = true →
  file_count c ≠ recomputed_failed c (log_entries (fs st) log_dir) →
  ∃ st' before after report_dir outlier_filter,
    finalize E j input_folder output_dir log_dir c st = (Ok tt, st') ∧
    out st' =
      out st ++ before ++ [EvEcho ("failed to seam output: " +:+ msg)] ++
      after ++
      closing (summary E input_folder log_dir (file_count c) (Some output_dir)
                 report_dir outlier_filter) ∧
    Forall is_warning before ∧ Forall is_warning after ∧
    fs st' !! output_dir = fs st !! output_dir.
Proof.
  intros Hseal Hreload Hfault Hz Hne Ho Hfc.
  destruct (finalize_steps E j input_folder output_dir log_dir c st Hseal Hreload)
    as (st1 & st2 & rd & st3 & flt & st4 & Hs & Hseam & Hrep & Hfil & Hfin).
  rewrite (nulled_kept _ _ _ Hfc) in Hseam, Hrep, Hfil, Hfin.
  pose proof (seal_log_store E j input_folder log_dir c st output_dir
                Hseal Hreload Hne) as Hfs1.
  destruct (seal_log_warnings E j input_folder log_dir c st Hseal Hreload)
    as (w1 & Ho1 & Hw1).
  rewrite Hs in Hfs1, Ho1. cbn [snd] in Hfs1, Ho1.
  unfold seam_output, write_csv_seam, when in Hseam.
  rewrite try_except_eq, Ho, Hfault in Hseam. cbn [raise] in Hseam.
  rewrite emit_eq in Hseam. inversion Hseam as [Hst2]. clear Hseam.
  destruct (report_views_ok E j (Some output_dir) st2)
    as (? & ? & Hrep' & (w3 & Ho3 & Hw3) & [_ Hfs3] & _).
  rewrite Hrep in Hrep'. inversion Hrep'; subst x x0.
  destruct (filter_views_ok E j (Some output_dir) st3)
    as (? & ? & Hfil' & (w4 & Ho4 & Hw4) & [_ Hfs4] & _).
  rewrite Hfil in Hfil'. inversion Hfil'; subst x x0.
  rewrite (print_summary_ok E _ _ Hz) in Hfin.
  eexists _, w1, (w3 ++ w4), rd, flt. split_and!.
  - exact Hfin.
  - cbn [out]. rewrite Ho4, Ho3, <- Hst2. cbn [out]. rewrite Ho1.
    by rewrite <- !app_assoc.
  - by apply reload_warning_is_warning.
  - by apply Forall_app.
  - cbn [fs]. rewrite Hfs4, Hfs3, <- Hst2. cbn [fs]. exact Hfs1.
Qed.

Lemma seam_failure_keeps_output_witness :
  let E := sample_env ["data/a.png"] scan_scores (seam_fault "disk full") in
  let j := sample_job "iris" "obqe" 0 30 in
  ∃ st', finalize E j "data/" "out/output.csv" "out/log.json" (Counters 2 0 30)
           sample_state = (Ok tt, st') ∧
         fs st' !! "out/output.csv" =
           Some (CsvFile [VDict [("file", VStr "data/b.png")]] false).
Proof.
  intros E j.
  destruct (seam_failure_keeps_output E j "data/" "out/output.csv" "out/log.json"
              (Counters 2 0 30) sample_state "disk full")
    as (st' & w1 & w2 & rd & flt & Hrun & _ & _ & _ & Hfs);
    [reflexivity | reflexivity | reflexivity | vm_compute; discriminate
    | vm_compute; discriminate | reflexivity | vm_compute; discriminate | ].
  exists st'. split; [exact Hrun | exact Hfs].
Defined.

(** X16.  When the processed count equals the failure count the
    finalizer settled on, the table reference is dropped before anything
    is done with it: the table is not seamed, no report is generated and
    no filter is applied even when they were asked for, and the summary
    has a null output, a null report and no outlier-filter block. *)
Theorem nulled_output_is_left_alone (E : Env) (j : Job)
    (input_folder output_dir log_dir : string) (c : counters) (st : State) :
  fault E FSeal = None →
  fault E FReload = None →
  elapsed_us E ≠ 0 →
  output_dir ≠ log_dir →
  file_count c = recomputed_failed c (log_entries (fs st) log_dir) →
  let s := summary E input_folder log_dir (file_count c) None VNone VNone in
  ∃ st' warnings,
    finalize E j input_folder output_dir log_dir c st = (Ok tt, st') ∧
    out st' = out st ++ warnings ++ closing s ∧
    Forall (λ e, ∃ m, e = EvEcho ("failed to reload metadata for log: " +:+ m))
      warnings ∧
    fs st' !! output_dir = fs st !! output_dir ∧
    task_field "Output" (VDict s) = Some VNone ∧
    task_field "Report" (VDict s) = Some VNone ∧
    dict_get "Outlier Filter" s = None.
Proof.
  intros Hseal Hreload Hz Hne Hfc s.
  destruct (finalize_steps E j input_folder output_dir log_dir c st Hseal Hreload)
    as (st1 & st2 & rd & st3 & flt & st4 & Hs & Hseam & Hrep & Hfil & Hfin).
  assert (Hod : nulled c (recomputed_failed c (log_entries (fs st) log_dir))
                  output_dir = None).
  { unfold nulled. by rewrite <- Hfc, Z.eqb_refl. }
  rewrite Hod in Hseam, Hrep, Hfil, Hfin.
  pose proof (seal_log_store E j input_folder log_dir c st output_dir
                Hseal Hreload Hne) as Hfs1.
  destruct (seal_log_warnings E j input_folder log_dir c st Hseal Hreload)
    as (w1 & Ho1 & Hw1).
  rewrite Hs in Hfs1, Ho1. cbn [snd] in Hfs1, Ho1.
  inversion Hseam; inversion Hrep; inversion Hfil; subst.
  rewrite (print_summary_ok E _ _ Hz) in Hfin. fold s in Hfin.
  eexists _, w1. split; [exact Hfin|]. split_and!; try reflexivity.
  - cbn [out]. rewrite Ho1. by rewrite <- app_assoc.
  - exact Hw1.
  - exact Hfs1.
Qed.

Lemma nulled_output_is_left_alone_witness :
  let E := sample_env ["data/a.png"] scan_scores no_fault in
  let j := sample_job "iris" "obqe" 0 30 in
  ∃ st', finalize E j "data/" "out/output.csv" "out/log.json" (Counters 1 0 30)
           sample_state = (Ok tt, st') ∧
         fs st' !! "out/output.csv" =
           Some (CsvFile [VDict [("file", VStr "data/b.png")]] false).
Proof.
  intros E j.
  destruct (nulled_output_is_left_alone E j "data/" "out/output.csv"
              "out/log.json" (Counters 1 0 30) sample_state)
    as (st' & w & Hrun & _ & _ & Hfs & _);
    [reflexivity | reflexivity | vm_compute; discriminate
    | vm_compute; discriminate | reflexivity | ].
  exists st'. split; [exact Hrun | exact Hfs].
Defined.

(** X17.  The report reference of the summary, for a job that keeps
    its table and asked for a report.  When the generator returns a
    non-empty dict the reference is the pair of its ["table"] and
    ["report"] entries (null where absent) under the keys
    ["Preview Table"] and ["EDA Report"]; when it returns something falsy
    the reference is [False], not null, and no warning is printed for
    it. *)
Theorem report_reference_values (E : Env) (j : Job)
    (input_folder output_dir log_dir : string) (c : counters) (st : State)
    (dir : value) :
  fault E FSeal = None →
  fault E FReload = None →
  elapsed_us E ≠ 0 →
  truthy_str output_dir = true →
  file_count c ≠ recomputed_failed c (log_entries (fs st) log_dir) →
  j_reporting j = true →
  generate_report E output_dir (j_cwd j) (j_prefix j) = Ok dir →
  (truthy dir = false ∨ ∃ d, dir = VDict d) →
  let report_dir :=
    match dir with
    | VDict (kv :: d) => view2 (kv :: d) "Preview Table" "table" "EDA Report" "report"
    | _ => VBool false
    end in
  ∃ st' warnings outlier_filter,
    finalize E j input_folder output_dir log_dir c st = (Ok tt, st') ∧
    out st' =
      out st ++ warnings ++
      closing (summary E input_folder log_dir (file_count c) (Some output_dir)
                 report_dir outlier_filter) ∧
    Forall (λ e, ∀ m, e ≠ EvEcho ("failed to generate report: " +:+ m)) warnings.
Proof.
  intros Hseal Hreload Hz Ho Hfc Hreporting Hgen Hdir report_dir.
  destruct (finalize_steps E j input_folder output_dir log_dir c st Hseal Hreload)
    as (st1 & st2 & rd & st3 & flt & st4 & Hs & Hseam & Hrep & Hfil & Hfin).
  rewrite (nulled_kept _ _ _ Hfc) in Hseam, Hrep, Hfil, Hfin.
  destruct (seal_log_warnings E j input_folder log_dir c st Hseal Hreload)
    as (w1 & Ho1 & Hw1).
  rewrite Hs in Ho1. cbn [snd] in Ho1.
  assert (Hw1' : Forall (λ e, ∀ m, e ≠ EvEcho ("failed to generate report: " +:+ m)) w1).
  { eapply Forall_impl; [exact Hw1|]. intros e [m ->] m' Hm. cbn in Hm.
    discriminate Hm. }
  assert (Hseam' : ∃ w2, out st2 = out st1 ++ w2 ∧
            Forall (λ e, ∀ m, e ≠ EvEcho ("failed to generate report: " +:+ m)) w2).
  { unfold seam_output, write_csv_seam, when in Hseam.
    rewrite try_except_eq, Ho in Hseam.
    destruct (fault E FSeam) as [msg|].
    - cbn [raise] in Hseam. rewrite emit_eq in Hseam. inversion Hseam.
      eexists [_]. split; [reflexivity|]. repeat constructor.
      intros m Hm. inversion Hm.
    - rewrite bind_eq in Hseam. cbn [get_fs] in Hseam.
      exists []. rewrite app_nil_r. split; [|constructor].
      destruct (fs st1 !! output_dir) as [[| | |]|]; inversion Hseam; reflexivity. }
  destruct Hseam' as (w2 & Ho2 & Hw2).
  assert (Hrd : rd = report_dir ∧ st3 = st2).
  { unfold report_views in Hrep.
    rewrite try_except_eq, Ho, Hreporting in Hrep. cbn [andb] in Hrep.
    rewrite bind_eq, Hgen in Hrep. cbn [lift_res] in Hrep. unfold report_dir.
    destruct Hdir as [Hfalsy|[d ->]].
    - rewrite (views_falsy _ _ _ _ _ Hfalsy) in Hrep. inversion Hrep.
      split; [|reflexivity]. destruct dir as [| | | | |[|kv d]]; try reflexivity.
      discriminate.
    - destruct d as [|kv d].
      + cbn in Hrep. inversion Hrep. by split.
      + rewrite views_dict in Hrep by discriminate. inversion Hrep. by split. }
  destruct Hrd as [-> ->].
  assert (Hfil' : ∃ w4, out st4 = out st2 ++ w4 ∧
            Forall (λ e, ∀ m, e ≠ EvEcho ("failed to generate report: " +:+ m)) w4).
  { unfold filter_views in Hfil. rewrite try_except_eq in Hfil.
    destruct (truthy_str output_dir && _).
    - rewrite bind_eq in Hfil. unfold lift_res in Hfil.
      destruct (filter_output E output_dir _ _ _ _ _) as [fdir|e].
      + destruct (views fdir "Output" "output" "Report" "report").
        * inversion Hfil. exists []. rewrite app_nil_r. split; [done | constructor].
        * inversion Hfil. eexists [_]. split; [reflexivity|]. repeat constructor.
          intros m Hm. inversion Hm.
      + inversion Hfil. eexists [_]. split; [reflexivity|]. repeat constructor.
        intros m Hm. inversion Hm.
    - inversion Hfil. exists []. rewrite app_nil_r. split; [done | constructor]. }
  destruct Hfil' as (w4 & Ho4 & Hw4).
  rewrite (print_summary_ok E _ _ Hz) in Hfin.
  eexists _, (w1 ++ w2 ++ w4), flt. split_and!.
  - exact Hfin.
  - cbn [out]. rewrite Ho4, Ho2, Ho1. by rewrite <- !app_assoc.
  - by repeat (apply Forall_app; split).
Qed.

Lemma report_reference_values_witness :
  let E := sample_env_views (Ok (VDict [])) (Ok VNone) in
  let j := sample_job_views true "" in
  ∃ st' warnings outlier_filter,
    finalize E j "data/" "out/output.csv" "out/log.json" (Counters 2 0 30)
      sample_state = (Ok tt, st') ∧
    out st' =
      out sample_state ++ warnings ++
      closing (summary E "data/" "out/log.json" 2 (Some "out/output.csv")
                 (VBool false) outlier_filter).
Proof.
  intros E j.
  destruct (report_reference_values E j "data/" "out/output.csv" "out/log.json"
              (Counters 2 0 30) sample_state (VDict []))
    as (st' & w & flt & Hrun & Hout & _);
    [reflexivity | reflexivity | vm_compute; discriminate | reflexivity
    | vm_compute; discriminate | reflexivity | reflexivity
    | left; reflexivity | ].
  exists st', w, flt. split; [exact Hrun | exact Hout].
Defined.

Lemma summary_outlier_filter E input_folder log_dir n output_dir report_dir
    outlier_filter :
  dict_get "Outlier Filter"
    (summary E input_folder log_dir n output_dir report_dir outlier_filter) =
  if truthy outlier_filter then Some outlier_filter else None.
Proof. unfold summary. by destruct (truthy outlier_filter). Qed.

Lemma views_cases dir k1 f1 k2 f2 :
  views dir k1 f1 k2 f2 =
  match dir with
  | VDict (kv :: d) => Ok (view2 (kv :: d) k1 f1 k2 f2)
  | _ =>
      if truthy dir then Err (AttributeError "object has no attribute 'get'")
      else Ok (VBool false)
  end.
Proof.
  unfold views, view2.
  destruct dir as [| | | | |[|kv d]]; cbn [truthy py_get];
    try reflexivity; by destruct (_ : bool).
Qed.

(** X18.  The summary of a job that keeps its table has an
    ["Outlier Filter"] block exactly when one of the filter arguments
    (attributes, query, sort) was given and the filter returned a non-empty
    dict; the block is then the pair of its ["output"] and ["report"]
    entries.  A filter that fails, or returns nothing, leaves the summary
    without the block. *)
Theorem outlier_filter_block (E : Env) (j : Job)
    (input_folder output_dir log_dir : string) (c : counters) (st : State) :
  fault E FSeal = None →
  fault E FReload = None →
  elapsed_us E ≠ 0 →
  truthy_str output_dir = true →
  file_count c ≠ recomputed_failed c (log_entries (fs st) log_dir) →
  let block :=
    if filter_asked j then
      match filter_output E output_dir (j_attributes j) (j_query j) (j_sort j)
              (j_cwd j) (j_prefix j) with
      | Ok (VDict (kv :: d)) =>
          Some (view2 (kv :: d) "Output" "output" "Report" "report")
      | _ => None
      end
    else None in
  ∃ st' warnings s,
    finalize E j input_folder output_dir log_dir c st = (Ok tt, st') ∧
    out st' = out st ++ warnings ++ closing s ∧
    Forall is_warning warnings ∧
    dict_get "Outlier Filter" s = block.
Proof.
  intros Hseal Hreload Hz Ho Hfc block.
  destruct (finalize_steps E j input_folder output_dir log_dir c st Hseal Hreload)
    as (st1 & st2 & rd & st3 & flt & st4 & Hs & Hseam & Hrep & Hfil & Hfin).
  rewrite (nulled_kept _ _ _ Hfc) in Hseam, Hrep, Hfil, Hfin.
  destruct (seal_log_warnings E j input_folder log_dir c st Hseal Hreload)
    as (w1 & Ho1 & Hw1%reload_warning_is_warning).
  rewrite Hs in Ho1. cbn [snd] in Ho1.
  destruct (seam_output_ok E (Some output_dir) st1)
    as (? & Hseam' & (w2 & Ho2 & Hw2) & _).
  rewrite Hseam in Hseam'. inversion Hseam'; subst x.
  destruct (report_views_ok E j (Some output_dir) st2)
    as (? & ? & Hrep' & (w3 & Ho3 & Hw3) & _).
  rewrite Hrep in Hrep'. inversion Hrep'; subst x x0.
  destruct (filter_views_ok E j (Some output_dir) st3)
    as (? & ? & Hfil' & (w4 & Ho4 & Hw4) & _).
  rewrite Hfil in Hfil'. inversion Hfil'; subst x x0.
  rewrite (print_summary_ok E _ _ Hz) in Hfin.
  eexists _, (w1 ++ w2 ++ w3 ++ w4), _. split; [exact Hfin|]. split_and!.
  - cbn [out]. rewrite Ho4, Ho3, Ho2, Ho1. by rewrite <- !app_assoc.
  - by repeat (apply Forall_app; split).
  - rewrite summary_outlier_filter. unfold block, filter_asked.
    unfold filter_views in Hfil. rewrite try_except_eq, Ho in Hfil.
    cbn [andb] in Hfil.
    destruct (truthy_str (j_attributes j) || truthy_str (j_query j) ||
              truthy_str (j_sort j)).
    + rewrite bind_eq in Hfil. unfold lift_res in Hfil.
      destruct (filter_output E output_dir _ _ _ _ _) as [fdir|e].
      * rewrite views_cases in Hfil.
        destruct fdir as [| | | | |[|kv d]];
          try match type of Hfil with
              | context [if ?b then _ else _] => destruct b
              end;
          inversion Hfil; reflexivity.
      * inversion Hfil. reflexivity.
    + inversion Hfil. reflexivity.
Qed.

Lemma outlier_filter_block_witness :
  let E := sample_env_views (Ok VNone)
             (Ok (VDict [("output", VStr "out/filtered.csv")])) in
  let j := sample_job_views false "quality > 50" in
  ∃ st' warnings s,
    finalize E j "data/" "out/output.csv" "out/log.json" (Counters 2 0 30)
      sample_state = (Ok tt, st') ∧
    out st' = out sample_state ++ warnings ++ closing s ∧
    dict_get "Outlier Filter" s =
      Some (VDict [("Output", VStr "out/filtered.csv"); ("Report", VNone)]).
Proof.
  intros E j.
  destruct (outlier_filter_block E j "data/" "out/output.csv" "out/log.json"
              (Counters 2 0 30) sample_state)
    as (st' & w & s & Hrun & Hout & _ & Hblock);
    [reflexivity | reflexivity | vm_compute; discriminate | reflexivity
    | vm_compute; discriminate | ].
  exists st', w, s. split_and!; [exact Hrun | exact Hout | exact Hblock].
Defined.

(** ** The stand-alone report and filter jobs *)

Lemma filter_view_cases dir :
  filter_view dir =
  match dir with
  | VDict (kv :: d) => Ok (view3 (kv :: d))
  | _ =>
      if truthy dir then Err (AttributeError "object has no attribute 'get'")
      else Ok (VBool false)
  end.
Proof.
  unfold filter_view, view3.
  destruct dir as [| | | | |[|kv d]]; cbn [truthy py_get];
    try reflexivity; by destruct (_ : bool).
Qed.

(** X19.  The stand-alone report job never raises and always ends
    with the termination line.  When the generator returns a non-empty
    dict, the job prints one summary, [{"EDA Report": {"Preview Table":
    ..., "EDA Report": ...}}], and returns the generator's dict; when it
    returns something falsy the job prints no summary and returns that
    value; when it raises, or returns something truthy that is not a
    dict, the job prints the "failed to generate report" warning, no
    summary, and returns the empty dict.  The artifacts are untouched. *)
Theorem report_job_outcomes (E : Env) (input cwd prefix : string) (st : State) :
  let r := generate_report E input cwd prefix in
  report_job E input cwd prefix st =
    (Ok (standalone_result r),
     MkState
       (out st ++
        standalone_trace "failed to generate report: " "EDA Report"
          (λ d, view2 d "Preview Table" "table" "EDA Report" "report") r)
       (fs st) (bars st) (tick st)).
Proof.
  intros r. unfold report_job, print_views, standalone_result, standalone_trace.
  rewrite bind_eq, try_except_eq, bind_eq. unfold lift_res at 1. fold r.
  destruct r as [dir|e].
  - rewrite bind_eq. unfold lift_res. rewrite views_cases.
    destruct dir as [|b|z|s|l|[|kv d]]; cbn [truthy];
      try match goal with
          | |- context [if ?b then Err _ else _] => destruct b
          end;
      mrun; unfold view2, view3; cbn [truthy when]; mrun;
      rewrite <- ?app_assoc; reflexivity.
  - mrun. cbn [truthy when]. mrun. rewrite <- ?app_assoc. reflexivity.
Qed.

(** X20.  The stand-alone filter job behaves in the same way: it never
    raises, and either prints one summary, [{"Output Filter": {"Table":
    ..., "Output": ..., "Report": ...}}], and returns the filter's
    non-empty dict, or prints no summary and returns the falsy answer, or
    prints the "failed to apply filter" warning and returns the empty
    dict; it always ends with the termination line and leaves the
    artifacts untouched. *)
Theorem filter_job_outcomes (E : Env)
    (output attributes query sort cwd prefix : string) (st : State) :
  let r := filter_output E output attributes query sort cwd prefix in
  filter_job E output attributes query sort cwd prefix st =
    (Ok (standalone_result r),
     MkState
       (out st ++
        standalone_trace "failed to apply filter: " "Output Filter" view3 r)
       (fs st) (bars st) (tick st)).
Proof.
  intros r. unfold filter_job, print_views, standalone_result, standalone_trace.
  rewrite bind_eq, try_except_eq, bind_eq. unfold lift_res at 1. fold r.
  destruct r as [dir|e].
  - rewrite bind_eq. unfold lift_res. rewrite filter_view_cases.
    destruct dir as [|b|z|s|l|[|kv d]]; cbn [truthy];
      try match goal with
          | |- context [if ?b then Err _ else _] => destruct b
          end;
      mrun; unfold view2, view3; cbn [truthy when]; mrun;
      rewrite <- ?app_assoc; reflexivity.
  - mrun. cbn [truthy when]. mrun. rewrite <- ?app_assoc. reflexivity.
Qed.

(** * The command line *)

Lemma cli_bind_eq {A B} (m : CLI A) (k : A → CLI B) (p : Proc) :
  (m ≫= k) p =
  match m p with
  | (Ok a, p') => k a p'
  | (Err e, p') => (Err e, p')
  end.
Proof. reflexivity. Qed.

Ltac clirun :=
  repeat (rewrite ?cli_bind_eq;
          cbn [mret CLI_ret INPUT_TYPE world]).

Lemma call_banner E K p :
  call (banner E K) p = (Ok tt, printing (banner_trace E K) p).
Proof.
  unfold call, banner, printing, banner_trace. mrun.
  rewrite <- !app_assoc. reflexivity.
Qed.

Lemma echo_eq msg evs p :
  echo msg (printing evs p) = (Ok tt, printing (evs ++ [EvEcho msg]) p).
Proof.
  unfold echo, call, printing. cbn [world INPUT_TYPE]. rewrite emit_eq.
  cbn [out fs bars tick]. by rewrite <- app_assoc.
Qed.

(** X21.  Options that fail one of the four checks of [main] (a query
    that mentions none of the selected columns, an unknown engine, a
    fusion code other than 7, 6, 5 and 3, an unsupported mode) start no
    job: after the banner exactly one message is printed and [main]
    returns, with the artifacts and the default type list untouched.  The
    engine and the fusion code are checked whatever the mode is. *)
Theorem rejected_options_start_no_job (E : Env) (K : Runtime) (o : Options)
    (p : Proc) :
  accepted K o = false →
  ∃ msg,
    main E K o p = (Ok tt, printing (banner_trace E K ++ [EvEcho msg]) p).
Proof.
  intros Hrej. unfold main. rewrite cli_bind_eq, call_banner.
  unfold accepted in Hrej.
  destruct (query_mismatch o); [eexists; apply echo_eq|].
  destruct (mem (casefold K (o_engine o)) ENGINES); cbn [negb];
    [|eexists; apply echo_eq].
  destruct (existsb (Z.eqb (o_fusion o)) FUSION_CODES); cbn [negb];
    [|eexists; apply echo_eq].
  destruct (mem (casefold K (o_mode o)) MODES); cbn [negb];
    [discriminate | eexists; apply echo_eq].
Qed.

Lemma rejected_options_start_no_job_witness :
  ∃ msg,
    main (sample_env ["data/a.png"] scan_scores no_fault) sample_runtime
      (sample_options "report" "obqe2" "") fresh =
      (Ok tt,
       printing (banner_trace (sample_env ["data/a.png"] scan_scores no_fault)
                   sample_runtime ++ [EvEcho msg]) fresh).
Proof.
  apply (rejected_options_start_no_job
           (sample_env ["data/a.png"] scan_scores no_fault) sample_runtime
           (sample_options "report" "obqe2" "") fresh).
  reflexivity.
Defined.

(** X22.  The mode ["fingerprint"] is an alias of ["finger"]: options
    that differ only in that run [main] to the same result. *)
Theorem fingerprint_is_finger (E : Env) (K : Runtime) (o : Options) (p : Proc) :
  casefold K (o_mode o) = "fingerprint" →
  casefold K "finger" = "finger" →
  main E K o p = main E K (with_mode "finger" o) p.
Proof.
  intros Hmode Hfinger. unfold main, query_mismatch.
  cbn [with_mode o_mode o_query o_columns o_engine o_fusion o_cwd o_type
       o_convert o_input o_sort o_prefix o_config o_output o_debug o_benchmark
       o_limit o_batch].
  rewrite Hmode, Hfinger. reflexivity.
Qed.

Lemma fingerprint_is_finger_witness :
  main (sample_env ["data/a.png"] scan_scores no_fault) sample_runtime
    (sample_options "fingerprint" "obqe" "") fresh =
  main (sample_env ["data/a.png"] scan_scores no_fault) sample_runtime
    (with_mode "finger" (sample_options "fingerprint" "obqe" "")) fresh.
Proof.
  apply (fingerprint_is_finger (sample_env ["data/a.png"] scan_scores no_fault)
           sample_runtime (sample_options "fingerprint" "obqe" "") fresh);
    reflexivity.
Defined.

Lemma banner_eq E K st :
  banner E K st =
    (Ok tt, MkState (out st ++ banner_trace E K) (fs st) (bars st) (tick st)).
Proof.
  unfold banner, banner_trace. mrun. rewrite emit_eq. cbn [out fs bars tick].
  rewrite <- !app_assoc. reflexivity.
Qed.

Lemma accepted_checks K o :
  accepted K o = true →
  query_mismatch o = false ∧
  mem (casefold K (o_engine o)) ENGINES = true ∧
  existsb (Z.eqb (o_fusion o)) FUSION_CODES = true ∧
  mem (casefold K (o_mode o)) MODES = true.
Proof.
  unfold accepted. intros H.
  apply andb_prop in H as [H H4]. apply andb_prop in H as [H H3].
  apply andb_prop in H as [H1 H2]. apply negb_true_iff in H1. done.
Qed.

Lemma mem_cases x l : mem x l = true → In x l.
Proof.
  unfold mem. intros H. apply existsb_exists in H as (y & Hy & Heq).
  apply String.eqb_eq in Heq. by subst.
Qed.

(** X23.  What an assessment mode runs in a fresh process when no
    [--type] is given: after the banner, [run] on the options as given
    (the casefolded mode and engine, the columns as the attributes, the
    file name as the pattern, a time-stamped folder under the input when
    no output is given), with the six default types for the finger mode
    and the same list without ["wsq"] for every other mode.  The list
    handed to the job is the module-level list itself, which is left
    without its ["wsq"] entry. *)
Theorem default_types_follow_mode (E : Env) (K : Runtime) (o : Options)
    (st : State) :
  accepted K o = true →
  o_type o = "" →
  o_benchmark o = false →
  mem (selected_mode K o) ["face"; "finger"; "iris"; "speech"] = true →
  let types :=
    if String.eqb (selected_mode K o) "finger" then INPUT_TYPE_0
    else ["jpg"; "jpeg"; "png"; "bmp"; "jp2"] in
  let job := (banner E K;; run E (assessment_of K o types)) st in
  main E K o (MkProc st INPUT_TYPE_0) = (job.1, MkProc job.2 types).
Proof.
  intros Hacc Htype Hbench Hmode types job. unfold job.
  destruct (accepted_checks K o Hacc) as (Hq & He & Hf & Hm).
  rewrite bind_eq, banner_eq.
  unfold main. rewrite cli_bind_eq, call_banner, Hq, He, Hf, Hm, Htype, Hbench.
  cbn [negb truthy_str String.eqb].
  unfold types, assessment_of. unfold selected_mode in *.
  set (mode := if String.eqb (casefold K (o_mode o)) "fingerprint"
               then "finger" else casefold K (o_mode o)) in *.
  apply mem_cases in Hmode. cbn [In] in Hmode.
  assert (Hwsq : list_remove "wsq" INPUT_TYPE_0 =
                 Some ["jpg"; "jpeg"; "png"; "bmp"; "jp2"]) by reflexivity.
  destruct Hmode as [<-|[<-|[<-|[<-|[]]]]];
    cbn [String.eqb Ascii.eqb Bool.eqb negb truthy_str];
    unfold printing; clirun; unfold remove_input_type;
    cbn [INPUT_TYPE world]; rewrite ?Hwsq; cbv beta iota;
    unfold get_input_type; cbn [INPUT_TYPE world];
    unfold call; cbn [world INPUT_TYPE];
    match goal with
    | |- context [run E ?j ?s] => destruct (run E j s) as [r s']
    end; reflexivity.
Qed.

Lemma default_types_follow_mode_witness :
  let E := sample_env ["data/a.png"] scan_scores no_fault in
  INPUT_TYPE (main E sample_runtime (sample_options "iris" "obqe" "") fresh).2 =
    ["jpg"; "jpeg"; "png"; "bmp"; "jp2"].
Proof.
  intros E. unfold fresh.
  rewrite (default_types_follow_mode E sample_runtime
             (sample_options "iris" "obqe" "") start);
    reflexivity.
Defined.

(** ** The shared default type list *)

Lemma keeps_ret {A} (a : A) : keeps_input_type (mret a : CLI A).
Proof. by intros p. Qed.

Lemma keeps_call {A} (m : M A) : keeps_input_type (call m).
Proof. intros p. unfold call. by destruct (m (world p)). Qed.

Lemma keeps_echo msg : keeps_input_type (echo msg).
Proof. apply keeps_call. Qed.

Lemma keeps_bind {A B} (m : CLI A) (k : A → CLI B) :
  keeps_input_type m → (∀ a, keeps_input_type (k a)) →
  keeps_input_type (m ≫= k).
Proof.
  intros Hm Hk p. rewrite cli_bind_eq. specialize (Hm p).
  destruct (m p) as [[a|e] p1]; cbn [snd] in *; [|exact Hm].
  by rewrite Hk.
Qed.

Ltac keeps_step :=
  match goal with
  | |- keeps_input_type (mret _) => apply keeps_ret
  | |- keeps_input_type (echo _) => apply keeps_echo
  | |- keeps_input_type (call _) => apply keeps_call
  | |- keeps_input_type (_ ≫= _) => apply keeps_bind
  | |- keeps_input_type (match ?x with _ => _ end) => destruct x
  | |- keeps_input_type (if ?x then _ else _) => destruct x
  | |- ∀ _, _ => intros ?
  end.

(** X24.  Without [--type], [main] hands the module-level list of
    default types itself to the job and, for every mode but finger,
    removes ["wsq"] from it in place.  So in a process whose list has
    already lost its ["wsq"] (a second call), such a call raises a
    [ValueError] right after the banner; otherwise the list is left
    without its first ["wsq"], whatever the job does; and a finger job
    gets the list as it finds it. *)
Theorem default_type_list_is_shared (E : Env) (K : Runtime) (o : Options)
    (p : Proc) :
  accepted K o = true →
  o_type o = "" →
  (selected_mode K o ≠ "finger" →
   list_remove "wsq" (INPUT_TYPE p) = None →
   main E K o p =
     (Err (ValueError "list.remove(x): x not in list"),
      printing (banner_trace E K) p)) ∧
  (selected_mode K o ≠ "finger" →
   ∀ l, list_remove "wsq" (INPUT_TYPE p) = Some l →
        INPUT_TYPE (main E K o p).2 = l) ∧
  (selected_mode K o = "finger" →
   o_benchmark o = false →
   let job :=
     (banner E K;; run E (assessment_of K o (INPUT_TYPE p))) (world p) in
   main E K o p = (job.1, MkProc job.2 (INPUT_TYPE p))).
Proof.
  intros Hacc Htype.
  destruct (accepted_checks K o Hacc) as (Hq & He & Hf & Hm).
  unfold main, selected_mode. rewrite cli_bind_eq, call_banner, Hq, He, Hf, Hm, Htype.
  cbn [negb truthy_str String.eqb].
  set (mode := if String.eqb (casefold K (o_mode o)) "fingerprint"
               then "finger" else casefold K (o_mode o)).
  split_and!.
  - intros Hmode Hwsq. apply String.eqb_neq in Hmode. rewrite Hmode.
    cbn [negb]. clirun. unfold remove_input_type, printing.
    cbn [INPUT_TYPE world]. rewrite Hwsq. reflexivity.
  - intros Hmode l Hwsq. apply String.eqb_neq in Hmode. rewrite Hmode.
    cbn [negb]. rewrite cli_bind_eq, cli_bind_eq. unfold remove_input_type at 1.
    unfold printing at 1. cbn [INPUT_TYPE world]. rewrite Hwsq.
    cbv beta iota. unfold get_input_type at 1. cbn [INPUT_TYPE world].
    match goal with
    | |- INPUT_TYPE (?m ?q).2 = _ =>
        assert (Hk : keeps_input_type m) by (repeat keeps_step);
        rewrite (Hk q); reflexivity
    end.
  - intros Hmode Hbench. cbv zeta. rewrite Hmode, Hbench.
    cbn [negb String.eqb Ascii.eqb Bool.eqb truthy_str].
    rewrite bind_eq, banner_eq. clirun. unfold get_input_type, printing.
    cbn [INPUT_TYPE world]. unfold call. cbn [world INPUT_TYPE].
    unfold assessment_of, selected_mode. fold mode. rewrite Hmode.
    match goal with
    | |- context [run E ?j ?s] => destruct (run E j s) as [r s']
    end; reflexivity.
Qed.

Lemma default_type_list_is_shared_witness :
  let E := sample_env ["data/a.png"] scan_scores no_fault in
  let o := sample_options "iris" "obqe" "" in
  let p1 := (main E sample_runtime o fresh).2 in
  main E sample_runtime o p1 =
    (Err (ValueError "list.remove(x): x not in list"),
     printing (banner_trace E sample_runtime) p1).
Proof.
  intros E o p1.
  destruct (default_type_list_is_shared E sample_runtime o p1) as (H & _);
    [reflexivity | reflexivity |].
  apply H; [vm_compute; discriminate | vm_compute; reflexivity].
Defined.

(** X25.  The empty mode passes the mode check but selects no job:
    without [--benchmark], [main] returns after the banner having started
    nothing (the default type list has lost its ["wsq"] all the same);
    with [--benchmark] it benchmarks the face mode. *)
Theorem empty_mode_selects_no_job (E : Env) (K : Runtime) (o : Options)
    (p : Proc) (l : list string) :
  accepted K o = true →
  casefold K (o_mode o) = "" →
  o_type o = "" →
  list_remove "wsq" (INPUT_TYPE p) = Some l →
  main E K o p =
    if o_benchmark o then
      let job :=
        (banner E K;;
         benchmark_job K "face" (o_limit o) (casefold K (o_engine o))
           (o_fusion o) (o_batch o)) (world p) in
      (job.1, MkProc job.2 l)
    else (Ok tt, MkProc (world (printing (banner_trace E K) p)) l).
Proof.
  intros Hacc Hmode Htype Hwsq.
  destruct (accepted_checks K o Hacc) as (Hq & He & Hf & Hm).
  unfold main. rewrite cli_bind_eq, call_banner, Hq, He, Hf, Hm, Htype, Hmode.
  cbn [negb truthy_str String.eqb]. clirun.
  unfold remove_input_type, printing. cbn [INPUT_TYPE world]. rewrite Hwsq.
  cbv beta iota. unfold get_input_type. cbn [INPUT_TYPE world].
  destruct (o_benchmark o); [|reflexivity].
  cbv zeta. rewrite bind_eq, banner_eq. unfold call. cbn [world INPUT_TYPE].
  match goal with
  | |- context [benchmark_job K ?a ?b ?c ?d ?e ?s] =>
      destruct (benchmark_job K a b c d e s) as [r s']
  end; reflexivity.
Qed.

Lemma empty_mode_selects_no_job_witness :
  let E := sample_env ["data/a.png"] scan_scores no_fault in
  main E sample_runtime (sample_options "" "obqe" "") fresh =
    (Ok tt,
     MkProc (world (printing (banner_trace E sample_runtime) fresh))
       ["jpg"; "jpeg"; "png"; "bmp"; "jp2"]).
Proof.
  intros E.
  apply (empty_mode_selects_no_job E sample_runtime
           (sample_options "" "obqe" "") fresh
           ["jpg"; "jpeg"; "png"; "bmp"; "jp2"]); reflexivity.
Defined.

(** ** The preprocessing configuration *)

Lemma cfg_get_set_eq k v c : cfg_get k (cfg_set k v c) = Some v.
Proof.
  induction c as [|[k' v'] c IH]; cbn [cfg_set cfg_get].
  - by rewrite String.eqb_refl.
  - destruct (String.eqb_spec k k') as [->|Hne]; cbn [cfg_get].
    + by rewrite String.eqb_refl.
    + apply String.eqb_neq in Hne. by rewrite Hne.
Qed.

Lemma cfg_get_set_ne k k' v c :
  k ≠ k' → cfg_get k (cfg_set k' v c) = cfg_get k c.
Proof.
  intros Hne. induction c as [|[k0 v0] c IH]; cbn [cfg_set cfg_get].
  - apply String.eqb_neq in Hne. by rewrite Hne.
  - destruct (String.eqb_spec k' k0) as [->|Hk0]; cbn [cfg_get].
    + apply String.eqb_neq in Hne. by rewrite Hne.
    + by rewrite IH.
Qed.

Lemma cfg_get_set k k' v c :
  cfg_get k (cfg_set k' v c) =
  if String.eqb k k' then Some v else cfg_get k c.
Proof.
  destruct (String.eqb_spec k k') as [->|Hne].
  - apply cfg_get_set_eq.
  - by apply cfg_get_set_ne.
Qed.

(** One item: either it is an infinity and the parse fails, or each key
    gets the contribution of the item, if it has one. *)
Lemma config_item_spec K item c :
  match config_item K item c with
  | Err e =>
      is_infinite K item ∧
      e = Exception "cannot convert float infinity to integer"
  | Ok c' =>
      ¬ is_infinite K item ∧
      ∀ k,
        cfg_get k c' =
        if String.eqb k "width" then
          match item_width K item with Some v => Some v | None => cfg_get k c end
        else if String.eqb k "frac" then
          match item_frac K item with Some v => Some v | None => cfg_get k c end
        else if String.eqb k "target" then
          match item_target item with Some v => Some v | None => cfg_get k c end
        else cfg_get k c
  end.
Proof.
  unfold config_item, config_number, py_float, item_width, item_frac,
    item_target, is_infinite.
  set (c1 := if mem item PROC_TYPE then cfg_set "target" (CStr item) c else c).
  assert (Hc1 : ∀ k, cfg_get k c1 =
            if String.eqb k "target"
            then (if mem item PROC_TYPE then Some (CStr item) else cfg_get k c)
            else cfg_get k c).
  { intros k. unfold c1. destruct (mem item PROC_TYPE).
    - apply cfg_get_set.
    - by destruct (String.eqb k "target"). }
  destruct (parse_float K item) as [[q|neg|]|] eqn:Hparse.
  - destruct (is_fraction (FNum q)) eqn:Hfrac.
    + split; [intros [neg Hneg]; discriminate|]. intros k.
      rewrite cfg_get_set, Hc1.
      destruct (String.eqb_spec k "width") as [->|Hw]; [reflexivity|].
      destruct (String.eqb_spec k "frac") as [->|Hf]; [reflexivity|].
      by destruct (String.eqb k "target"), (mem item PROC_TYPE).
    + cbn [py_int]. split; [intros [neg Hneg]; discriminate|]. intros k.
      rewrite cfg_get_set, Hc1. fold (truncated q).
      destruct (String.eqb_spec k "width") as [->|Hw]; [reflexivity|].
      destruct (String.eqb_spec k "frac") as [->|Hf]; [reflexivity|].
      by destruct (String.eqb k "target"), (mem item PROC_TYPE).
  - cbn [is_fraction py_int]. split; [by exists neg | reflexivity].
  - cbn [is_fraction py_int]. split; [intros [neg Hneg]; discriminate|].
    intros k. rewrite Hc1.
    destruct (String.eqb_spec k "width") as [->|Hw]; [reflexivity|].
    destruct (String.eqb_spec k "frac") as [->|Hf]; [reflexivity|].
    by destruct (String.eqb k "target"), (mem item PROC_TYPE).
  - split; [intros [neg Hneg]; discriminate|].
    intros k. rewrite Hc1.
    destruct (String.eqb_spec k "width") as [->|Hw]; [reflexivity|].
    destruct (String.eqb_spec k "frac") as [->|Hf]; [reflexivity|].
    by destruct (String.eqb k "target"), (mem item PROC_TYPE).
Qed.

Lemma config_items_spec K : ∀ items c,
  match config_items K items c with
  | Err e =>
      Exists (is_infinite K) items ∧
      e = Exception "cannot convert float infinity to integer"
  | Ok c' =>
      Forall (λ item, ¬ is_infinite K item) items ∧
      cfg_get "width" c' = last_some (item_width K) items (cfg_get "width" c) ∧
      cfg_get "frac" c' = last_some (item_frac K) items (cfg_get "frac" c) ∧
      cfg_get "target" c' = last_some item_target items (cfg_get "target" c) ∧
      ∀ k, k ≠ "width" → k ≠ "frac" → k ≠ "target" →
           cfg_get k c' = cfg_get k c
  end.
Proof.
  induction items as [|item items IH]; intros c; cbn [config_items].
  - split_and!; [constructor | reflexivity.. | done].
  - pose proof (config_item_spec K item c) as Hitem.
    destruct (config_item K item c) as [c1|e].
    + destruct Hitem as [Hfin Hget]. specialize (IH c1).
      destruct (config_items K items c1) as [c'|e].
      * destruct IH as (Hall & Hw & Hf & Ht & Hrest).
        split_and!.
        -- by constructor.
        -- rewrite Hw, (Hget "width"). reflexivity.
        -- rewrite Hf, (Hget "frac"). reflexivity.
        -- rewrite Ht, (Hget "target"). reflexivity.
        -- intros k H1 H2 H3. rewrite Hrest, Hget by done.
           apply String.eqb_neq in H1, H2, H3. by rewrite H1, H2, H3.
      * destruct IH as [Hex ->]. split; [by apply Exists_cons_tl | done].
    + destruct Hitem as [Hinf ->]. split; [by apply Exists_cons_hd | done].
Qed.

(** X26.  The configuration of the preprocess mode is never empty, so
    the "no params found" exit cannot be taken: a parse that succeeds
    always carries the ["source"] list of the fifteen accepted formats.
    The only way the parse fails is an item that reads as an infinite
    float, whose conversion to an integer is not a [ValueError]; the
    message then reports that conversion. *)
Theorem parse_config_outcomes (K : Runtime) (config : string) :
  let items := map (casefold K) (split_on comma config) in
  match parse_config K config with
  | inr c =>
      cfg_get "source" c = Some (CTypes PROC_TYPE) ∧
      Forall (λ item, ¬ is_infinite K item) items
  | inl msg =>
      Exists (is_infinite K) items ∧
      msg = ">>> Failed to parse configuration '" +:+ repr_list K items +:+
            "': cannot convert float infinity to integer. Exit."
  end.
Proof.
  intros items. unfold parse_config. fold items.
  pose proof (config_items_spec K items [("source", CTypes PROC_TYPE)]) as H.
  destruct (config_items K items _) as [c|e].
  - destruct H as (Hall & _ & _ & _ & Hrest).
    assert (Hsrc : cfg_get "source" (config_colour items c) =
                   Some (CTypes PROC_TYPE)).
    { unfold config_colour.
      repeat match goal with
             | |- context [if ?b then _ else _] => destruct b
             end;
        rewrite ?cfg_get_set_ne by discriminate; by apply Hrest. }
    destruct (config_colour items c) as [|kv c'] eqn:Hc; [discriminate|].
    cbn [length Nat.eqb]. by split.
  - destruct H as [Hex ->]. by split.
Qed.

(** X27.  What a configuration that parses holds.  The target is the
    last item that names one of the accepted formats; a finite number in
    (0, 10] is always taken as the resize fraction and any other finite
    number as the width, truncated towards zero, the last one of each kind
    winning; and at most one colour flag is set, grayscale (in either
    spelling) before rgb before rgba. *)
Theorem parse_config_fields (K : Runtime) (config : string) (c : configs) :
  parse_config K config = inr c →
  let items := map (casefold K) (split_on comma config) in
  let gray := mem "grayscale" items || mem "greyscale" items in
  cfg_get "target" c = last_some item_target items None ∧
  cfg_get "frac" c = last_some (item_frac K) items None ∧
  cfg_get "width" c = last_some (item_width K) items None ∧
  cfg_get "grayscale" c = (if gray then Some CTrue else None) ∧
  cfg_get "rgb" c = (if negb gray && mem "rgb" items then Some CTrue else None) ∧
  cfg_get "rgba" c =
    (if negb gray && negb (mem "rgb" items) && mem "rgba" items
     then Some CTrue else None).
Proof.
  intros Hparse items gray. unfold parse_config in Hparse. fold items in Hparse.
  pose proof (config_items_spec K items [("source", CTypes PROC_TYPE)]) as H.
  destruct (config_items K items _) as [c0|e]; [|discriminate].
  destruct H as (_ & Hw & Hf & Ht & Hrest).
  destruct (length (config_colour items c0) =? 0)%nat; [discriminate|].
  inversion Hparse; subst c. clear Hparse.
  cbn [cfg_get String.eqb Ascii.eqb Bool.eqb] in Hw, Hf, Ht.
  assert (Hg : cfg_get "grayscale" c0 = None) by (by rewrite Hrest).
  assert (Hrgb : cfg_get "rgb" c0 = None) by (by rewrite Hrest).
  assert (Hrgba : cfg_get "rgba" c0 = None) by (by rewrite Hrest).
  unfold config_colour. fold gray.
  destruct gray; cbn [negb andb];
    [|destruct (mem "rgb" items); cbn [negb andb];
      [|destruct (mem "rgba" items)]];
    rewrite ?cfg_get_set_eq, ?cfg_get_set_ne by discriminate; by split_and!.
Qed.

Lemma parse_config_fields_witness :
  cfg_get "target" [("source", CTypes PROC_TYPE); ("target", CStr "png");
                    ("width", CInt 512); ("frac", CFloat (QArith_base.Qmake 1 2));
                    ("grayscale", CTrue)] =
    last_some item_target ["png"; "512"; "0.5"; "rgb"; "grayscale"] None.
Proof.
  destruct (parse_config_fields sample_runtime "png,512,0.5,rgb,grayscale"
              [("source", CTypes PROC_TYPE); ("target", CStr "png");
               ("width", CInt 512); ("frac", CFloat (QArith_base.Qmake 1 2));
               ("grayscale", CTrue)]) as (H & _);
    [vm_compute; reflexivity | exact H].
Defined.

(** ** A job whose files are all scored *)

Lemma scan_task_scored_file E j output_dir log_dir path st :
  batch_policy (j_mode j) (j_engine j) = false →
  scored E j path →
  scan_task E (remote j output_dir log_dir path) st =
    (Ok (VList [file_row E j path]),
     MkState (out st) (csv_append output_dir (file_row E j path) (fs st))
       (bars st) (tick st)).
Proof.
  intros Hpolicy (d & Hscan & Hlog). unfold scan_task, file_row.
  cbn [remote t_mode t_engine t_path t_convert t_target t_prefix t_output_dir].
  rewrite Hpolicy, Hscan. mrun. cbn [py_get]. mrun. rewrite Hlog. mrun.
  unfold write_csv. mrun. reflexivity.
Qed.

(** The pool completed [done], each of them a scored file: their rows
    were appended to the table in the order of completion and nothing
    else was written. *)
Lemma ran_rows E j output_dir log_dir paths st st' :
  batch_policy (j_mode j) (j_engine j) = false →
  ran E (map (remote j output_dir log_dir) paths) st st' →
  Forall (scored E j) paths →
  ∀ rows fin,
    fs st !! output_dir = Some (CsvFile rows fin) →
    fs st' =
      <[output_dir := CsvFile (rows ++ map (file_row E j) paths) fin]> (fs st).
Proof.
  intros Hpolicy Hran. remember (map (remote j output_dir log_dir) paths) as done.
  revert paths Heqdone.
  induction Hran as [st st' [Hfs _] | t done st st1 st' [Hfs _] _ IH];
    intros paths Heq Hall rows fin Hrows.
  - destruct paths; [|discriminate]. cbn [map]. rewrite app_nil_r, Hfs.
    symmetry. by apply insert_id.
  - destruct paths as [|path paths]; [discriminate|].
    cbn [map] in Heq. inversion Heq; subst t done.
    inversion Hall as [|? ? Hpath Hrest]; subst.
    assert (Hfs1 : fs (complete E (remote j output_dir log_dir path) st1).2 =
                   <[output_dir := CsvFile (rows ++ [file_row E j path]) fin]>
                     (fs st)).
    { rewrite complete_unfold. cbn [snd emit fs].
      rewrite (scan_task_scored_file E j output_dir log_dir path st1 Hpolicy Hpath).
      cbn [snd fs]. unfold csv_append. by rewrite Hfs, Hrows. }
    rewrite (IH paths eq_refl Hrest (rows ++ [file_row E j path]) fin)
      by (rewrite Hfs1; apply lookup_insert_eq).
    rewrite Hfs1, insert_insert_eq. cbn [map]. by rewrite <- app_assoc.
Qed.

Lemma truthy_str_suffix a b : truthy_str b = true → truthy_str (a +:+ b) = true.
Proof.
  unfold truthy_str. destruct a as [|c a]; [done|]. reflexivity.
Qed.

Lemma Permutation_map_inv_remote j output_dir log_dir paths ts :
  Permutation (map (remote j output_dir log_dir) paths) ts →
  ∃ paths', ts = map (remote j output_dir log_dir) paths' ∧
            Permutation paths paths'.
Proof.
  intros H. apply Permutation_sym, Permutation_map_inv in H
    as (paths' & -> & Hperm).
  exists paths'. split; [reflexivity | by symmetry].
Qed.

(** X28.  A per-file job, without failures in finalization, on files
    that the engine all scores without a log: the job ends normally, the
    table it leaves is seamed and holds exactly one row for each submitted
    file (in the order the tasks completed), and the sealed log records no
    entry and no failure. *)
Theorem scored_files_fill_table (E : Env) (j : Job) (st : State) :
  path_exists E (j_input_folder j) = true →
  batch_policy (j_mode j) (j_engine j) = false →
  0 ≤ j_limit j →
  effective_total E j ≠ 0 →
  (∀ p, fault E p = None) →
  elapsed_us E ≠ 0 →
  Forall (scored E j) (submitted_files E j) →
  ∃ st' rows,
    run E j st = (Ok tt, st') ∧
    fs st' !! job_output_dir E j = Some (CsvFile rows true) ∧
    Permutation rows (map (file_row E j) (submitted_files E j)) ∧
    sealed_metadata (fs st') (job_log_dir E j) "log" = Some (VInt 0) ∧
    sealed_metadata (fs st') (job_log_dir E j) "failed" = Some (VInt 0).
Proof.
  intros Hex Hpolicy Hlimit Htot Hfault Hz Hall.
  rewrite run_dispatched by auto.
  unfold dispatch. rewrite Hpolicy.
  set (o := job_output_dir E j). set (l := job_log_dir E j).
  set (st0 := dispatch_state E j st).
  assert (Hne : o ≠ l) by apply job_output_ne_log.
  assert (Hne' : l ≠ o) by (intros H; by apply Hne).
  assert (Hge : 1 ≤ effective_total E j).
  { apply clamp_total_ge; auto using input_count_nonneg. }
  destruct (per_file_spec E j o l (effective_total E j) (job_files E j) st0 Hge)
    as (st1 & _ & Hfs1 & Hrun).
  fold (submitted_files E j) in Hrun.
  set (paths := submitted_files E j) in *.
  set (tasks := map (remote j o l) paths) in *.
  assert (Hok : Forall (λ t, ∀ s, ∃ v, (scan_task E t s).1 = Ok v) tasks).
  { subst tasks. apply Forall_map. eapply Forall_impl; [exact Hall|].
    intros path Hpath s. eexists.
    by rewrite (scan_task_scored_file E j o l path s Hpolicy Hpath). }
  pose proof (drain_units_ok E (effective_total E j) tasks st1 Hok) as Hdok.
  destruct (drain_spec E (effective_total E j) tasks st1)
    as (rest & st1' & done & _ & _ & _ & Hperm & _ & Hran).
  rewrite bind_eq in Hrun.
  destruct (drain E (effective_total E j) tasks st1) as [[[]|e] st2];
    [|discriminate]. cbn [snd mret M_ret] in *.
  destruct (Permutation_map_inv_remote j o l paths (done ++ rest) Hperm)
    as (paths' & Hpaths' & Hpp).
  rewrite Hpaths' in Hran.
  assert (Hall' : Forall (scored E j) paths') by (by rewrite <- Hpp).
  pose proof (ran_rows E j o l paths' st1 st2 Hpolicy Hran Hall' [] false) as Hfs2.
  rewrite Hfs1 in Hfs2. cbn [st0 dispatch_state fs] in Hfs2.
  rewrite lookup_insert_ne, lookup_insert_eq in Hfs2 by first [exact Hne | exact Hne'].
  specialize (Hfs2 eq_refl). cbn [app] in Hfs2.
  (* finalization *)
  set (k := Nat.min (length (job_files E j)) (Z.to_nat (effective_total E j))) in *.
  set (c := Counters (Z.of_nat k) 0 (j_batch j)) in *.
  assert (Hk : (1 ≤ k)%nat).
  { pose proof (clamp_total_le (j_limit j) (input_count E j)) as Hle.
    fold (effective_total E j) in Hle.
    assert (Hin : input_count E j = Z.of_nat (length (job_files E j)))
      by reflexivity.
    subst k. lia. }
  assert (Hes : log_entries (fs st2) l = []).
  { unfold log_entries. rewrite Hfs2.
    rewrite lookup_insert_ne, lookup_insert_eq by first [exact Hne | exact Hne']. reflexivity. }
  assert (Hfc : recomputed_failed c (log_entries (fs st2) l) = 0)
    by (by rewrite Hes).
  destruct (finalize_steps E j (job_input E j) o l c st2
              (Hfault FSeal) (Hfault FReload))
    as (s1 & s2 & rd & s3 & flt & s4 & Hs & Hseam & Hrep & Hfil & Hfin).
  rewrite Hfc in Hs, Hseam, Hrep, Hfil, Hfin.
  rewrite (nulled_kept c 0 o) in Hseam, Hrep, Hfil, Hfin by (cbn; lia).
  rewrite (seal_log_exact E j (job_input E j) l c st2 (Hfault FSeal)
             (Hfault FReload)), (Hfault FRewrite), Hes in Hs.
  inversion Hs as [Hs1]. clear Hs.
  assert (Ho : truthy_str o = true) by (apply truthy_str_suffix; reflexivity).
  unfold seam_output, write_csv_seam, when in Hseam.
  rewrite try_except_eq, Ho, (Hfault FSeam), bind_eq in Hseam.
  cbn [get_fs] in Hseam. rewrite <- Hs1 in Hseam. cbn [fs] in Hseam.
  match type of Hseam with
  | context [?m !! o] =>
      assert (Hlook : m !! o = Some (CsvFile (map (file_row E j) paths') false))
        by (rewrite !lookup_insert_ne by exact Hne'; rewrite Hfs2;
            apply lookup_insert_eq)
  end.
  rewrite Hlook in Hseam.
  cbn [set_fs fs out bars tick] in Hseam. inversion Hseam as [Hs2]. clear Hseam.
  destruct (report_views_ok E j (Some o) s2) as (? & ? & Hrep' & _ & [_ Hfs3] & _).
  rewrite Hrep in Hrep'. inversion Hrep'; subst x x0.
  destruct (filter_views_ok E j (Some o) s3) as (? & ? & Hfil' & _ & [_ Hfs4] & _).
  rewrite Hfil in Hfil'. inversion Hfil'; subst x x0.
  rewrite (print_summary_ok E _ _ Hz) in Hfin.
  assert (Hfs : fs s4 = fs s2) by congruence.
  eexists _, (map (file_row E j) paths'). rewrite bind_eq, Hrun.
  split; [exact Hfin|]. cbn [fs]. rewrite Hfs, <- Hs2. cbn [fs].
  split_and!.
  - apply lookup_insert_eq.
  - apply Permutation_map. by symmetry.
  - unfold sealed_metadata.
    rewrite lookup_insert_ne, lookup_insert_eq by first [exact Hne | exact Hne'].
    cbn [field dict_get String.eqb Ascii.eqb Bool.eqb].
    by destruct (sealed_log_metadata_fields E j (job_input E j) c []) as (-> & _).
  - unfold sealed_metadata.
    rewrite lookup_insert_ne, lookup_insert_eq by first [exact Hne | exact Hne'].
    cbn [field dict_get String.eqb Ascii.eqb Bool.eqb].
    by destruct (sealed_log_metadata_fields E j (job_input E j) c [])
      as (_ & _ & -> & _).
Qed.

Lemma scored_files_fill_table_witness :
  let E := sample_env ["data/a.png"; "data/b.png"] scan_scores no_fault in
  let j := sample_job "iris" "obqe" 0 30 in
  ∃ st' rows,
    run E j start = (Ok tt, st') ∧
    fs st' !! job_output_dir E j = Some (CsvFile rows true) ∧
    Permutation rows (map (file_row E j) ["data/a.png"; "data/b.png"]).
Proof.
  intros E j.
  destruct (scored_files_fill_table E j start)
    as (st' & rows & Hrun & Hfs & Hperm & _);
    [reflexivity | reflexivity | vm_compute; discriminate
    | vm_compute; discriminate | reflexivity | vm_compute; discriminate | |].
  - vm_compute. repeat constructor; (eexists; split; reflexivity).
  - exists st', rows. split_and!; [exact Hrun | exact Hfs | exact Hperm].
Defined.

(** ** A job whose scoring calls all raise *)

Lemma scan_task_raising E j output_dir log_dir path st :
  batch_policy (j_mode j) (j_engine j) = false →
  output_dir ≠ log_dir →
  raising E j path →
  (scan_task E (remote j output_dir log_dir path) st).1 = Ok VNone ∧
  ∀ n, errors_logged output_dir log_dir n (fs st) →
       errors_logged output_dir log_dir (S n)
         (fs (scan_task E (remote j output_dir log_dir path) st).2).
Proof.
  intros Hpolicy Hne [e Hscan]. unfold scan_task.
  cbn [remote t_mode t_engine t_path t_convert t_target t_log_dir
       t_output_dir t_prefix].
  rewrite Hpolicy, Hscan. mrun. unfold write_log. mrun.
  split; [reflexivity|]. intros n (Ho & es & Hes & Hlen & Hcount).
  cbn [mret M_ret snd fs]. split.
  - by rewrite log_append_other.
  - eexists. split_and!.
    + unfold log_append. rewrite Hes. apply lookup_insert_eq.
    + rewrite length_app. cbn [length]. lia.
    + unfold count_failed in *. rewrite List.filter_app, length_app.
      cbn. lia.
Qed.

(** A per-file job whose scoring calls all raise, without failures in
    finalization: what it prints, submits and leaves. *)
Lemma raising_job_run (E : Env) (j : Job) (st : State) :
  path_exists E (j_input_folder j) = true →
  batch_policy (j_mode j) (j_engine j) = false →
  0 ≤ j_limit j →
  effective_total E j ≠ 0 →
  (∀ p, fault E p = None) →
  elapsed_us E ≠ 0 →
  Forall (raising E j) (submitted_files E j) →
  let k := Z.of_nat (length (submitted_files E j)) in
  let tasks :=
    map (remote j (job_output_dir E j) (job_log_dir E j))
        (submitted_files E j) in
  ∃ st' w report_dir outlier_filter,
    run E j st = (Ok tt, st') ∧
    out st' =
      out st ++ (dispatch_trace E j ++ map EvSubmit tasks ++ w) ++
      closing (summary E (job_input E j) (job_log_dir E j) k
                 (Some (job_output_dir E j)) report_dir outlier_filter) ∧
    Forall quiet w ∧
    1 ≤ k ∧
    fs st' !! job_output_dir E j = Some (CsvFile [] true) ∧
    sealed_metadata (fs st') (job_log_dir E j) "log" = Some (VInt k) ∧
    sealed_metadata (fs st') (job_log_dir E j) "failed" = Some (VInt 0).
Proof.
  intros Hex Hpolicy Hlimit Htot Hfault Hz Hall k tasks0.
  rewrite run_dispatched by auto.
  unfold dispatch. rewrite Hpolicy.
  set (o := job_output_dir E j). set (l := job_log_dir E j).
  set (st0 := dispatch_state E j st).
  assert (Hne : o ≠ l) by apply job_output_ne_log.
  assert (Hne' : l ≠ o) by (intros H; by apply Hne).
  assert (Hge : 1 ≤ effective_total E j).
  { apply clamp_total_ge; auto using input_count_nonneg. }
  destruct (per_file_spec E j o l (effective_total E j) (job_files E j) st0 Hge)
    as (st1 & Hout1 & Hfs1 & Hrun).
  fold (submitted_files E j) in Hrun, Hout1.
  set (paths := submitted_files E j) in *.
  set (tasks := map (remote j o l) paths) in *.
  assert (Hgood : Forall (λ t, ∀ s,
                    (scan_task E t s).1 = Ok VNone ∧
                    ∀ n, errors_logged o l n (fs s) →
                         errors_logged o l (S n) (fs (scan_task E t s).2)) tasks).
  { subst tasks. apply Forall_map. eapply Forall_impl; [exact Hall|].
    intros path Hpath s. by apply scan_task_raising. }
  assert (Hok : Forall (λ t, ∀ s, ∃ v, (scan_task E t s).1 = Ok v) tasks).
  { eapply Forall_impl; [exact Hgood|]. intros t Ht s.
    destruct (Ht s) as [Hs _]. by eexists. }
  assert (Hinv : Forall (λ t, ∀ s n, errors_logged o l n (fs s) →
                   errors_logged o l (S n) (fs (scan_task E t s).2)) tasks).
  { eapply Forall_impl; [exact Hgood|]. intros t Ht s. by destruct (Ht s). }
  pose proof (drain_units_ok E (effective_total E j) tasks st1 Hok) as Hdok.
  destruct (drain_spec E (effective_total E j) tasks st1)
    as (rest & st1' & done & _ & _ & _ & Hperm & _ & Hran).
  destruct (drain_quiet E (effective_total E j) tasks st1) as (w & Hout2 & Hw).
  rewrite bind_eq in Hrun.
  destruct (drain E (effective_total E j) tasks st1) as [[[]|e] st2];
    [|discriminate]. cbn [snd mret M_ret] in *.
  assert (Hlog : errors_logged o l (length tasks) (fs st2)).
  { rewrite (Permutation_length Hperm).
    apply (ran_invariant E (errors_logged o l) (done ++ rest) st1 st2 Hran)
      with (n := 0%nat).
    - by rewrite <- Hperm.
    - rewrite Hfs1. subst st0. cbn [dispatch_state fs]. split.
      + rewrite lookup_insert_ne by exact Hne'. apply lookup_insert_eq.
      + exists []. split_and!; [apply lookup_insert_eq | reflexivity..]. }
  assert (Hlen : length tasks = length paths) by (subst tasks; apply length_map).
  rewrite Hlen in Hlog. destruct Hlog as (Ho2 & es & Hes & Hn & Hcount).
  assert (Hk : Z.of_nat (Nat.min (length (job_files E j))
                           (Z.to_nat (effective_total E j))) = k).
  { unfold k. subst paths. unfold submitted_files. rewrite length_take. lia. }
  rewrite Hk in Hrun.
  set (c := Counters k 0 (j_batch j)) in *.
  assert (Hk1 : 1 ≤ k).
  { pose proof (clamp_total_le (j_limit j) (input_count E j)) as Hle.
    fold (effective_total E j) in Hle.
    assert (Hin : input_count E j = Z.of_nat (length (job_files E j)))
      by reflexivity.
    rewrite <- Hk. lia. }
  assert (Hentries : log_entries (fs st2) l = es)
    by (unfold log_entries; by rewrite Hes).
  assert (Hfc : recomputed_failed c (log_entries (fs st2) l) = 0)
    by (by rewrite Hentries).
  destruct (finalize_steps E j (job_input E j) o l c st2
              (Hfault FSeal) (Hfault FReload))
    as (s1 & s2 & rd & s3 & flt & s4 & Hs & Hseam & Hrep & Hfil & Hfin).
  rewrite Hfc in Hs, Hseam, Hrep, Hfil, Hfin.
  assert (Hod : nulled c 0 o = Some o)
    by (apply nulled_kept; subst c; cbn [file_count]; lia).
  rewrite Hod in Hseam, Hrep, Hfil, Hfin.
  rewrite (seal_log_exact E j (job_input E j) l c st2 (Hfault FSeal)
             (Hfault FReload)), (Hfault FRewrite), Hentries in Hs.
  injection Hs as _ Hs1.
  assert (Ho : truthy_str o = true) by (apply truthy_str_suffix; reflexivity).
  unfold seam_output, write_csv_seam, when in Hseam.
  rewrite try_except_eq, Ho, (Hfault FSeam), bind_eq in Hseam.
  cbn [get_fs] in Hseam. rewrite <- Hs1 in Hseam. cbn [fs] in Hseam.
  match type of Hseam with
  | context [?m !! o] =>
      assert (Hlook : m !! o = Some (CsvFile [] false))
        by (rewrite !lookup_insert_ne by exact Hne'; exact Ho2)
  end.
  rewrite Hlook in Hseam.
  cbn [set_fs fs out bars tick] in Hseam. inversion Hseam as [Hs2]. clear Hseam.
  destruct (report_views_ok E j (Some o) s2)
    as (? & ? & Hrep' & (w3 & Ho3 & Hw3) & [_ Hfs3] & _).
  rewrite Hrep in Hrep'. inversion Hrep'; subst x x0.
  destruct (filter_views_ok E j (Some o) s3)
    as (? & ? & Hfil' & (w4 & Ho4 & Hw4) & [_ Hfs4] & _).
  rewrite Hfil in Hfil'. inversion Hfil'; subst x x0.
  rewrite (print_summary_ok E _ _ Hz) in Hfin.
  assert (Hfs : fs s4 = fs s2) by congruence.
  eexists _, (w ++ w3 ++ w4), rd, flt.
  rewrite bind_eq, Hrun.
  split; [exact Hfin|]. cbn [fs out]. rewrite Hfs, Ho4, Ho3, <- Hs2.
  cbn [fs out]. split_and!.
  - rewrite Hout2, Hout1. subst st0 tasks0. cbn [dispatch_state out].
    by rewrite <- !app_assoc.
  - repeat (apply Forall_app; split); auto using warnings_quiet.
  - exact Hk1.
  - apply lookup_insert_eq.
  - unfold sealed_metadata.
    rewrite lookup_insert_ne, lookup_insert_eq by first [exact Hne | exact Hne'].
    cbn [field dict_get String.eqb Ascii.eqb Bool.eqb].
    destruct (sealed_log_metadata_fields E j (job_input E j) c es) as (-> & _).
    by rewrite Hn.
  - unfold sealed_metadata.
    rewrite lookup_insert_ne, lookup_insert_eq by first [exact Hne | exact Hne'].
    cbn [field dict_get String.eqb Ascii.eqb Bool.eqb].
    destruct (sealed_log_metadata_fields E j (job_input E j) c es)
      as (_ & _ & -> & _).
    unfold recomputed_failed. cbn [failed c Z.eqb]. by rewrite Hcount.
Qed.

(** X29.  A per-file job, without failures in finalization, whose
    scoring calls all raise: the job still ends normally.  The table it
    leaves is seamed but empty, and stays the output reference of the
    summary; the sealed log has one entry for each submitted file, and its
    failure count is 0, because task errors are not load-image
    failures. *)
Theorem raising_engine_leaves_empty_table (E : Env) (j : Job) (st : State) :
  path_exists E (j_input_folder j) = true →
  batch_policy (j_mode j) (j_engine j) = false →
  0 ≤ j_limit j →
  effective_total E j ≠ 0 →
  (∀ p, fault E p = None) →
  elapsed_us E ≠ 0 →
  Forall (raising E j) (submitted_files E j) →
  let k := Z.of_nat (length (submitted_files E j)) in
  ∃ st' evs report_dir outlier_filter,
    run E j st = (Ok tt, st') ∧
    out st' =
      out st ++ evs ++
      closing (summary E (job_input E j) (job_log_dir E j) k
                 (Some (job_output_dir E j)) report_dir outlier_filter) ∧
    fs st' !! job_output_dir E j = Some (CsvFile [] true) ∧
    sealed_metadata (fs st') (job_log_dir E j) "log" = Some (VInt k) ∧
    sealed_metadata (fs st') (job_log_dir E j) "failed" = Some (VInt 0).
Proof.
  intros Hex Hpolicy Hlimit Htot Hfault Hz Hall k.
  destruct (raising_job_run E j st Hex Hpolicy Hlimit Htot Hfault Hz Hall)
    as (st' & w & rd & flt & Hrun & Hout & _ & _ & Hfs & Hlog & Hfailed).
  eexists st', _, rd, flt.
  split_and!; [exact Hrun | exact Hout | exact Hfs | exact Hlog | exact Hfailed].
Qed.

Lemma raising_engine_leaves_empty_table_witness :
  let E := sample_env ["data/a.png"; "data/b.png"] scan_raises no_fault in
  let j := sample_job "iris" "obqe" 0 30 in
  ∃ st', run E j start = (Ok tt, st') ∧
         fs st' !! job_output_dir E j = Some (CsvFile [] true) ∧
         sealed_metadata (fs st') (job_log_dir E j) "log" = Some (VInt 2) ∧
         sealed_metadata (fs st') (job_log_dir E j) "failed" = Some (VInt 0).
Proof.
  intros E j.
  destruct (raising_engine_leaves_empty_table E j start)
    as (st' & evs & rd & flt & Hrun & _ & Hfs & Hlog & Hfailed);
    [reflexivity | reflexivity | vm_compute; discriminate
    | vm_compute; discriminate | reflexivity | vm_compute; discriminate | |].
  - vm_compute. repeat constructor; by eexists.
  - exists st'. split_and!; [exact Hrun | exact Hfs | exact Hlog | exact Hfailed].
Defined.

(** C2.  A per-file job, without failures in finalization, in which
    every submitted unit errors (its scoring call raises): the job ends
    normally and has submitted at least one unit; the log records one
    task error for each of them, yet the failure count recomputed from
    the log is 0, not the number of submitted units, because only entries
    with the load-image marker are counted; so the comparison with the
    processed count fails and the summary still points at the output
    table, which is empty. *)
Theorem errored_units_are_not_counted (E : Env) (j : Job) (st : State) :
  path_exists E (j_input_folder j) = true →
  batch_policy (j_mode j) (j_engine j) = false →
  0 ≤ j_limit j →
  effective_total E j ≠ 0 →
  (∀ p, fault E p = None) →
  elapsed_us E ≠ 0 →
  Forall (raising E j) (submitted_files E j) →
  ∃ st' evs s,
    run E j st = (Ok tt, st') ∧
    out st' = out st ++ evs ∧
    printed evs = [s] ∧
    submitted_tasks evs =
      map (remote j (job_output_dir E j) (job_log_dir E j))
          (submitted_files E j) ∧
    (0 < length (submitted_tasks evs))%nat ∧
    sealed_metadata (fs st') (job_log_dir E j) "log"
      = Some (VInt (Z.of_nat (length (submitted_tasks evs)))) ∧
    sealed_metadata (fs st') (job_log_dir E j) "failed" = Some (VInt 0) ∧
    processed_count s = Some (VInt (Z.of_nat (length (submitted_tasks evs)))) ∧
    task_field "Output" s = Some (VStr (job_output_dir E j)) ∧
    fs st' !! job_output_dir E j = Some (CsvFile [] true).
Proof.
  intros Hex Hpolicy Hlimit Htot Hfault Hz Hall.
  destruct (raising_job_run E j st Hex Hpolicy Hlimit Htot Hfault Hz Hall)
    as (st' & w & rd & flt & Hrun & Hout & Hw & Hk & Hfs & Hlog & Hfailed).
  set (tasks := map (remote j (job_output_dir E j) (job_log_dir E j))
                    (submitted_files E j)) in *.
  set (s := summary E (job_input E j) (job_log_dir E j)
              (Z.of_nat (length (submitted_files E j)))
              (Some (job_output_dir E j)) rd flt) in *.
  destruct (dispatch_trace_quiet E j) as [Hsub0 Hpr0].
  destruct (quiet_nothing _ Hw) as [Hsub1 Hpr1].
  assert (Hsubmitted :
    submitted_tasks ((dispatch_trace E j ++ map EvSubmit tasks ++ w) ++ closing s)
      = tasks).
  { rewrite !submitted_tasks_app, Hsub0, Hsub1, submitted_tasks_submits.
    cbn. by rewrite !app_nil_r. }
  assert (Hlen : length tasks = length (submitted_files E j))
    by (subst tasks; apply length_map).
  exists st', ((dispatch_trace E j ++ map EvSubmit tasks ++ w) ++ closing s),
         (VDict s).
  rewrite Hsubmitted, Hlen.
  split_and!; [exact Hrun | exact Hout | | reflexivity | lia | exact Hlog
              | exact Hfailed | | | exact Hfs].
  - rewrite !printed_app, Hpr0, Hpr1, printed_submits. reflexivity.
  - subst s. by rewrite processed_count_summary.
  - subst s. unfold task_field, summary. by destruct (truthy flt).
Qed.

Lemma errored_units_are_not_counted_witness :
  let E := sample_env ["data/a.png"; "data/b.png"] scan_raises no_fault in
  let j := sample_job "iris" "obqe" 0 30 in
  ∃ st' evs s,
    run E j start = (Ok tt, st') ∧
    out st' = evs ∧
    printed evs = [s] ∧
    length (submitted_tasks evs) = 2%nat ∧
    sealed_metadata (fs st') sample_log "log" = Some (VInt 2) ∧
    sealed_metadata (fs st') sample_log "failed" = Some (VInt 0) ∧
    task_field "Output" s = Some (VStr sample_output) ∧
    fs st' !! sample_output = Some (CsvFile [] true).
Proof.
  intros E j.
  destruct (errored_units_are_not_counted E j start)
    as (st' & evs & s & Hrun & Hout & Hpr & Hsub & _ & Hlog & Hfailed & _
        & Houtput & Hfs);
    [reflexivity | reflexivity | vm_compute; discriminate
    | vm_compute; discriminate | reflexivity | vm_compute; discriminate | |].
  - vm_compute. repeat constructor; by eexists.
  - exists st', evs, s.
    split_and!; [exact Hrun | exact Hout | exact Hpr | by rewrite Hsub
                | by rewrite Hsub in Hlog | exact Hfailed | exact Houtput
                | exact Hfs].
Defined.

(** The per-batch loop does count the batches whose task errors, but
    against a processed count of the successes only: when both batches of
    a speech job error, nothing is processed, four failures are recorded
    for three files, and the summary still points at the empty table. *)
Lemma failed_batches_keep_output :
  let E := sample_env ["data/a.wav"; "data/b.wav"; "data/c.wav"]
             scan_raises no_fault in
  let j := sample_job "speech" "obqe" 0 2 in
  let r := run E j start in
  r.1 = Ok tt ∧
  sealed_metadata (fs r.2) (job_log_dir E j) "processed" = Some (VInt 0) ∧
  sealed_metadata (fs r.2) (job_log_dir E j) "failed" = Some (VInt 4) ∧
  fs r.2 !! job_output_dir E j = Some (CsvFile [] true) ∧
  ∃ s, printed (out r.2) = [s] ∧
       task_field "Output" s = Some (VStr (job_output_dir E j)).
Proof.
  vm_compute. split_and!; try reflexivity. eexists. split; reflexivity.
Qed.

(** ** The query guard *)

Lemma prefix_spec a : ∀ b,
  String.prefix a b = true ↔ ∃ post, b = a +:+ post.
Proof.
  induction a as [|c a IH]; intros [|c' b]; cbn [String.prefix].
  - split; [intros _; by exists "" | done].
  - split; [intros _; by exists (String c' b) | done].
  - split; [done | intros [post H]; discriminate].
  - destruct (ascii_dec c c') as [->|Hne].
    + rewrite IH. split; intros [post H]; exists post.
      * cbn. by rewrite H.
      * cbn in H. by inversion H.
    + split; [done | intros [post H]; cbn in H; inversion H; congruence].
Qed.

Lemma contains_spec needle : ∀ hay,
  contains needle hay = true ↔ ∃ pre post, hay = pre +:+ needle +:+ post.
Proof.
  induction hay as [|c hay IH]; cbn [contains].
  - rewrite orb_false_r, prefix_spec. split.
    + intros [post H]. by exists "", post.
    + intros (pre & post & H). destruct pre; [by exists post|discriminate].
  - rewrite orb_true_iff, prefix_spec, IH. split.
    + intros [[post H]|(pre & post & H)].
      * by exists "", post.
      * exists (String c pre), post. cbn. by rewrite H.
    + intros (pre & post & H). destruct pre as [|c' pre].
      * left. by exists post.
      * right. cbn in H. inversion H. by exists pre, post.
Qed.

(** X30.  The query guard of [main] rejects exactly when a query and
    a column list are both given and no item of the column list occurs in
    the query as a substring.  Since the empty string occurs in every
    query, a column list with an empty item (a trailing or doubled comma)
    is never rejected. *)
Theorem query_guard (o : Options) :
  (query_mismatch o = true ↔
   o_query o ≠ "" ∧ o_columns o ≠ "" ∧
   Forall (λ col, ∀ pre post, o_query o ≠ pre +:+ col +:+ post)
     (split_on comma (o_columns o))) ∧
  (In "" (split_on comma (o_columns o)) → query_mismatch o = false).
Proof.
  assert (Hguard : query_mismatch o = true ↔
            o_query o ≠ "" ∧ o_columns o ≠ "" ∧
            Forall (λ col, ∀ pre post, o_query o ≠ pre +:+ col +:+ post)
              (split_on comma (o_columns o))).
  { unfold query_mismatch, truthy_str.
    rewrite !andb_true_iff, !negb_true_iff, !String.eqb_neq.
    rewrite <- not_true_iff_false, existsb_exists, Forall_forall.
    split.
    - intros [[Hq Hc] Hcols]. split_and!; [done..|].
      intros col Hin pre post Heq. apply Hcols. exists col.
      split; [by apply list_elem_of_In|].
      apply contains_spec. by exists pre, post.
    - intros (Hq & Hc & Hcols). split_and!; [done..|].
      intros (col & Hin & Hsub).
      apply contains_spec in Hsub as (pre & post & Heq).
      apply list_elem_of_In in Hin. by apply (Hcols col Hin pre post). }
  split; [exact Hguard|].
  intros Hin. apply not_true_iff_false. rewrite Hguard.
  intros (_ & _ & Hall). rewrite Forall_forall in Hall.
  apply list_elem_of_In in Hin. apply (Hall "" Hin "" (o_query o)). reflexivity.
Qed.
